(** * PRISM portfolio bot: price cache, retrying fetch, allocator, validator

    A shallow embedding of the core of [v12_ultra_optimized]:
    [config.py], [strategies.py], [portfolio_validator.py],
    [cache_manager.py], [api_client.py], [client_filter.py],
    [performance_tracker.py] and [batch_processor.py].

    Modelling conventions.
    - In the strategies, in the optimiser and in the caches a Python
      [float] is the rational number it stands for ([Q]) and arithmetic is
      exact; [int(x)] is truncation toward zero; [a / b] raises
      [ZeroDivisionError] when [b] is zero. What is stated there about
      amounts holds with room for the rounding of binary64 arithmetic.
    - [validate_portfolio] decides at a boundary, by comparing computed
      floats: there a [float] is a binary64 number (a primitive [float]),
      with the IEEE 754 operations.
    - A [dict] is a [gmap]; a list of dicts with fixed keys is a list of
      records.
    - An exception that escapes a function is a [Raise] in the [res] type;
      a [try]/[except] in the source is a [match] on it.
    - The cache, the counters, the cache file, the clock and the traffic
      sent to the remote services are fields of explicit state records.
      A [datetime] is a number of microseconds; the clock moves only in
      [time.sleep].
    - The cache file is what [json.load] returns for it: the ['historical']
      object and the ['last_updated'] stamp. Failing disk writes are not
      modelled.
    - The remote services are functions from the number of requests sent
      so far and the request to what [requests] returns or raises.
    - The worker pool runs its tasks one after the other, each to
      completion, in an order given by a parameter. *)

From Stdlib Require Import QArith Qround Lqa ZArith String Ascii Floats.
From stdpp Require Import gmap strings list fin_maps.

(** A decimal literal such as [1.01%float] is the double nearest to it,
    as in Python. *)
#[local] Set Warnings "-inexact-float".

Local Open Scope string_scope.
Local Open Scope list_scope.

(** ** Python values and exceptions *)

Inductive exn : Type :=
  | ZeroDivisionError
  | KeyError (key : string)
  | ValueError
  | OverflowError.

Inductive res (A : Type) : Type :=
  | Ret (a : A)
  | Raise (e : exn).
Arguments Ret {A} a.
Arguments Raise {A} e.

#[export] Instance res_ret : MRet res := λ A a, Ret a.
#[export] Instance res_bind : MBind res := λ A B f m,
  match m with
  | Ret a => f a
  | Raise e => Raise e
  end.

Definition Qltb (x y : Q) : bool := negb (Qle_bool y x).

(** [a / b] on floats. *)
Definition py_div (a b : Q) : res Q :=
  if Qeq_bool b 0 then Raise ZeroDivisionError else Ret (a / b)%Q.

(** [int(x)]: truncation toward zero. *)
Definition py_int (x : Q) : Z := Z.quot (Qnum x) (Zpos (Qden x)).

(** [d[k]] on a price dictionary. *)
Definition getitem (prices : gmap string Q) (k : string) : res Q :=
  match prices !! k with
  | Some p => Ret p
  | None => Raise (KeyError k)
  end.

(** [list.sort(key=...)] / [sorted(..., key=...)]: a stable sort, ascending
    in the key. *)
Fixpoint insert_sorted {A : Type} (key : A → Q) (x : A) (l : list A) : list A :=
  match l with
  | [] => [x]
  | y :: l' =>
      if Qle_bool (key x) (key y) then x :: y :: l'
      else y :: insert_sorted key x l'
  end.

Definition sort_by {A : Type} (key : A → Q) (l : list A) : list A :=
  foldr (insert_sorted key) [] l.

(** ** config.py *)

Definition CACHE_TTL : Q := 300.
Definition MAX_RETRIES : nat := 3.
Definition RETRY_BASE_DELAY : Z := 1.
Definition INITIAL_BUDGET_USAGE : Q := 0.96.
Definition TARGET_BUDGET_USAGE : Q := 0.98.

Definition STRATEGY_THRESHOLDS : list (string * (Z * Z)) :=
  [ ("diversification", (0, 30)%Z);
    ("preference_weighted", (31, 60)%Z);
    ("high_conviction", (61, 100)%Z) ].

Record stock : Type := Stock { ticker : string; sector : string }.

Definition STOCKS : list stock :=
  [ Stock "AAPL" "Technology";
    Stock "MSFT" "Technology";
    Stock "GOOG" "Technology";
    Stock "AMZN" "Consumer Cyclical";
    Stock "NVDA" "Technology";
    Stock "META" "Communication Services";
    Stock "TSLA" "Consumer Cyclical";
    Stock "BRK.B" "Financial Services";
    Stock "V" "Financial Services";
    Stock "JNJ" "Healthcare";
    Stock "WMT" "Consumer Defensive";
    Stock "JPM" "Financial Services";
    Stock "MA" "Financial Services";
    Stock "PG" "Consumer Defensive";
    Stock "UNH" "Healthcare";
    Stock "HD" "Consumer Cyclical";
    Stock "CVX" "Energy";
    Stock "MRK" "Healthcare";
    Stock "ABBV" "Healthcare";
    Stock "KO" "Consumer Defensive";
    Stock "PEP" "Consumer Defensive";
    Stock "AVGO" "Technology";
    Stock "COST" "Consumer Defensive";
    Stock "MCD" "Consumer Cyclical";
    Stock "TMO" "Healthcare";
    Stock "CSCO" "Technology";
    Stock "ACN" "Technology";
    Stock "DHR" "Healthcare";
    Stock "VZ" "Communication Services";
    Stock "ADBE" "Technology";
    Stock "NFLX" "Communication Services";
    Stock "NKE" "Consumer Cyclical";
    Stock "CRM" "Technology";
    Stock "ORCL" "Technology";
    Stock "ABT" "Healthcare";
    Stock "PFE" "Healthcare";
    Stock "INTC" "Technology";
    Stock "DIS" "Communication Services";
    Stock "CMCSA" "Communication Services";
    Stock "AMD" "Technology";
    Stock "T" "Communication Services";
    Stock "COP" "Energy";
    Stock "NEE" "Utilities";
    Stock "UPS" "Industrials";
    Stock "IBM" "Technology";
    Stock "BA" "Industrials";
    Stock "CAT" "Industrials";
    Stock "GE" "Industrials";
    Stock "HON" "Industrials";
    Stock "MMM" "Industrials";
    Stock "DE" "Industrials" ].

(** ** strategies.py *)

(** The client context produced by [ClientFilter.parse_client_context]. *)
Record context : Type := Context {
  budget : Q;
  start_date : string;
  preferred_sectors : list string;
  avoided_sectors : list string;
  preference_strength : Z
}.

(** [{**stock, 'price': p}] *)
Record priced : Type := Priced { base : stock; price : Q }.

(** [{'ticker': t, 'shares': n}] *)
Record investment : Type := Investment { inv_ticker : string; shares : Z }.

Definition in_band (strength : Z) (entry : string * (Z * Z)) : bool :=
  let '(_, (min_val, max_val)) := entry in
  (min_val <=? strength)%Z && (strength <=? max_val)%Z.

Definition select_strategy (ctx : context) : string :=
  match List.find (in_band (preference_strength ctx)) STRATEGY_THRESHOLDS with
  | Some (strategy, _) => strategy
  | None => "diversification"
  end.

(** [shares = int(per / stock['price'])] *)
Definition shares_for (per : Q) (s : priced) : res Z :=
  q ← py_div per (price s); Ret (py_int q).

(** The loop
    [for stock in stocks: shares = int(per / price); if shares > 0: append]. *)
Fixpoint buy_each (per : Q) (stocks : list priced) : res (list investment) :=
  match stocks with
  | [] => Ret []
  | s :: rest =>
      n ← shares_for per s;
      tl ← buy_each per rest;
      Ret (if (0 <? n)%Z then Investment (ticker (base s)) n :: tl else tl)
  end.

(** The list comprehension of [_diversification]: the universe restricted
    to non-avoided sectors and priced tickers. *)
Definition candidates_of (avoided : gset string) (prices : gmap string Q)
    (stocks : list stock) : list priced :=
  omap (λ s,
    match prices !! ticker s with
    | Some p => if bool_decide (sector s ∉ avoided) then Some (Priced s p) else None
    | None => None
    end) stocks.

Definition sector_count (sector_counts : gmap string Z) (s : string) : Z :=
  default 0%Z (sector_counts !! s).

(** The selection loop of [_diversification], with its [break]. *)
Fixpoint select_diverse (target_stocks : nat) (max_per_sector : Z)
    (candidates selected : list priced) (sector_counts : gmap string Z)
    : list priced :=
  match candidates with
  | [] => selected
  | s :: rest =>
      if (target_stocks <=? length selected)%nat then selected
      else
        let sec := sector (base s) in
        if (sector_count sector_counts sec <? max_per_sector)%Z then
          select_diverse target_stocks max_per_sector rest (selected ++ [s])%list
            (<[sec := (sector_count sector_counts sec + 1)%Z]> sector_counts)
        else
          select_diverse target_stocks max_per_sector rest selected sector_counts
  end.

Definition _diversification (ctx : context) (prices : gmap string Q)
    : res (list investment) :=
  let budget := budget ctx in
  let avoided : gset string := list_to_set (avoided_sectors ctx) in
  let safe_budget := (budget * INITIAL_BUDGET_USAGE)%Q in
  let candidates := sort_by price (candidates_of avoided prices STOCKS) in
  let target_stocks :=
    if Qltb budget 100 then 3%nat else if Qltb budget 500 then 5%nat else 7%nat in
  let max_per_sector := Z.max 2 (Z.of_nat target_stocks / 2) in
  let selected := select_diverse target_stocks max_per_sector candidates [] ∅ in
  match selected with
  | [] => Ret []
  | _ =>
      per_stock_budget ← py_div safe_budget (inject_Z (Z.of_nat (length selected)));
      buy_each per_stock_budget selected
  end.

(** The partition loop shared by [_preference_weighted] and
    [_high_conviction]: returns [(preferred_stocks, other_stocks)]. *)
Fixpoint partition_stocks (preferred avoided : gset string)
    (prices : gmap string Q) (stocks : list stock) : list priced * list priced :=
  match stocks with
  | [] => ([], [])
  | s :: rest =>
      let '(preferred_stocks, other_stocks) :=
        partition_stocks preferred avoided prices rest in
      match prices !! ticker s with
      | Some p =>
          if bool_decide (sector s ∈ avoided) then (preferred_stocks, other_stocks)
          else if bool_decide (sector s ∈ preferred)
               then (Priced s p :: preferred_stocks, other_stocks)
               else (preferred_stocks, Priced s p :: other_stocks)
      | None => (preferred_stocks, other_stocks)
      end
  end.

(** The preferred-pool block of both strategies: the [limit] cheapest
    preferred stocks share [preferred_budget] evenly. *)
Definition buy_preferred (limit : nat) (preferred_budget : Q)
    (preferred_stocks : list priced) : res (list investment) :=
  match preferred_stocks with
  | [] => Ret []
  | _ =>
      let target_preferred := Nat.min limit (length preferred_stocks) in
      per_preferred ← py_div preferred_budget (inject_Z (Z.of_nat target_preferred));
      buy_each per_preferred (take target_preferred preferred_stocks)
  end.

(** The other-pool loop of [_preference_weighted]: at most one stock per
    sector, stopping at [target_other] purchases. *)
Fixpoint pick_others (target_other : nat) (per_other : Q)
    (other_stocks : list priced) (other_selected : list investment)
    (sector_counts : gmap string Z) : res (list investment) :=
  match other_stocks with
  | [] => Ret other_selected
  | s :: rest =>
      if (target_other <=? length other_selected)%nat then Ret other_selected
      else
        let sec := sector (base s) in
        if (sector_count sector_counts sec <? 1)%Z then
          n ← shares_for per_other s;
          if (0 <? n)%Z then
            pick_others target_other per_other rest
              (other_selected ++ [Investment (ticker (base s)) n])%list
              (<[sec := 1%Z]> sector_counts)
          else pick_others target_other per_other rest other_selected sector_counts
        else pick_others target_other per_other rest other_selected sector_counts
  end.

(** The other-pool block of [_preference_weighted]. *)
Definition buy_others (other_budget : Q) (other_stocks : list priced)
    : res (list investment) :=
  match other_stocks with
  | [] => Ret []
  | _ =>
      let target_other := Nat.min 3 (length other_stocks) in
      per_other ← py_div other_budget (inject_Z (Z.of_nat target_other));
      pick_others target_other per_other other_stocks [] ∅
  end.

Definition _preference_weighted (ctx : context) (prices : gmap string Q)
    : res (list investment) :=
  let budget := budget ctx in
  let preferred : gset string := list_to_set (preferred_sectors ctx) in
  let avoided : gset string := list_to_set (avoided_sectors ctx) in
  let preferred_budget := (budget * 0.60)%Q in
  let other_budget := (budget * 0.36)%Q in
  let '(preferred_stocks, other_stocks) :=
    partition_stocks preferred avoided prices STOCKS in
  let preferred_stocks := sort_by price preferred_stocks in
  let other_stocks := sort_by price other_stocks in
  preferred_selected ← buy_preferred 3 preferred_budget preferred_stocks;
  other_selected ← buy_others other_budget other_stocks;
  Ret (preferred_selected ++ other_selected)%list.

(** The other-pool block of [_high_conviction]: the cheapest other stock. *)
Definition buy_cheapest_other (other_budget : Q) (other_stocks : list priced)
    : res (list investment) :=
  match other_stocks with
  | [] => Ret []
  | s :: _ =>
      if Qltb 0 other_budget then
        n ← shares_for other_budget s;
        Ret (if (0 <? n)%Z then [Investment (ticker (base s)) n] else [])
      else Ret []
  end.

Definition _high_conviction (ctx : context) (prices : gmap string Q)
    : res (list investment) :=
  let budget := budget ctx in
  let preferred : gset string := list_to_set (preferred_sectors ctx) in
  let avoided : gset string := list_to_set (avoided_sectors ctx) in
  let preferred_budget := (budget * 0.80)%Q in
  let other_budget := (budget * 0.16)%Q in
  let '(preferred_stocks, other_stocks) :=
    partition_stocks preferred avoided prices STOCKS in
  let preferred_stocks := sort_by price preferred_stocks in
  let other_stocks := sort_by price other_stocks in
  preferred_selected ← buy_preferred 4 preferred_budget preferred_stocks;
  other_selected ← buy_cheapest_other other_budget other_stocks;
  Ret (preferred_selected ++ other_selected)%list.

Definition build_portfolio (strategy : string) (ctx : context)
    (prices : gmap string Q) : res (list investment) :=
  if String.eqb strategy "diversification" then _diversification ctx prices
  else if String.eqb strategy "preference_weighted" then _preference_weighted ctx prices
  else if String.eqb strategy "high_conviction" then _high_conviction ctx prices
  else _diversification ctx prices.

(** ** portfolio_validator.py *)

(** [sum(inv['shares'] * prices[inv['ticker']] for inv in portfolio)],
    accumulated from the left as [sum] does. *)
Fixpoint cost_from (prices : gmap string Q) (acc : Q)
    (portfolio : list investment) : res Q :=
  match portfolio with
  | [] => Ret acc
  | inv :: rest =>
      p ← getitem prices (inv_ticker inv);
      cost_from prices (acc + inject_Z (shares inv) * p)%Q rest
  end.

Definition portfolio_cost (portfolio : list investment)
    (prices : gmap string Q) : res Q :=
  cost_from prices 0%Q portfolio.

(** [validate_portfolio] decides by comparing floats, so it is modelled on
    binary64 numbers: the budget, the prices and the running total are
    primitive [float]s, and [*], [+], [/], [>] and [<] are the IEEE 754
    operations that Python applies to them. *)

(** [n * x] with [n] an [int] and [x] a float first converts [n]: the
    nearest double, ties to even, and [OverflowError] when that would be
    infinite. *)
Definition nearest_float (n : Z) : float :=
  SF2Prim (binary_normalize prec emax n 0 false).

Definition float_of_int (n : Z) : res float :=
  if (2 ^ 1024 - 2 ^ 970 <=? Z.abs n)%Z then Raise OverflowError
  else Ret (nearest_float n).

(** [a / b] on floats: a zero divisor, of either sign, raises. *)
Definition float_div (a b : float) : res float :=
  if PrimFloat.eqb b 0 then Raise ZeroDivisionError else Ret (a / b)%float.

(** The second component of the pair returned by [validate_portfolio];
    the formatted text is kept as its parts. *)
Inductive message : Type :=
  | Portfolio_is_empty
  | Missing_price (ticker : string)
  | Invalid_share_count (ticker : string) (shares : Z)
  | Budget_breach (total_cost budget : float)
  | Low_budget_usage (usage_pct : float)
  | Valid_portfolio (total_cost usage_pct : float).

(** The checking loop: [inl] is an early [return (False, ...)], [inr] the
    final [total_cost]. *)
Fixpoint check_positions (prices : gmap string float) (total_cost : float)
    (portfolio : list investment) : res (message + float) :=
  match portfolio with
  | [] => Ret (inr total_cost)
  | inv :: rest =>
      match prices !! inv_ticker inv with
      | None => Ret (inl (Missing_price (inv_ticker inv)))
      | Some p =>
          if (shares inv <=? 0)%Z
          then Ret (inl (Invalid_share_count (inv_ticker inv) (shares inv)))
          else
            n ← float_of_int (shares inv);
            check_positions prices (total_cost + n * p)%float rest
      end
  end.

Definition validate_portfolio (portfolio : list investment) (budget : float)
    (prices : gmap string float) : res (bool * message) :=
  match portfolio with
  | [] => Ret (false, Portfolio_is_empty)
  | _ =>
      checked ← check_positions prices 0%float portfolio;
      match checked with
      | inl msg => Ret (false, msg)
      | inr total_cost =>
          if (budget * 1.01 <? total_cost)%float
          then Ret (false, Budget_breach total_cost budget)
          else
            ratio ← float_div total_cost budget;
            let usage_pct := (ratio * 100)%float in
            if (usage_pct <? 85)%float
            then Ret (true, Low_budget_usage usage_pct)
            else Ret (true, Valid_portfolio total_cost usage_pct)
      end
  end.

(** The inner search loop of [optimize_budget_usage]: the first position
    with this ticker gets the extra shares; [None] when the loop ends
    without a match. *)
Fixpoint add_shares (t : string) (additional_shares : Z)
    (optimized : list investment) : option (list investment) :=
  match optimized with
  | [] => None
  | opt_inv :: rest =>
      if String.eqb (inv_ticker opt_inv) t
      then Some (Investment (inv_ticker opt_inv)
                   (shares opt_inv + additional_shares) :: rest)
      else cons opt_inv <$> add_shares t additional_shares rest
  end.

(** [min(prices.values())] *)
Definition min_price (prices : gmap string Q) : res Q :=
  match (map_to_list prices).*2 with
  | [] => Raise ValueError
  | p :: ps => Ret (foldl (λ m x, if Qltb x m then x else m) p ps)
  end.

(** The top-up loop over [sorted_portfolio]. *)
Fixpoint top_up (prices : gmap string Q) (sorted_portfolio : list investment)
    (optimized : list investment) (remaining : Q) : res (list investment) :=
  match sorted_portfolio with
  | [] => Ret optimized
  | inv :: rest =>
      let t := inv_ticker inv in
      p ← getitem prices t;
      q ← py_div remaining p;
      let additional_shares := py_int q in
      let '(optimized, remaining) :=
        if (0 <? additional_shares)%Z then
          match add_shares t additional_shares optimized with
          | Some optimized' =>
              (optimized', (remaining - inject_Z additional_shares * p)%Q)
          | None => (optimized, remaining)
          end
        else (optimized, remaining) in
      lowest ← min_price prices;
      if Qltb remaining lowest then Ret optimized
      else top_up prices rest optimized remaining
  end.

Definition optimize_budget_usage (portfolio : list investment) (budget : Q)
    (prices : gmap string Q) : res (list investment) :=
  match portfolio with
  | [] => Ret portfolio
  | _ =>
      current_cost ← portfolio_cost portfolio prices;
      let remaining := (budget * TARGET_BUDGET_USAGE - current_cost)%Q in
      if Qltb remaining 0 then Ret portfolio
      else
        let sorted_portfolio :=
          sort_by (λ x, default 0%Q (prices !! inv_ticker x)) portfolio in
        top_up prices sorted_portfolio portfolio remaining
  end.

(** ** cache_manager.py *)

(** A [datetime] is a number of microseconds; [total_seconds] of a
    difference is that number over a million. *)
Definition total_seconds (delta : Z) : Q := (inject_Z delta / 1000000)%Q.

(** [{'price': p, 'timestamp': t}] *)
Record quote : Type := Quote { quote_price : Q; timestamp : Z }.

Record CacheManager : Type := mkCache {
  current_price_cache : gmap string quote;
  historical_price_cache : gmap (string * string) Q;
  cache_hits : nat;
  cache_misses : nat
}.

(** What [CACHE_FILE] holds once parsed: the ['historical'] object and the
    ['last_updated'] stamp. *)
Record cache_file : Type := CacheFile {
  historical : gmap string Q;
  last_updated : Z
}.

(** Durable storage: the cache file, absent before the first save, and the
    number of times it has been written. *)
Record storage : Type := Storage {
  file : option cache_file;
  writes : nat
}.

(** [str.split(sep)] for a one-character separator. *)
Fixpoint str_split (sep : ascii) (s : string) : list string :=
  match s with
  | EmptyString => [EmptyString]
  | String c rest =>
      if Ascii.eqb c sep then EmptyString :: str_split sep rest
      else
        match str_split sep rest with
        | [] => [String c EmptyString]
        | hd :: tl => String c hd :: tl
        end
  end.

Definition separator : ascii := "|"%char.

(** [f"{ticker}|{date}"] *)
Definition key_str (ticker date : string) : string :=
  (ticker ++ String separator date)%string.

(** The loading loop: [ticker, date = key_str.split('|')] raises
    [ValueError] unless there are exactly two parts; the [except] clause
    then ends the load, keeping what was read so far. *)
Fixpoint load_items (items : list (string * Q))
    (cache : gmap (string * string) Q) : gmap (string * string) Q :=
  match items with
  | [] => cache
  | (k, p) :: rest =>
      match str_split separator k with
      | [ticker; date] => load_items rest (<[(ticker, date) := p]> cache)
      | _ => cache
      end
  end.

Definition load_from_file (self : CacheManager) (disk : storage) : CacheManager :=
  match file disk with
  | None => self
  | Some data =>
      mkCache (current_price_cache self)
        (load_items (map_to_list (historical data)) (historical_price_cache self))
        (cache_hits self) (cache_misses self)
  end.

(** [CacheManager.__init__] *)
Definition new_cache (disk : storage) : CacheManager :=
  load_from_file (mkCache ∅ ∅ 0 0) disk.

(** The dict comprehension of [save_to_file]. *)
Definition historical_dict (cache : gmap (string * string) Q) : gmap string Q :=
  foldl (λ acc '((ticker, date), p), <[key_str ticker date := p]> acc) ∅
    (map_to_list cache).

Definition save_to_file (now : Z) (self : CacheManager) (disk : storage) : storage :=
  Storage
    (Some (CacheFile (historical_dict (historical_price_cache self)) now))
    (S (writes disk)).

Definition get_current_price (now : Z) (t : string) (self : CacheManager)
    : option Q * CacheManager :=
  let miss :=
    (None, mkCache (current_price_cache self) (historical_price_cache self)
             (cache_hits self) (S (cache_misses self))) in
  match current_price_cache self !! t with
  | Some cached =>
      let age := total_seconds (now - timestamp cached) in
      if Qltb age CACHE_TTL then
        (Some (quote_price cached),
         mkCache (current_price_cache self) (historical_price_cache self)
           (S (cache_hits self)) (cache_misses self))
      else miss
  | None => miss
  end.

Definition set_current_price (now : Z) (t : string) (p : Q)
    (self : CacheManager) : CacheManager :=
  mkCache (<[t := Quote p now]> (current_price_cache self))
    (historical_price_cache self) (cache_hits self) (cache_misses self).

Definition get_historical_price (t date : string) (self : CacheManager)
    : option Q * CacheManager :=
  match historical_price_cache self !! (t, date) with
  | Some p =>
      (Some p,
       mkCache (current_price_cache self) (historical_price_cache self)
         (S (cache_hits self)) (cache_misses self))
  | None =>
      (None,
       mkCache (current_price_cache self) (historical_price_cache self)
         (cache_hits self) (S (cache_misses self)))
  end.

Definition set_historical_price (now : Z) (t date : string) (p : Q)
    (self : CacheManager) (disk : storage) : CacheManager * storage :=
  let self' :=
    mkCache (current_price_cache self)
      (<[(t, date) := p]> (historical_price_cache self))
      (cache_hits self) (cache_misses self) in
  if (size (historical_price_cache self') mod 10 =? 0)%nat
  then (self', save_to_file now self' disk)
  else (self', disk).

(** ** api_client.py *)

(** What a call to [requests] does: it returns the decoded body, or raises
    [requests.exceptions.Timeout], [requests.exceptions.ConnectionError],
    or any other exception (an HTTP error status, an undecodable body). *)
Inductive outcome (A : Type) : Type :=
  | Ok (a : A)
  | Timeout
  | ConnectionError
  | OtherError.
Arguments Ok {A} a.
Arguments Timeout {A}.
Arguments ConnectionError {A}.
Arguments OtherError {A}.

(** The requests sent to the market-data service. *)
Inductive request : Type :=
  | Quotes (tickers : list string)
  | History (t : string) (start stop : Z).

(** An element of the quotes reply: [item.get('ticker')], [item.get('last')]. *)
Record quote_item : Type := QuoteItem {
  item_ticker : option string;
  item_last : option Q
}.

(** An element of the history reply: its ['open'] field, when present. *)
Record bar : Type := Bar { bar_open : option Q }.

Record api_stats : Type := Stats {
  total_calls : nat;
  retries : nat;
  failures : nat
}.

(** The client ([cache], [stats]) together with what it acts on: the cache
    file, the clock, the time spent in [time.sleep] and the requests sent. *)
Record world : Type := World {
  cache : CacheManager;
  stats : api_stats;
  disk : storage;
  clock : Z;
  slept : list Z;
  sent : list request
}.

Definition with_cache (c : CacheManager) (w : world) : world :=
  World c (stats w) (disk w) (clock w) (slept w) (sent w).

Definition with_stats (s : api_stats) (w : world) : world :=
  World (cache w) s (disk w) (clock w) (slept w) (sent w).

Definition count_call (w : world) : world :=
  with_stats (Stats (S (total_calls (stats w))) (retries (stats w))
                (failures (stats w))) w.

Definition count_retry (w : world) : world :=
  with_stats (Stats (total_calls (stats w)) (S (retries (stats w)))
                (failures (stats w))) w.

Definition count_failure (w : world) : world :=
  with_stats (Stats (total_calls (stats w)) (retries (stats w))
                (S (failures (stats w)))) w.

(** [time.sleep(wait)] *)
Definition sleep (wait : Z) (w : world) : world :=
  World (cache w) (stats w) (disk w) (clock w + wait * 1000000)%Z
    (slept w ++ [wait])%list (sent w).

(** The body of [for attempt in range(MAX_RETRIES)]. *)
Fixpoint retry_loop {A : Type} (func : world → outcome A * world)
    (attempts : list nat) (w : world) : option A * world :=
  match attempts with
  | [] => (None, w)
  | attempt :: rest =>
      let '(r, w) := func (count_call w) in
      match r with
      | Ok a => (Some a, w)
      | Timeout | ConnectionError =>
          if (attempt <? MAX_RETRIES - 1)%nat then
            let wait := (RETRY_BASE_DELAY * 2 ^ Z.of_nat attempt)%Z in
            retry_loop func rest (sleep wait (count_retry w))
          else (None, count_failure w)
      | OtherError => (None, count_failure w)
      end
  end.

Definition _api_call_with_retry {A : Type} (func : world → outcome A * world)
    (w : world) : option A * world :=
  retry_loop func (seq 0 MAX_RETRIES) w.

Section Client.

(** The market-data service: the reply to the [n]-th request sent. *)
Variable quotes_api : nat → list string → outcome (list quote_item).
Variable history_api : nat → string → Z → Z → outcome (list bar).

(** [datetime.strptime(date_str, '%Y-%m-%d')] followed by the two
    [timestamp()] calls: [None] when the date does not parse. *)
Variable day_bounds : string → option (Z * Z).

(** The order in which the worker pool completes the submitted tasks. *)
Variable schedule : list string → list string.

(** The closure [_fetch] of [get_current_prices]. *)
Definition fetch_quotes (need_fetch : list string) (w : world)
    : outcome (list quote_item) * world :=
  (quotes_api (length (sent w)) need_fetch,
   World (cache w) (stats w) (disk w) (clock w) (slept w)
     (sent w ++ [Quotes need_fetch])%list).

(** The closure [_fetch] of [get_historical_price]. *)
Definition fetch_history (t : string) (start stop : Z) (w : world)
    : outcome (list bar) * world :=
  (history_api (length (sent w)) t start stop,
   World (cache w) (stats w) (disk w) (clock w) (slept w)
     (sent w ++ [History t start stop])%list).

(** The cache-check loop of [get_current_prices]. *)
Fixpoint check_current (tickers : list string) (prices : gmap string Q)
    (need_fetch : list string) (w : world)
    : gmap string Q * list string * world :=
  match tickers with
  | [] => (prices, need_fetch, w)
  | t :: rest =>
      let '(cached_price, c) := get_current_price (clock w) t (cache w) in
      let w := with_cache c w in
      match cached_price with
      | Some p => check_current rest (<[t := p]> prices) need_fetch w
      | None => check_current rest prices (need_fetch ++ [t])%list w
      end
  end.

(** The loop over the items of the quotes reply. *)
Fixpoint store_quotes (data : list quote_item) (prices : gmap string Q)
    (w : world) : gmap string Q * world :=
  match data with
  | [] => (prices, w)
  | item :: rest =>
      match item_ticker item, item_last item with
      | Some t, Some p =>
          if negb (String.eqb t EmptyString) && negb (Qeq_bool p 0) then
            store_quotes rest (<[t := p]> prices)
              (with_cache (set_current_price (clock w) t p (cache w)) w)
          else store_quotes rest prices w
      | _, _ => store_quotes rest prices w
      end
  end.

Definition get_current_prices (tickers : list string) (w : world)
    : gmap string Q * world :=
  let '(prices, need_fetch, w) := check_current tickers ∅ [] w in
  match need_fetch with
  | [] => (prices, w)
  | _ =>
      let '(data, w) := _api_call_with_retry (fetch_quotes need_fetch) w in
      match data with
      | Some (item :: items) => store_quotes (item :: items) prices w
      | _ => (prices, w)
      end
  end.

(** [APIClient.get_historical_price]; every exception raised inside its
    [try] block ends in [return None]. *)
Definition fetch_historical_price (t date_str : string) (w : world)
    : option Q * world :=
  let '(cached_price, c) := get_historical_price t date_str (cache w) in
  let w := with_cache c w in
  match cached_price with
  | Some p => (Some p, w)
  | None =>
      match day_bounds date_str with
      | None => (None, w)
      | Some (start, stop) =>
          let '(data, w) := _api_call_with_retry (fetch_history t start stop) w in
          match data with
          | Some (first :: _) =>
              match bar_open first with
              | Some p =>
                  let '(c, d) :=
                    set_historical_price (clock w) t date_str p (cache w) (disk w) in
                  (Some p, World c (stats w) d (clock w) (slept w) (sent w))
              | None => (None, w)
              end
          | _ => (None, w)
          end
      end
  end.

(** The cache-check loop of [get_historical_prices_concurrent]. *)
Fixpoint check_historical (tickers : list string) (date_str : string)
    (prices : gmap string Q) (need_fetch : list string) (w : world)
    : gmap string Q * list string * world :=
  match tickers with
  | [] => (prices, need_fetch, w)
  | t :: rest =>
      let '(cached_price, c) := get_historical_price t date_str (cache w) in
      let w := with_cache c w in
      match cached_price with
      | Some p => check_historical rest date_str (<[t := p]> prices) need_fetch w
      | None => check_historical rest date_str prices (need_fetch ++ [t])%list w
      end
  end.

(** The submitted tasks, run one after the other in completion order,
    each result merged as it completes. *)
Fixpoint run_tasks (order : list string) (date_str : string)
    (prices : gmap string Q) (w : world) : gmap string Q * world :=
  match order with
  | [] => (prices, w)
  | t :: rest =>
      let '(r, w) := fetch_historical_price t date_str w in
      match r with
      | Some p => run_tasks rest date_str (<[t := p]> prices) w
      | None => run_tasks rest date_str prices w
      end
  end.

Definition get_historical_prices_concurrent (tickers : list string)
    (date_str : string) (w : world) : gmap string Q * world :=
  let '(prices, need_fetch, w) := check_historical tickers date_str ∅ [] w in
  match need_fetch with
  | [] => (prices, w)
  | _ => run_tasks (schedule need_fetch) date_str prices w
  end.

End Client.

(** ** api_client.py: statistics *)

(** [APIClient._calculate_success_rate] *)
Definition _calculate_success_rate (s : api_stats) : res Q :=
  if (total_calls s =? 0)%nat then Ret 100%Q
  else
    ratio ← py_div (inject_Z (Z.of_nat (total_calls s) - Z.of_nat (failures s)))
               (inject_Z (Z.of_nat (total_calls s)));
    Ret (ratio * 100)%Q.

(** ** cache_manager.py: hit rate and expiry *)

(** [CacheManager.get_cache_hit_rate] *)
Definition get_cache_hit_rate (self : CacheManager) : res Q :=
  let total := (cache_hits self + cache_misses self)%nat in
  if (total =? 0)%nat then Ret 0%Q
  else
    ratio ← py_div (inject_Z (Z.of_nat (cache_hits self)))
               (inject_Z (Z.of_nat total));
    Ret (ratio * 100)%Q.

(** The list comprehension of [clear_current_cache]: the tickers whose
    entry has reached [CACHE_TTL]. *)
Definition expired (now : Z) (items : list (string * quote)) : list string :=
  omap (λ item,
    if Qle_bool CACHE_TTL (total_seconds (now - timestamp item.2))
    then Some item.1 else None) items.

(** [for ticker in expired: del self.current_price_cache[ticker]];
    [del] raises [KeyError] on an absent key. *)
Fixpoint delete_each (tickers : list string) (m : gmap string quote)
    : res (gmap string quote) :=
  match tickers with
  | [] => Ret m
  | t :: rest =>
      match m !! t with
      | Some _ => delete_each rest (delete t m)
      | None => Raise (KeyError t)
      end
  end.

Definition clear_current_cache (now : Z) (self : CacheManager) : res CacheManager :=
  let expired := expired now (map_to_list (current_price_cache self)) in
  m ← delete_each expired (current_price_cache self);
  Ret (mkCache m (historical_price_cache self) (cache_hits self) (cache_misses self)).

(** ** api_client.py: pre-warming *)


(** ** client_filter.py *)

(** [ClientFilter._calculate_preference_strength] *)
Definition _calculate_preference_strength (num_preferred num_avoided : Z) : Z :=
  let strength :=
    if (num_preferred =? 1)%Z then 80%Z
    else if (num_preferred =? 2)%Z then 60%Z
    else if (3 <=? num_preferred)%Z then 40%Z
    else 0%Z in
  let strength :=
    if (0 <? num_avoided)%Z then (strength + 20)%Z else strength in
  Z.min strength 100.

(** The end of [parse_client_context]: the context assembled from the
    parsed budget and date and the detected sectors. *)
Definition client_context (budget : Q) (start_date : string)
    (preferred_sectors avoided_sectors : list string) : context :=
  let strength :=
    _calculate_preference_strength (Z.of_nat (length preferred_sectors))
      (Z.of_nat (length avoided_sectors)) in
  Context budget start_date preferred_sectors avoided_sectors strength.

(** ** performance_tracker.py *)

(** The [stats] dictionary of a [PerformanceTracker]. *)
Record PerformanceTracker : Type := mkTracker {
  clients_processed : nat;
  clients_skipped : nat;
  skip_reasons : gmap string nat;
  strategy_usage : gmap string nat;
  solutions_accepted : nat;
  solutions_rejected : nat;
  processing_times : list Q;
  start_time : Z
}.

(** [PerformanceTracker.__init__], at time [now]. *)
Definition new_tracker (now : Z) : PerformanceTracker :=
  mkTracker 0 0 ∅
    (<["diversification" := 0%nat]>
       (<["preference_weighted" := 0%nat]> {["high_conviction" := 0%nat]}))
    0 0 [] now.

(** [d[k] += 1] on a dictionary of counters. *)
Definition increment (d : gmap string nat) (k : string) : res (gmap string nat) :=
  match d !! k with
  | Some n => Ret (<[k := S n]> d)
  | None => Raise (KeyError k)
  end.

Definition record_skip (reason : string) (self : PerformanceTracker)
    : res PerformanceTracker :=
  let reasons :=
    if bool_decide (skip_reasons self !! reason = None)
    then <[reason := 0%nat]> (skip_reasons self)
    else skip_reasons self in
  reasons ← increment reasons reason;
  Ret (mkTracker (clients_processed self) (S (clients_skipped self)) reasons
         (strategy_usage self) (solutions_accepted self)
         (solutions_rejected self) (processing_times self) (start_time self)).

Definition record_processed (strategy : string) (self : PerformanceTracker)
    : res PerformanceTracker :=
  usage ←
    (if bool_decide (is_Some (strategy_usage self !! strategy))
     then increment (strategy_usage self) strategy
     else Ret (strategy_usage self));
  Ret (mkTracker (S (clients_processed self)) (clients_skipped self)
         (skip_reasons self) usage (solutions_accepted self)
         (solutions_rejected self) (processing_times self) (start_time self)).

Definition record_solution (accepted : bool) (self : PerformanceTracker)
    : PerformanceTracker :=
  if accepted then
    mkTracker (clients_processed self) (clients_skipped self)
      (skip_reasons self) (strategy_usage self) (S (solutions_accepted self))
      (solutions_rejected self) (processing_times self) (start_time self)
  else
    mkTracker (clients_processed self) (clients_skipped self)
      (skip_reasons self) (strategy_usage self) (solutions_accepted self)
      (S (solutions_rejected self)) (processing_times self) (start_time self).

Definition record_processing_time (seconds : Q) (self : PerformanceTracker)
    : PerformanceTracker :=
  mkTracker (clients_processed self) (clients_skipped self)
    (skip_reasons self) (strategy_usage self) (solutions_accepted self)
    (solutions_rejected self) (processing_times self ++ [seconds])
    (start_time self).

(** ** batch_processor.py *)

(** [date_groups]: a [defaultdict(list)], its items in insertion order. *)
Definition date_groups : Type := list (string * list string).

(** [self.date_groups[date]]: the list stored under [date]; a date that is
    missing is first registered with an empty list, as [defaultdict]
    does. *)
Fixpoint group_of (date : string) (groups : date_groups)
    : list string * date_groups :=
  match groups with
  | [] => ([], [(date, [])])
  | (d, clients) :: rest =>
      if String.eqb d date then (clients, groups)
      else
        let '(found, rest) := group_of date rest in
        (found, (d, clients) :: rest)
  end.

(** [.append(client_id)] on the list stored under [date]. *)
Fixpoint append_to (date client_id : string) (groups : date_groups)
    : date_groups :=
  match groups with
  | [] => []
  | (d, clients) :: rest =>
      if String.eqb d date then (d, clients ++ [client_id]) :: rest
      else (d, clients) :: append_to date client_id rest
  end.

Definition add_client (client_id date : string) (groups : date_groups)
    : date_groups :=
  let '(_, groups) := group_of date groups in
  append_to date client_id groups.

Definition get_dates (groups : date_groups) : list string := groups.*1.

Definition get_clients_for_date (date : string) (groups : date_groups)
    : list string * date_groups :=
  group_of date groups.

(** The dictionary returned by [BatchProcessor.get_stats]; the
    distribution is built in date order, which a dictionary compared by
    its items does not show. *)
Record batch_stats : Type := BatchStats {
  unique_dates : nat;
  total_clients : nat;
  avg_clients_per_date : Q;
  date_distribution : gmap string nat
}.

Definition get_stats (groups : date_groups) : res batch_stats :=
  let total_clients := foldr Nat.add 0%nat (length <$> groups.*2) in
  avg ←
    match groups with
    | [] => Ret 0%Q
    | _ =>
        py_div (inject_Z (Z.of_nat total_clients))
          (inject_Z (Z.of_nat (length groups)))
    end;
  Ret (BatchStats (length groups) total_clients avg
         (list_to_map ((λ g, (g.1, length g.2)) <$> groups))).

(** * Vocabulary of the statements *)

(** The cost as a plain sum, a missing price counting for nothing. *)
Definition position_value (prices : gmap string Q) (inv : investment) : Q :=
  (inject_Z (shares inv) * default 0 (prices !! inv_ticker inv))%Q.

Fixpoint value (prices : gmap string Q) (portfolio : list investment) : Q :=
  match portfolio with
  | [] => 0
  | inv :: rest => (position_value prices inv + value prices rest)%Q
  end.

Definition has_price (prices : gmap string Q) (inv : investment) : Prop :=
  is_Some (prices !! inv_ticker inv).

(** [b] has the tickers of [a], in the same order, with at least as many
    shares in each position. *)
Definition grows (a b : list investment) : Prop :=
  Forall2 (λ x y, inv_ticker x = inv_ticker y ∧ (shares x <= shares y)%Z) a b.

Definition nonzero_price (prices : gmap string Q) (inv : investment) : Prop :=
  ∃ p, prices !! inv_ticker inv = Some p ∧ ¬ (p == 0)%Q.

Definition pticker (s : priced) : string := ticker (base s).

(** Every stock of the pool carries the price the map gives its ticker. *)
Definition well_priced (prices : gmap string Q) (pool : list priced) : Prop :=
  Forall (λ s, prices !! pticker s = Some (price s)) pool.

(** A position bought with at most [per]: a positive share count whose
    cost at the map's price is within [per]. *)
Definition affordable (prices : gmap string Q) (per : Q) (inv : investment) : Prop :=
  (0 < shares inv)%Z
  ∧ ∃ p, prices !! inv_ticker inv = Some p ∧ (inject_Z (shares inv) * p <= per)%Q.

(** What every block of the three strategies produces from its pool and
    its share [pot] of the budget. *)
Definition bought (prices : gmap string Q) (pot : Q) (pool : list priced)
    (alloc : list investment) : Prop :=
  inv_ticker <$> alloc ⊆+ pticker <$> pool
  ∧ Forall (λ inv, (0 < shares inv)%Z) alloc
  ∧ Forall (has_price prices) alloc
  ∧ (value prices alloc <= pot)%Q.

(** The invariant of an allocation: distinct tickers, positive share
    counts, and a cost within [limit]. *)
Definition allocation_ok (prices : gmap string Q) (limit : Q)
    (alloc : list investment) : Prop :=
  NoDup (inv_ticker <$> alloc)
  ∧ Forall (λ inv, (0 < shares inv)%Z) alloc
  ∧ ∃ c, portfolio_cost alloc prices = Ret c ∧ (c <= limit)%Q.

Definition nonzero_prices (prices : gmap string Q) : Prop :=
  ∀ t p, prices !! t = Some p → ¬ (p == 0)%Q.

(** The scenario of the specification: AAPL at 100, WMT at 50, a budget of
    300 and a strong preference for Technology. *)
Definition scenario_prices : gmap string Q :=
  <["AAPL" := 100%Q]> {["WMT" := 50%Q]}.

Definition scenario_context : context :=
  Context 300 "2024-01-02" ["Technology"] [] 80.

(** A historical region holding ten entries. *)
Definition ten_entries : gmap (string * string) Q :=
  list_to_map ((λ s, ((ticker s, "2024-01-02"), 1%Q)) <$> take 10 STOCKS).

(** Does the character occur in the string? *)
Fixpoint occurs (c : ascii) (s : string) : bool :=
  match s with
  | EmptyString => false
  | String c' rest => Ascii.eqb c' c || occurs c rest
  end.

(** A key whose ticker and date are free of the separator. *)
Definition clean_key (k : string * string) : Prop :=
  occurs separator k.1 = false ∧ occurs separator k.2 = false.

Definition encode_item (item : string * string * Q) : string * Q :=
  (key_str item.1.1 item.1.2, item.2).

Definition decode_key (k : string) : string * string :=
  match str_split separator k with
  | [t; date] => (t, date)
  | _ => (EmptyString, EmptyString)
  end.

Definition decode_item (item : string * Q) : string * string * Q :=
  (decode_key item.1, item.2).

Definition transient {A} (r : outcome A) : Prop :=
  r = Timeout ∨ r = ConnectionError.

(** An operation that leaves the client's counters and the sleep log alone. *)
Definition keeps_accounts {A} (func : world → outcome A * world) : Prop :=
  ∀ w, stats (func w).2 = stats w ∧ slept (func w).2 = slept w.

(** An operation that sends the one request [req] and touches nothing else. *)
Definition sends {A} (req : request) (func : world → outcome A * world) : Prop :=
  ∀ w, (func w).2
       = World (cache w) (stats w) (disk w) (clock w) (slept w) (sent w ++ [req]).



(** What one guarded call of [func], which sends [req], does to the world
    [w], given [bound] attempts: the request goes out between one and
    [bound] times, once if no attempt fails transiently; the cache and the
    disk are untouched; the call yields [None] if no attempt succeeds, and
    what it yields otherwise is what some attempt returned. *)
Definition guarded_effect {A : Type} (req : request)
    (func : world → outcome A * world) (w : world) (bound : nat)
    (x : option A * world) : Prop :=
  ∃ n, sent x.2 = sent w ++ replicate n req
    ∧ (1 <= n <= bound)%nat
    ∧ cache x.2 = cache w
    ∧ disk x.2 = disk w
    ∧ ((∀ w', ¬ transient (func w').1) → n = 1%nat)
    ∧ ((∀ w' a, (func w').1 ≠ Ok a) → x.1 = None)
    ∧ (∀ a, x.1 = Some a → ∃ w', (func w').1 = Ok a).




(** Is [(t, date)] absent from the historical region? *)
Definition missing (c : CacheManager) (date t : string) : bool :=
  bool_decide (historical_price_cache c !! (t, date) = None).

(** The price [get_current_price] answers with, as a function of the
    clock and the current region alone. *)
Definition fresh_price (now : Z) (m : gmap string quote) (t : string) : option Q :=
  match m !! t with
  | Some cached =>
      if Qltb (total_seconds (now - timestamp cached)) CACHE_TTL
      then Some (quote_price cached) else None
  | None => None
  end.

(** Is [t] a cache miss for current prices? *)
Definition stale (now : Z) (m : gmap string quote) (t : string) : bool :=
  bool_decide (fresh_price now m t = None).

(** A quotes service that prices every requested ticker at 1, and a
    history service that opens every day at 7. *)
Definition quotes_at_one (n : nat) (need : list string) : outcome (list quote_item) :=
  Ok ((λ t, QuoteItem (Some t) (Some 1%Q)) <$> need).

Definition history_at_seven (n : nat) (t : string) (start stop : Z)
    : outcome (list bar) :=
  Ok [Bar (Some 7%Q)].

(** Twenty tickers, the first five of them cached a moment ago. *)
Definition twenty_tickers : list string := ticker <$> take 20 STOCKS.

Definition five_cached : world :=
  World
    (mkCache (list_to_map ((λ s, (ticker s, Quote 1 0)) <$> take 5 STOCKS))
       (list_to_map ((λ s, ((ticker s, "2024-01-02"), 7%Q)) <$> take 5 STOCKS))
       0 0)
    (Stats 0 0 0) (Storage None 0) 0 [] [].

(** The rational number a finite float stands for. *)
Definition exact (x : float) : Q :=
  match Prim2SF x with
  | S754_finite s m e =>
      let v := (inject_Z (Zpos m) * 2 ^ e)%Q in
      if s then (- v)%Q else v
  | _ => 0%Q
  end.

(** The total [validate_portfolio] compares with the budget: the sum of
    [shares * price] taken position by position, from the left, each
    product and each sum rounded to binary64; [None] when a price is
    missing. *)
Fixpoint computed_cost (prices : gmap string float) (acc : float)
    (portfolio : list investment) : option float :=
  match portfolio with
  | [] => Some acc
  | inv :: rest =>
      match prices !! inv_ticker inv with
      | Some p =>
          computed_cost prices (acc + nearest_float (shares inv) * p)%float rest
      | None => None
      end
  end.

(** A share count that converts to a float, as every [int(x)] of a float
    does. *)
Definition convertible (inv : investment) : Prop :=
  (Z.abs (shares inv) < 2 ^ 1024 - 2 ^ 970)%Z.

(** The priced, non-avoided part of the universe a strategy draws from. *)
Notation pool_of ctx prices :=
  (candidates_of (list_to_set (avoided_sectors ctx)) prices STOCKS)
  (only parsing).

(** The sector the universe gives a ticker. *)
Definition sector_of (t : string) : option string :=
  sector <$> List.find (λ s, String.eqb (ticker s) t) STOCKS.

(** The number of positions of an allocation in a sector. *)
Definition positions_in (sec : string) (alloc : list investment) : nat :=
  length (filter (λ inv, sector_of (inv_ticker inv) = Some sec) alloc).

(** The number of stocks of a selection in a sector. *)
Definition selected_in (sec : string) (selected : list priced) : nat :=
  length (filter (λ s, sector (base s) = sec) selected).

(** [target_stocks] and [max_per_sector] of [_diversification]. *)
Definition target_stocks_for (budget : Q) : nat :=
  if Qltb budget 100 then 3%nat else if Qltb budget 500 then 5%nat else 7%nat.

Definition max_per_sector_for (budget : Q) : Z :=
  Z.max 2 (Z.of_nat (target_stocks_for budget) / 2).

(** The waits [RETRY_BASE_DELAY * (2 ** attempt)] of [k] retries in a row,
    starting with attempt number [first]. *)
Definition backoff_from (first k : nat) : list Z :=
  (λ attempt, RETRY_BASE_DELAY * 2 ^ Z.of_nat attempt)%Z <$> seq first k.

(** No more failures counted than calls made. *)
Definition sound_stats (s : api_stats) : Prop :=
  (failures s <= total_calls s)%nat.

(** The entry of [t], if it is younger than [CACHE_TTL]. *)
Definition fresh_entry (now : Z) (m : gmap string quote) (t : string)
    : option quote :=
  match m !! t with
  | Some cached =>
      if Qltb (total_seconds (now - timestamp cached)) CACHE_TTL
      then Some cached else None
  | None => None
  end.

(** No cached quote has a zero price. *)
Definition nonzero_quotes (m : gmap string quote) : Prop :=
  ∀ t cached, m !! t = Some cached → ¬ (quote_price cached == 0)%Q.

(** A position whose ticker has a strictly positive price. *)
Definition positive_price (prices : gmap string Q) (inv : investment) : Prop :=
  ∃ p, prices !! inv_ticker inv = Some p ∧ (0 < p)%Q.

(** A position in a stock of [stocks] whose sector satisfies [P]. *)
Definition sector_is (stocks : list stock) (P : string → Prop)
    (inv : investment) : Prop :=
  ∃ s, s ∈ stocks ∧ ticker s = inv_ticker inv ∧ P (sector s).

(** One call of a recording method of the tracker. *)
Inductive tracker_call : Type :=
  | RecordSkip (reason : string)
  | RecordProcessed (strategy : string)
  | RecordSolution (accepted : bool)
  | RecordProcessingTime (seconds : Q).

Definition tracker_step (c : tracker_call) (self : PerformanceTracker)
    : res PerformanceTracker :=
  match c with
  | RecordSkip reason => record_skip reason self
  | RecordProcessed strategy => record_processed strategy self
  | RecordSolution accepted => Ret (record_solution accepted self)
  | RecordProcessingTime seconds => Ret (record_processing_time seconds self)
  end.

(** The calls made one after the other. *)
Fixpoint tracker_run (cs : list tracker_call) (self : PerformanceTracker)
    : res PerformanceTracker :=
  match cs with
  | [] => Ret self
  | c :: rest => self ← tracker_step c self; tracker_run rest self
  end.

(** [sum(d.values())] *)
Definition counter_total (d : gmap string nat) : nat :=
  map_fold (λ _ n acc, (n + acc)%nat) 0%nat d.

Definition is_skip (reason : string) (c : tracker_call) : bool :=
  match c with
  | RecordSkip r => String.eqb r reason
  | _ => false
  end.

Definition is_skip_call (c : tracker_call) : bool :=
  match c with
  | RecordSkip _ => true
  | _ => false
  end.

(** The number of calls of [record_skip] with this reason. *)
Definition skips_for (reason : string) (cs : list tracker_call) : nat :=
  length (List.filter (is_skip reason) cs).

(** Is the call a [record_processed] of one of the three strategies? *)
Definition known_strategy (c : tracker_call) : Prop :=
  match c with
  | RecordProcessed strategy =>
      strategy = "diversification" ∨ strategy = "preference_weighted"
      ∨ strategy = "high_conviction"
  | _ => True
  end.

(** The processor after the calls [add_client(client_id, date)] for the
    pairs of [adds], in order, on a new processor. *)
Definition after_adds (adds : list (string * string)) : date_groups :=
  foldl (λ groups a, add_client a.1 a.2 groups) [] adds.

(** * Properties *)

(** ** Arithmetic of the Python operators *)

Lemma Qltb_lt (x y : Q) : Qltb x y = true ↔ (x < y)%Q.
Proof.
  unfold Qltb. rewrite negb_true_iff. split.
  - intros H. apply Qnot_le_lt. intros Hle.
    apply Qle_bool_iff in Hle. congruence.
  - intros H. destruct (Qle_bool y x) eqn:E; [|done].
    apply Qle_bool_iff in E. apply Qlt_not_le in H. contradiction.
Qed.

Lemma Qltb_ge (x y : Q) : Qltb x y = false ↔ (y <= x)%Q.
Proof.
  unfold Qltb. rewrite negb_false_iff. apply Qle_bool_iff.
Qed.

Lemma py_div_ret (a b q : Q) :
  py_div a b = Ret q → ¬ (b == 0)%Q ∧ q = (a / b)%Q.
Proof.
  unfold py_div. destruct (Qeq_bool b 0) eqn:E; [done|].
  intros [= <-]. split; [|done].
  intros Hb. apply Qeq_bool_iff in Hb. congruence.
Qed.

Lemma py_div_nonzero (a b : Q) : ¬ (b == 0)%Q → py_div a b = Ret (a / b)%Q.
Proof.
  intros Hb. unfold py_div. destruct (Qeq_bool b 0) eqn:E; [|done].
  apply Qeq_bool_iff in E. contradiction.
Qed.

Lemma py_int_floor (x : Q) : (0 <= x)%Q → py_int x = Qfloor x.
Proof.
  destruct x as [n d]. unfold Qle, py_int, Qfloor. simpl. intros Hn.
  apply Z.quot_div_nonneg; lia.
Qed.

Lemma py_int_neg (x : Q) : (x <= 0)%Q → (py_int x <= 0)%Z.
Proof.
  destruct x as [n d]. unfold Qle, py_int. simpl. intros Hn.
  assert (Hq : (0 <= Z.quot (- n) (Z.pos d))%Z) by (apply Z.quot_pos; lia).
  rewrite Z.quot_opp_l in Hq by lia. lia.
Qed.

(** A positive [int(x)] means [x] is at least that integer. *)
Lemma py_int_pos (x : Q) :
  (0 < py_int x)%Z → (0 < x)%Q ∧ (inject_Z (py_int x) <= x)%Q.
Proof.
  intros Hpos.
  assert (Hx : (0 < x)%Q).
  { apply Qnot_le_lt. intros Hle. apply py_int_neg in Hle. lia. }
  split; [done|]. rewrite py_int_floor by lra. apply Qfloor_le.
Qed.

(** ** Strategy selection *)

(** C8: for every integer strength the bands [0,30], [31,60] and [61,100]
    select diversification, preference_weighted and high_conviction
    respectively, exactly one band of the table matches a strength in
    [0,100], and a strength outside [0,100] falls back to diversification. *)
Theorem select_strategy_bands (ctx : context) :
  let s := preference_strength ctx in
  ((0 <= s <= 30)%Z → select_strategy ctx = "diversification") ∧
  ((31 <= s <= 60)%Z → select_strategy ctx = "preference_weighted") ∧
  ((61 <= s <= 100)%Z → select_strategy ctx = "high_conviction") ∧
  ((0 <= s <= 100)%Z →
     length (List.filter (in_band s) STRATEGY_THRESHOLDS) = 1%nat) ∧
  ((s < 0 ∨ 100 < s)%Z → select_strategy ctx = "diversification").
Proof.
  destruct ctx as [b d pref av s]. unfold select_strategy. simpl.
  repeat split; intros H;
    repeat match goal with
    | |- context [(?a <=? ?b)%Z] => destruct (Z.leb_spec a b); simpl
    end; try reflexivity; lia.
Qed.

Lemma select_strategy_bands_witness :
  select_strategy (Context 1000 "2024-01-02" ["Technology"] [] 80)
    = "high_conviction"
  ∧ select_strategy (Context 1000 "2024-01-02" [] [] 0) = "diversification"
  ∧ select_strategy (Context 1000 "2024-01-02" [] [] 130) = "diversification".
Proof.
  split; [|split].
  - apply (select_strategy_bands (Context 1000 "2024-01-02" ["Technology"] [] 80)).
    simpl. lia.
  - apply (proj1 (select_strategy_bands (Context 1000 "2024-01-02" [] [] 0))).
    simpl. lia.
  - apply (proj2 (proj2 (proj2 (proj2
      (select_strategy_bands (Context 1000 "2024-01-02" [] [] 130)))))).
    simpl. lia.
Defined.

(** ** Cost of a portfolio *)

Lemma value_app prices l1 l2 :
  (value prices (l1 ++ l2) == value prices l1 + value prices l2)%Q.
Proof.
  induction l1 as [|inv l1 IH]; simpl; [lra|]. rewrite IH. lra.
Qed.

Lemma cost_from_inv prices acc portfolio c :
  cost_from prices acc portfolio = Ret c →
  Forall (has_price prices) portfolio ∧ (c == acc + value prices portfolio)%Q.
Proof.
  revert acc. induction portfolio as [|inv rest IH]; simpl; intros acc H.
  - injection H as <-. split; [constructor | lra].
  - unfold getitem in H. destruct (prices !! inv_ticker inv) as [p|] eqn:Hp; [|done].
    simpl in H. apply IH in H as [Hall Hc]. split.
    + constructor; [|done]. unfold has_price. rewrite Hp. eauto.
    + unfold position_value. rewrite Hp. simpl. lra.
Qed.

Lemma cost_from_total prices acc portfolio :
  Forall (has_price prices) portfolio →
  ∃ c, cost_from prices acc portfolio = Ret c.
Proof.
  revert acc. induction portfolio as [|inv rest IH]; simpl; intros acc Hall.
  - eauto.
  - inversion Hall as [|? ? [p Hp] Hrest]; subst.
    unfold getitem. rewrite Hp. simpl. apply IH. done.
Qed.

Lemma portfolio_cost_value portfolio prices c :
  portfolio_cost portfolio prices = Ret c → (c == value prices portfolio)%Q.
Proof.
  intros H. apply cost_from_inv in H as [_ H]. lra.
Qed.

(** ** Validation *)

Lemma float_of_int_convertible inv :
  convertible inv → float_of_int (shares inv) = Ret (nearest_float (shares inv)).
Proof.
  unfold convertible, float_of_int.
  generalize (2 ^ 1024 - 2 ^ 970)%Z. intros bound Hlt.
  destruct (Z.leb_spec bound (Z.abs (shares inv))) as [Hge|_]; [|done].
  exfalso. by apply Z.lt_nge in Hlt.
Qed.

(** The checking loop does not raise on convertible share counts: it
    stops at the first position without a price or with a share count
    that is not positive, and otherwise yields the computed cost. *)
Lemma check_positions_spec prices acc portfolio :
  Forall convertible portfolio →
  (∃ msg, check_positions prices acc portfolio = Ret (inl msg)
          ∧ (Exists (λ inv, prices !! inv_ticker inv = None) portfolio
             ∨ Exists (λ inv, (shares inv <= 0)%Z) portfolio))
  ∨ (∃ total, check_positions prices acc portfolio = Ret (inr total)
              ∧ Forall (λ inv, is_Some (prices !! inv_ticker inv)) portfolio
              ∧ Forall (λ inv, (0 < shares inv)%Z) portfolio
              ∧ computed_cost prices acc portfolio = Some total).
Proof.
  intros Hconv. revert acc.
  induction Hconv as [|inv rest Hinv Hrest IH]; intros acc.
  { right. exists acc. simpl. by split_and!. }
  cbn [check_positions computed_cost].
  destruct (prices !! inv_ticker inv) as [p|] eqn:Hp.
  2:{ left. eexists. split; [reflexivity|]. left. by constructor. }
  destruct (Z.leb_spec (shares inv) 0) as [Hle|Hpos].
  { left. eexists. split; [reflexivity|]. right. by constructor. }
  rewrite (float_of_int_convertible inv Hinv). cbn [mbind res_bind].
  destruct (IH (acc + nearest_float (shares inv) * p)%float)
    as [(msg & Hmsg & Hwhy)|(total & Htotal & Hpriced & Hshares & Hcost)].
  - left. exists msg. split; [exact Hmsg|].
    destruct Hwhy; [left | right]; by apply Exists_cons_tl.
  - right. exists total. split_and!; try done.
    + constructor; [by rewrite Hp | done].
    + by constructor.
Qed.

Lemma priced_not_missing (prices : gmap string float) portfolio :
  Forall (λ inv, is_Some (prices !! inv_ticker inv)) portfolio →
  ¬ Exists (λ inv, prices !! inv_ticker inv = None) portfolio.
Proof.
  intros Hall Hex. apply Exists_exists in Hex as (inv & Hin & Hnone).
  rewrite Forall_forall in Hall. destruct (Hall inv Hin) as [p Hp]. congruence.
Qed.

Lemma positive_not_invalid portfolio :
  Forall (λ inv, (0 < shares inv)%Z) portfolio →
  ¬ Exists (λ inv, (shares inv <= 0)%Z) portfolio.
Proof.
  intros Hall Hex. apply Exists_exists in Hex as (inv & Hin & Hle).
  rewrite Forall_forall in Hall. specialize (Hall inv Hin). lia.
Qed.

(** C4, amended: on share counts that convert to a float the verdict is
    [False] exactly when the portfolio is empty, a ticker has no price, a
    share count is not positive, or the computed cost exceeds the computed
    [budget * 1.01], both rounded to binary64; and with a non-zero budget
    every portfolio that passes these checks is accepted, as a valid
    portfolio when its computed usage is not below 85 and with the
    low-usage warning otherwise. *)
Theorem validate_portfolio_verdict (portfolio : list investment)
    (budget : float) (prices : gmap string float) :
  Forall convertible portfolio →
  ((∃ msg, validate_portfolio portfolio budget prices = Ret (false, msg)) ↔
     portfolio = []
     ∨ Exists (λ inv, prices !! inv_ticker inv = None) portfolio
     ∨ Exists (λ inv, (shares inv <= 0)%Z) portfolio
     ∨ ∃ total_cost, computed_cost prices 0 portfolio = Some total_cost
                     ∧ (budget * 1.01 <? total_cost)%float = true)
  ∧ (∀ total_cost,
       PrimFloat.eqb budget 0 = false →
       portfolio ≠ [] →
       Forall (λ inv, (0 < shares inv)%Z) portfolio →
       computed_cost prices 0 portfolio = Some total_cost →
       (budget * 1.01 <? total_cost)%float = false →
       let usage_pct := (total_cost / budget * 100)%float in
       validate_portfolio portfolio budget prices
       = Ret (true,
              if (usage_pct <? 85)%float then Low_budget_usage usage_pct
              else Valid_portfolio total_cost usage_pct)).
Proof.
  intros Hconv. split; [split|].
  - intros [msg H]. destruct portfolio as [|inv rest]; [by left|].
    right. unfold validate_portfolio in H.
    destruct (check_positions_spec prices 0 (inv :: rest) Hconv)
      as [(m & Hm & Hwhy)|(total & Htotal & _ & _ & Hcost)].
    + destruct Hwhy; [left | right; left]; done.
    + right; right. exists total. split; [exact Hcost|].
      rewrite Htotal in H. cbn [mbind res_bind] in H.
      destruct (budget * 1.01 <? total)%float; [done|].
      destruct (float_div total budget) as [ratio|e]; cbn [mbind res_bind] in H;
        [|done].
      destruct (ratio * 100 <? 85)%float; done.
  - intros H. destruct portfolio as [|inv rest]; [by eexists|].
    unfold validate_portfolio.
    destruct (check_positions_spec prices 0 (inv :: rest) Hconv)
      as [(m & -> & _)|(total & -> & Hpriced & Hshares & Hcost)];
      cbn [mbind res_bind]; [by eexists|].
    destruct H as [H|[H|[H|(total' & Hcost' & Hlt)]]].
    + done.
    + by apply priced_not_missing in Hpriced.
    + by apply positive_not_invalid in Hshares.
    + rewrite Hcost in Hcost'. injection Hcost' as <-. rewrite Hlt. by eexists.
  - intros total_cost Hbudget Hne Hshares Hcost Hle usage_pct.
    destruct portfolio as [|inv rest]; [done|].
    unfold validate_portfolio.
    destruct (check_positions_spec prices 0 (inv :: rest) Hconv)
      as [(m & _ & [Hmiss|Hinv])|(total & -> & _ & _ & Hcost')].
    + exfalso. clear - Hcost Hmiss. revert Hcost. generalize 0%float.
      induction Hmiss as [inv' rest' Hnone|inv' rest' _ IH]; intros acc;
        cbn [computed_cost].
      * by rewrite Hnone.
      * destruct (prices !! inv_ticker inv'); [apply IH | done].
    + by apply positive_not_invalid in Hshares.
    + rewrite Hcost in Hcost'. injection Hcost' as <-. cbn [mbind res_bind].
      rewrite Hle. unfold float_div. rewrite Hbudget. cbn [mbind res_bind].
      fold usage_pct. by destruct (usage_pct <? 85)%float.
Qed.

Lemma validate_portfolio_verdict_witness :
  validate_portfolio [Investment "AAPL" 9] 1000 {["AAPL" := 100%float]}
  = Ret (true, Valid_portfolio 900 90).
Proof.
  apply (proj2 (validate_portfolio_verdict [Investment "AAPL" 9] 1000
                  {["AAPL" := 100%float]}
                  ltac:(repeat constructor; vm_compute; reflexivity))
           900%float).
  - reflexivity.
  - discriminate.
  - repeat constructor.
  - reflexivity.
  - reflexivity.
Defined.

(** C4, as stated, fails: one share at [1.01] with a budget of [1] is
    accepted, with no ticker unpriced and no share count out of range,
    although its cost, the double nearest to 1.01, is more than 1.01 times
    the budget: the product [1 * 1.01] is rounded to that same double and
    the comparison is between doubles. *)
Lemma validate_portfolio_accepts_above_tolerance :
  let portfolio := [Investment "AAPL" 1] in
  let budget := 1%float in
  let prices : gmap string float := {["AAPL" := 1.01%float]} in
  ¬ ((∃ msg, validate_portfolio portfolio budget prices = Ret (false, msg)) ↔
       portfolio = []
       ∨ Exists (λ inv, prices !! inv_ticker inv = None) portfolio
       ∨ Exists (λ inv, (shares inv <= 0)%Z) portfolio
       ∨ (exact budget * 1.01 < value (exact <$> prices) portfolio)%Q).
Proof.
  intros portfolio budget prices [_ H].
  destruct H as [msg Hmsg].
  - right; right; right. vm_compute. reflexivity.
  - vm_compute in Hmsg. discriminate Hmsg.
Qed.

(** In the other direction a portfolio is rejected for a budget breach
    although its cost is within 1.01 times the budget: the running total
    is rounded upwards on the way. *)
Example validate_portfolio_rejects_within_tolerance :
  let portfolio := [Investment "AAPL" 27; Investment "WMT" 10] in
  let prices : gmap string float :=
    <["AAPL" := 0x1.d6480f2b9d649p-4%float]>
      {["WMT" := 0x1.6666666666666p-1%float]} in
  ∃ total_cost,
    validate_portfolio portfolio 10 prices
    = Ret (false, Budget_breach total_cost 10)
    ∧ (value (exact <$> prices) portfolio <= exact 10 * 1.01)%Q.
Proof.
  intros portfolio prices. eexists.
  split; [vm_compute; reflexivity|]. vm_compute. discriminate.
Qed.

(** A hundred and one shares at [0.1] are computed to cost more than the
    computed [10 * 1.01], and the portfolio is rejected at what reads as
    101% of the budget. *)
Example validate_portfolio_rejects_at_tolerance :
  ∃ total_cost,
    validate_portfolio [Investment "AAPL" 101] 10 {["AAPL" := 0.1%float]}
    = Ret (false, Budget_breach total_cost 10).
Proof. eexists. vm_compute. reflexivity. Qed.

(** ** Budget optimisation *)

Lemma grows_refl a : grows a a.
Proof. induction a; constructor; [split; [done|lia] | done]. Qed.

Lemma grows_trans a b c : grows a b → grows b c → grows a c.
Proof.
  intros Hab. revert c. induction Hab as [|x y a b [Ht Hs] Hab IH]; intros c Hbc.
  - inversion Hbc. constructor.
  - inversion Hbc as [|? z ? c' [Ht' Hs'] Hbc']; subst.
    constructor; [split; [congruence | lia] | by apply IH].
Qed.

Lemma grows_tickers a b : grows a b → inv_ticker <$> b = inv_ticker <$> a.
Proof.
  induction 1 as [|x y a b [Ht Hs] Hab IH]; [done|].
  by rewrite !fmap_cons, Ht, IH.
Qed.

Lemma add_shares_grows t k optimized optimized' :
  (0 <= k)%Z → add_shares t k optimized = Some optimized' →
  grows optimized optimized'.
Proof.
  intros Hk. revert optimized'.
  induction optimized as [|x rest IH]; simpl; intros optimized' H; [done|].
  destruct (String.eqb (inv_ticker x) t).
  - injection H as <-. constructor; [simpl; split; [done|lia] | apply grows_refl].
  - destruct (add_shares t k rest) as [rest'|]; [|done].
    injection H as <-. constructor; [split; [done|lia] | by apply IH].
Qed.


(** Buying [int(remaining / p)] shares never costs more than [remaining]. *)
Lemma purchase_within (remaining p : Q) :
  (0 <= remaining)%Q → ¬ (p == 0)%Q → (0 < py_int (remaining / p))%Z →
  (0 < p)%Q ∧ (inject_Z (py_int (remaining / p)) * p <= remaining)%Q.
Proof.
  intros Hrem Hp Hk. apply py_int_pos in Hk as [Hq Hle].
  set (k := inject_Z (py_int (remaining / p))) in *.
  assert (Hmul : (remaining / p * p == remaining)%Q).
  { rewrite Qmult_comm. by apply Qmult_div_r. }
  set (q := (remaining / p)%Q) in *.
  assert (Hpos : (0 < p)%Q).
  { destruct (Qlt_le_dec 0 p) as [|Hneg]; [done|]. exfalso.
    assert (p < 0)%Q by (apply Qle_lteq in Hneg as [?|Heq]; [done|];
                          exfalso; apply Hp; lra).
    nra. }
  split; [done|]. nra.
Qed.

Lemma top_up_grows prices sorted_portfolio optimized remaining out :
  top_up prices sorted_portfolio optimized remaining = Ret out →
  grows optimized out.
Proof.
  revert optimized remaining.
  induction sorted_portfolio as [|inv rest IH]; simpl; intros optimized remaining H.
  - injection H as <-. apply grows_refl.
  - destruct (getitem prices (inv_ticker inv)) as [p|]; simpl in H; [|done].
    destruct (py_div remaining p) as [q|]; simpl in H; [|done].
    destruct (min_price prices) as [lowest|];
      [|destruct (0 <? py_int q)%Z; [destruct (add_shares _ _ _)|]; done].
    destruct (Z.ltb_spec 0 (py_int q)) as [Hk|Hk].
    + destruct (add_shares (inv_ticker inv) (py_int q) optimized)
        as [optimized'|] eqn:Hadd; simpl in H.
      * apply add_shares_grows in Hadd; [|lia].
        destruct (Qltb _ lowest); [injection H as <-; done|].
        eapply grows_trans; [done | by eapply IH].
      * destruct (Qltb _ lowest); [injection H as <-; apply grows_refl|].
        by eapply IH.
    + simpl in H. destruct (Qltb _ lowest); [injection H as <-; apply grows_refl|].
      by eapply IH.
Qed.


Lemma nonzero_has_price prices inv :
  nonzero_price prices inv → has_price prices inv.
Proof. intros (p & Hp & _). unfold has_price. rewrite Hp. eauto. Qed.


Lemma min_price_total prices t p :
  prices !! t = Some p → ∃ lowest, min_price prices = Ret lowest.
Proof.
  intros Hp. unfold min_price.
  destruct (map_to_list prices) as [|[k v] l] eqn:E; simpl; [|eauto].
  apply map_to_list_empty_iff in E. subst. by rewrite lookup_empty in Hp.
Qed.

Lemma top_up_total prices sorted_portfolio optimized remaining :
  Forall (nonzero_price prices) sorted_portfolio →
  ∃ out, top_up prices sorted_portfolio optimized remaining = Ret out.
Proof.
  revert optimized remaining.
  induction sorted_portfolio as [|inv rest IH]; simpl;
    intros optimized remaining Hall; [eauto|].
  inversion Hall as [|? ? (p & Hp & Hnz) Hrest]; subst.
  unfold getitem. rewrite Hp. simpl. rewrite py_div_nonzero by done. simpl.
  destruct (min_price_total prices _ _ Hp) as [lowest Hmin].
  destruct (0 <? py_int (remaining / p))%Z;
    [destruct (add_shares _ _ _)|]; rewrite Hmin; simpl;
    (destruct (Qltb _ lowest); [eauto | by apply IH]).
Qed.

(** ** Sorting *)

Lemma insert_sorted_perm {A} (key : A → Q) x l :
  insert_sorted key x l ≡ₚ x :: l.
Proof.
  induction l as [|y l IH]; simpl; [done|].
  destruct (Qle_bool (key x) (key y)); [done|].
  rewrite IH. apply Permutation_swap.
Qed.

Lemma sort_by_perm {A} (key : A → Q) (l : list A) : sort_by key l ≡ₚ l.
Proof.
  induction l as [|x l IH]; simpl; [done|].
  rewrite insert_sorted_perm. by rewrite IH.
Qed.

Lemma Forall_sort_by {A} (P : A → Prop) (key : A → Q) (l : list A) :
  Forall P l → Forall P (sort_by key l).
Proof. intros H. by rewrite sort_by_perm. Qed.

Lemma optimize_budget_usage_grows portfolio budget prices out :
  optimize_budget_usage portfolio budget prices = Ret out → grows portfolio out.
Proof.
  unfold optimize_budget_usage. intros H.
  destruct portfolio as [|inv rest]; [injection H as <-; apply grows_refl|].
  destruct (portfolio_cost (inv :: rest) prices) as [c|]; simpl in H; [|done].
  destruct (Qltb _ 0); [injection H as <-; apply grows_refl|].
  by eapply top_up_grows.
Qed.

(** C10: whenever [optimize_budget_usage] returns, the result has the
    tickers of the input in the same order and no position has fewer shares;
    and it does return when every ticker of the portfolio has a non-zero
    price. *)
Theorem optimize_budget_usage_frame (portfolio : list investment) (budget : Q)
    (prices : gmap string Q) :
  (∀ out, optimize_budget_usage portfolio budget prices = Ret out →
     inv_ticker <$> out = inv_ticker <$> portfolio
     ∧ Forall2 (λ x y, inv_ticker x = inv_ticker y ∧ (shares x <= shares y)%Z)
         portfolio out)
  ∧ (Forall (nonzero_price prices) portfolio →
     ∃ out, optimize_budget_usage portfolio budget prices = Ret out).
Proof.
  split.
  - intros out H. apply optimize_budget_usage_grows in H.
    split; [by apply grows_tickers | done].
  - intros Hall. unfold optimize_budget_usage.
    destruct portfolio as [|inv rest]; [eauto|].
    destruct (cost_from_total prices 0 (inv :: rest)) as [c Hc].
    { eapply Forall_impl; [done|]. apply nonzero_has_price. }
    unfold portfolio_cost. rewrite Hc. simpl.
    destruct (Qltb _ 0); [eauto|].
    apply top_up_total. by apply (Forall_sort_by _ _ (inv :: rest)).
Qed.

Lemma optimize_budget_usage_frame_witness :
  ∃ out,
    optimize_budget_usage [Investment "AAPL" 2; Investment "WMT" 1] 1000
      (<["AAPL" := 100%Q]> {["WMT" := 50%Q]}) = Ret out
    ∧ inv_ticker <$> out = ["AAPL"; "WMT"].
Proof.
  destruct (proj2 (optimize_budget_usage_frame
                     [Investment "AAPL" 2; Investment "WMT" 1] 1000
                     (<["AAPL" := 100%Q]> {["WMT" := 50%Q]}))) as [out Hout].
  - repeat constructor.
    + exists 100%Q. split; [reflexivity | unfold Qeq; simpl; lia].
    + exists 50%Q. split; [reflexivity | unfold Qeq; simpl; lia].
  - exists out. split; [done|].
    by apply (proj1 (optimize_budget_usage_frame _ _ _) out Hout).
Defined.




(** ** Portfolio construction *)

Lemma submseteq_NoDup {A} (l1 l2 : list A) : l1 ⊆+ l2 → NoDup l2 → NoDup l1.
Proof.
  intros Hsub Hnd. apply submseteq_sublist_l in Hsub as (l & Hl & Hp).
  apply (sublist_NoDup l1 l); [by rewrite Hp | exact Hl].
Qed.

Lemma affordable_value prices per alloc :
  Forall (affordable prices per) alloc →
  (value prices alloc <= per * inject_Z (Z.of_nat (length alloc)))%Q.
Proof.
  induction 1 as [|inv rest (Hs & p & Hp & Hle) Hrest IH].
  - change (0 <= per * 0)%Q. lra.
  - change (length (inv :: rest)) with (S (length rest)).
    rewrite Nat2Z.inj_succ, <- Z.add_1_r, inject_Z_plus.
    change (inject_Z 1) with 1%Q. cbn [value].
    unfold position_value. rewrite Hp.
    change (default 0%Q (Some p)) with p. lra.
Qed.

Lemma affordable_has_price prices per alloc :
  Forall (affordable prices per) alloc → Forall (has_price prices) alloc.
Proof.
  intros H. eapply Forall_impl; [exact H|].
  intros inv (_ & p & Hp & _). unfold has_price. rewrite Hp. eauto.
Qed.

Lemma affordable_positive prices per alloc :
  Forall (affordable prices per) alloc →
  Forall (λ inv, (0 < shares inv)%Z) alloc.
Proof. intros H. eapply Forall_impl; [exact H|]. by intros inv [? _]. Qed.

Lemma shares_for_affordable prices per s n :
  (0 <= per)%Q → prices !! pticker s = Some (price s) →
  shares_for per s = Ret n → (0 < n)%Z →
  affordable prices per (Investment (pticker s) n).
Proof.
  intros Hper Hp H Hn. unfold shares_for in H.
  destruct (py_div per (price s)) as [q|] eqn:Hq; simpl in H; [|done].
  injection H as <-. apply py_div_ret in Hq as [Hnz ->].
  destruct (purchase_within per (price s) Hper Hnz Hn) as [_ Hc].
  split; [done|]. exists (price s). by split.
Qed.

Lemma shares_for_total per s :
  ¬ (price s == 0)%Q → ∃ n, shares_for per s = Ret n.
Proof.
  intros Hnz. unfold shares_for. rewrite py_div_nonzero by done. simpl. eauto.
Qed.

Lemma buy_each_spec prices per pool alloc :
  (0 <= per)%Q → well_priced prices pool →
  buy_each per pool = Ret alloc →
  inv_ticker <$> alloc ⊆+ pticker <$> pool
  ∧ Forall (affordable prices per) alloc.
Proof.
  intros Hper. revert alloc.
  induction pool as [|s rest IH]; simpl; intros alloc Hwp H.
  - injection H as <-. split; [done | constructor].
  - inversion Hwp as [|? ? Hs Hrest]; subst.
    destruct (shares_for per s) as [n|] eqn:Hn; simpl in H; [|done].
    destruct (buy_each per rest) as [tl|]; simpl in H; [|done].
    destruct (IH tl Hrest eq_refl) as [Hsub Hall].
    injection H as <-.
    destruct (Z.ltb_spec 0 n).
    + split.
      * simpl. by apply submseteq_skip.
      * constructor; [|done]. by eapply shares_for_affordable.
    + split; [by apply submseteq_cons | done].
Qed.

Lemma buy_each_total per pool :
  Forall (λ s, ¬ (price s == 0)%Q) pool → ∃ alloc, buy_each per pool = Ret alloc.
Proof.
  induction 1 as [|s rest Hs Hrest [tl IH]]; simpl; [eauto|].
  destruct (shares_for_total per s Hs) as [n ->]. simpl. rewrite IH. simpl. eauto.
Qed.

Lemma select_diverse_spec target max_per candidates selected counts :
  ∃ l, select_diverse target max_per candidates selected counts = selected ++ l
       ∧ l `sublist_of` candidates.
Proof.
  revert selected counts.
  induction candidates as [|s rest IH]; simpl; intros selected counts.
  - exists []. by rewrite app_nil_r.
  - destruct (target <=? length selected)%nat.
    { exists []. rewrite app_nil_r. split; [done | apply sublist_nil_l]. }
    destruct (sector_count counts (sector (base s)) <? max_per)%Z.
    + destruct (IH (selected ++ [s])
                  (<[sector (base s) :=
                       (sector_count counts (sector (base s)) + 1)%Z]> counts))
        as (l & -> & Hl).
      exists (s :: l). rewrite <- app_assoc. split; [done | by apply sublist_skip].
    + destruct (IH selected counts) as (l & -> & Hl).
      exists l. split; [done | by apply sublist_cons].
Qed.

Lemma pick_others_spec prices target per pool selected counts out :
  (0 <= per)%Q → well_priced prices pool →
  pick_others target per pool selected counts = Ret out →
  ∃ extra, out = selected ++ extra
    ∧ inv_ticker <$> extra ⊆+ pticker <$> pool
    ∧ Forall (affordable prices per) extra
    ∧ ((length selected <= target)%nat → (length out <= target)%nat).
Proof.
  intros Hper. revert selected counts out.
  induction pool as [|s rest IH]; simpl; intros selected counts out Hwp H.
  - injection H as <-. exists []. rewrite app_nil_r.
    repeat split; [done | constructor | done].
  - inversion Hwp as [|? ? Hs Hrest]; subst.
    destruct (Nat.leb_spec target (length selected)) as [Hfull|Hroom].
    { injection H as <-. exists []. rewrite app_nil_r.
      repeat split; [apply submseteq_nil_l | constructor | done]. }
    destruct (sector_count counts (sector (base s)) <? 1)%Z.
    + destruct (shares_for per s) as [n|] eqn:Hn; simpl in H; [|done].
      destruct (Z.ltb_spec 0 n).
      * apply IH in H as (extra & -> & Hsub & Hall & Hlen); [|done].
        exists (Investment (pticker s) n :: extra).
        rewrite <- app_assoc. repeat split.
        -- simpl. by apply submseteq_skip.
        -- constructor; [|done]. by eapply shares_for_affordable.
        -- intros _. rewrite app_assoc. apply Hlen.
           rewrite length_app. simpl. lia.
      * apply IH in H as (extra & -> & Hsub & Hall & Hlen); [|done].
        exists extra. repeat split; try done.
        by apply submseteq_cons.
    + apply IH in H as (extra & -> & Hsub & Hall & Hlen); [|done].
      exists extra. repeat split; try done.
      by apply submseteq_cons.
Qed.

Lemma pick_others_total target per pool selected counts :
  Forall (λ s, ¬ (price s == 0)%Q) pool →
  ∃ out, pick_others target per pool selected counts = Ret out.
Proof.
  intros Hall. revert selected counts.
  induction Hall as [|s rest Hs Hrest IH]; simpl; intros selected counts; [eauto|].
  destruct (target <=? length selected)%nat; [eauto|].
  destruct (sector_count counts (sector (base s)) <? 1)%Z; [|apply IH].
  destruct (shares_for_total per s Hs) as [n ->]. simpl.
  destruct (0 <? n)%Z; apply IH.
Qed.

Lemma bought_nil prices pot pool : (0 <= pot)%Q → bought prices pot pool [].
Proof.
  intros Hpot. repeat split; [apply submseteq_nil_l | constructor.. | done].
Qed.

Lemma share_nonneg (pot : Q) (n : nat) :
  (0 <= pot)%Q → (0 < n)%nat → (0 <= pot / inject_Z (Z.of_nat n))%Q.
Proof.
  intros Hpot Hn. apply Qle_shift_div_l; [|lra].
  change 0%Q with (inject_Z 0). rewrite <- Zlt_Qlt. lia.
Qed.

Lemma share_nonzero (n : nat) : (0 < n)%nat → ¬ (inject_Z (Z.of_nat n) == 0)%Q.
Proof.
  intros Hn. change 0%Q with (inject_Z 0). rewrite inject_Z_injective. lia.
Qed.

(** Positions each within an [n]-th of [pot], at most [n] of them, cost at
    most [pot] together. *)
Lemma even_split_bound prices (pot : Q) (n : nat) alloc :
  (0 <= pot)%Q → (0 < n)%nat →
  Forall (affordable prices (pot / inject_Z (Z.of_nat n))) alloc →
  (length alloc <= n)%nat →
  (value prices alloc <= pot)%Q.
Proof.
  intros Hpot Hn Hall Hlen.
  pose proof (affordable_value _ _ _ Hall) as Hv.
  pose proof (share_nonneg pot n Hpot Hn) as Hper.
  pose proof (Qmult_div_r pot (inject_Z (Z.of_nat n)) (share_nonzero n Hn)) as Hmul.
  assert (Hle : (inject_Z (Z.of_nat (length alloc)) <= inject_Z (Z.of_nat n))%Q).
  { rewrite <- Zle_Qle. lia. }
  set (per := (pot / inject_Z (Z.of_nat n))%Q) in *.
  set (a := inject_Z (Z.of_nat (length alloc))) in *.
  set (b := inject_Z (Z.of_nat n)) in *.
  nra.
Qed.

Lemma well_priced_submseteq prices (l pool : list priced) :
  l ⊆+ pool → well_priced prices pool → well_priced prices l.
Proof.
  intros Hsub Hwp. unfold well_priced in *. rewrite Forall_forall in *.
  intros s Hs. apply Hwp. by eapply elem_of_submseteq.
Qed.

Lemma diversification_selected_bought prices (pot : Q) selected alloc :
  (0 <= pot)%Q → selected ≠ [] → well_priced prices selected →
  buy_each (pot / inject_Z (Z.of_nat (length selected))) selected = Ret alloc →
  bought prices pot selected alloc.
Proof.
  intros Hpot Hne Hwp H.
  assert (Hn : (0 < length selected)%nat).
  { destruct selected; [done | simpl; lia]. }
  apply (buy_each_spec prices) in H as [Hsub Hall];
    [|by apply share_nonneg | done].
  repeat split.
  - done.
  - by eapply affordable_positive.
  - by eapply affordable_has_price.
  - eapply even_split_bound; [done | exact Hn | exact Hall |].
    apply submseteq_length in Hsub. by rewrite !length_fmap in Hsub.
Qed.

Lemma buy_preferred_bought prices limit (pot : Q) pool alloc :
  (0 <= pot)%Q → (0 < limit)%nat → well_priced prices pool →
  buy_preferred limit pot pool = Ret alloc →
  bought prices pot pool alloc.
Proof.
  intros Hpot Hlimit Hwp H. unfold buy_preferred in H.
  destruct pool as [|s rest] eqn:Hpool; [injection H as <-; by apply bought_nil|].
  rewrite <- Hpool in *.
  set (n := Nat.min limit (length pool)) in *.
  assert (Hn : (0 < n)%nat) by (subst n pool; simpl; lia).
  rewrite py_div_nonzero in H by by apply share_nonzero. simpl in H.
  apply (buy_each_spec prices) in H as [Hsub Hall]; [|by apply share_nonneg|].
  - repeat split.
    + etrans; [exact Hsub|]. apply fmap_submseteq, submseteq_take.
    + by eapply affordable_positive.
    + by eapply affordable_has_price.
    + eapply even_split_bound; [done | exact Hn | exact Hall |].
      apply submseteq_length in Hsub. rewrite !length_fmap, length_take in Hsub.
      subst n. lia.
  - eapply well_priced_submseteq; [apply submseteq_take | done].
Qed.

Lemma buy_others_bought prices (pot : Q) pool alloc :
  (0 <= pot)%Q → well_priced prices pool →
  buy_others pot pool = Ret alloc →
  bought prices pot pool alloc.
Proof.
  intros Hpot Hwp H. unfold buy_others in H.
  destruct pool as [|s rest] eqn:Hpool; [injection H as <-; by apply bought_nil|].
  rewrite <- Hpool in *.
  set (n := Nat.min 3 (length pool)) in *.
  assert (Hn : (0 < n)%nat) by (subst n pool; simpl; lia).
  rewrite py_div_nonzero in H by by apply share_nonzero. simpl in H.
  apply (pick_others_spec prices) in H as (extra & -> & Hsub & Hall & Hlen);
    [|by apply share_nonneg | done].
  simpl in *. repeat split.
  - done.
  - by eapply affordable_positive.
  - by eapply affordable_has_price.
  - eapply even_split_bound; [done | exact Hn | exact Hall | apply Hlen; lia].
Qed.

Lemma buy_cheapest_other_bought prices (pot : Q) pool alloc :
  well_priced prices pool → (0 <= pot)%Q →
  buy_cheapest_other pot pool = Ret alloc →
  bought prices pot pool alloc.
Proof.
  intros Hwp Hpot H. unfold buy_cheapest_other in H.
  destruct pool as [|s rest]; [injection H as <-; by apply bought_nil|].
  destruct (Qltb 0 pot); [|injection H as <-; by apply bought_nil].
  destruct (shares_for pot s) as [n|] eqn:Hn; simpl in H; [|done].
  injection H as <-. inversion Hwp as [|? ? Hs Hrest]; subst.
  destruct (Z.ltb_spec 0 n) as [Hpos|]; [|by apply bought_nil].
  destruct (shares_for_affordable prices pot s n Hpot Hs Hn Hpos)
    as (Hsh & p & Hp & Hc).
  unfold pticker in *. simpl in Hp, Hc.
  repeat split.
  - simpl. apply submseteq_skip, submseteq_nil_l.
  - by repeat constructor.
  - repeat constructor. unfold has_price. simpl. rewrite Hp. eauto.
  - simpl. unfold position_value. simpl. rewrite Hp. simpl. lra.
Qed.

(** Two blocks over disjoint pools combine. *)
Lemma bought_app prices pot1 pot2 pool1 pool2 a1 a2 :
  bought prices pot1 pool1 a1 → bought prices pot2 pool2 a2 →
  inv_ticker <$> a1 ++ a2 ⊆+ (pticker <$> pool1) ++ (pticker <$> pool2)
  ∧ Forall (λ inv, (0 < shares inv)%Z) (a1 ++ a2)
  ∧ Forall (has_price prices) (a1 ++ a2)
  ∧ (value prices (a1 ++ a2) <= pot1 + pot2)%Q.
Proof.
  intros (S1 & P1 & H1 & V1) (S2 & P2 & H2 & V2). repeat split.
  - rewrite fmap_app. by apply submseteq_app.
  - by apply Forall_app.
  - by apply Forall_app.
  - rewrite value_app. lra.
Qed.

Lemma allocation_ok_intro prices pot limit (tickers : list string) alloc :
  NoDup tickers →
  inv_ticker <$> alloc ⊆+ tickers →
  Forall (λ inv, (0 < shares inv)%Z) alloc →
  Forall (has_price prices) alloc →
  (value prices alloc <= pot)%Q → (pot <= limit)%Q →
  allocation_ok prices limit alloc.
Proof.
  intros Hnd Hsub Hpos Hprice Hval Hle. repeat split.
  - by eapply submseteq_NoDup.
  - done.
  - destruct (cost_from_total prices 0 alloc Hprice) as [c Hc].
    exists c. split; [done|]. apply portfolio_cost_value in Hc. lra.
Qed.

Lemma allocation_ok_nil prices limit :
  (0 <= limit)%Q → allocation_ok prices limit [].
Proof.
  intros H. repeat split; [constructor | constructor |].
  exists 0%Q. by split.
Qed.

Lemma STOCKS_NoDup : NoDup (ticker <$> STOCKS).
Proof. apply (bool_decide_unpack _). vm_compute. reflexivity. Qed.

Lemma candidates_of_spec avoided prices stocks :
  well_priced prices (candidates_of avoided prices stocks)
  ∧ pticker <$> candidates_of avoided prices stocks ⊆+ ticker <$> stocks.
Proof.
  unfold candidates_of.
  induction stocks as [|s rest [IHp IHs]]; simpl; [split; [constructor|done]|].
  destruct (prices !! ticker s) as [p|] eqn:Hp.
  - destruct (bool_decide (sector s ∉ avoided)); simpl.
    + split; [by constructor | by apply submseteq_skip].
    + split; [done | by apply submseteq_cons].
  - split; [done | by apply submseteq_cons].
Qed.

Lemma partition_stocks_spec preferred avoided prices stocks ps os :
  partition_stocks preferred avoided prices stocks = (ps, os) →
  well_priced prices ps ∧ well_priced prices os
  ∧ (pticker <$> ps) ++ (pticker <$> os) ⊆+ ticker <$> stocks.
Proof.
  revert ps os.
  induction stocks as [|s rest IH]; simpl; intros ps os H.
  - injection H as <- <-. repeat split; constructor.
  - destruct (partition_stocks preferred avoided prices rest) as [ps' os'].
    destruct (IH ps' os' eq_refl) as (Hp' & Ho' & Hsub).
    destruct (prices !! ticker s) as [p|] eqn:Hp.
    + destruct (bool_decide (sector s ∈ avoided)).
      { injection H as <- <-. repeat split; try done. by apply submseteq_cons. }
      destruct (bool_decide (sector s ∈ preferred)); injection H as <- <-.
      * repeat split; [by constructor | done |]. simpl. by apply submseteq_skip.
      * repeat split; [done | by constructor |]. simpl.
        rewrite <- Permutation_middle. by apply submseteq_skip.
    + injection H as <- <-. repeat split; try done. by apply submseteq_cons.
Qed.

Lemma well_priced_nonzero prices pool :
  nonzero_prices prices → well_priced prices pool →
  Forall (λ s, ¬ (price s == 0)%Q) pool.
Proof.
  intros Hnz Hwp. eapply Forall_impl; [exact Hwp|].
  intros s Hs. exact (Hnz _ _ Hs).
Qed.

Lemma well_priced_sort prices pool :
  well_priced prices pool → well_priced prices (sort_by price pool).
Proof. apply Forall_sort_by. Qed.

Lemma diversification_ok ctx prices alloc :
  (0 < budget ctx)%Q →
  _diversification ctx prices = Ret alloc →
  allocation_ok prices (budget ctx * INITIAL_BUDGET_USAGE) alloc.
Proof.
  intros Hb. unfold _diversification.
  set (avoided := list_to_set (avoided_sectors ctx) : gset string).
  destruct (candidates_of_spec avoided prices STOCKS) as [Hwp Hsub].
  set (candidates := sort_by price (candidates_of avoided prices STOCKS)).
  set (target := if Qltb (budget ctx) 100 then 3%nat
                 else if Qltb (budget ctx) 500 then 5%nat else 7%nat).
  destruct (select_diverse_spec target (Z.max 2 (Z.of_nat target / 2))
              candidates [] ∅) as (selected & -> & Hsel).
  simpl app.
  assert (Hpot : (0 <= budget ctx * INITIAL_BUDGET_USAGE)%Q).
  { unfold INITIAL_BUDGET_USAGE. lra. }
  assert (Hwps : well_priced prices selected).
  { eapply well_priced_submseteq; [by apply sublist_submseteq|].
    by apply well_priced_sort. }
  assert (Htick : pticker <$> selected ⊆+ ticker <$> STOCKS).
  { etrans; [apply fmap_submseteq, sublist_submseteq, Hsel|].
    unfold candidates. by rewrite sort_by_perm. }
  destruct selected as [|s rest] eqn:Hselected.
  { intros [= <-]. by apply allocation_ok_nil. }
  rewrite <- Hselected in *.
  assert (Hne : selected ≠ []) by (subst; done).
  rewrite py_div_nonzero.
  2:{ apply share_nonzero. subst selected. simpl. lia. }
  simpl. intros H.
  apply (diversification_selected_bought prices) in H
    as (S1 & P1 & H1 & V1); try done.
  eapply allocation_ok_intro;
    [apply STOCKS_NoDup | by etrans | done | done | exact V1 | apply Qle_refl].
Qed.

Lemma diversification_total ctx prices :
  nonzero_prices prices → ∃ alloc, _diversification ctx prices = Ret alloc.
Proof.
  intros Hnz. unfold _diversification.
  set (avoided := list_to_set (avoided_sectors ctx) : gset string).
  destruct (candidates_of_spec avoided prices STOCKS) as [Hwp _].
  set (candidates := sort_by price (candidates_of avoided prices STOCKS)).
  set (target := if Qltb (budget ctx) 100 then 3%nat
                 else if Qltb (budget ctx) 500 then 5%nat else 7%nat).
  destruct (select_diverse_spec target (Z.max 2 (Z.of_nat target / 2))
              candidates [] ∅) as (selected & -> & Hsel).
  simpl app.
  assert (Hwps : well_priced prices selected).
  { eapply well_priced_submseteq; [by apply sublist_submseteq|].
    by apply well_priced_sort. }
  destruct selected as [|s rest] eqn:Hselected; [eauto|].
  rewrite <- Hselected in *.
  rewrite py_div_nonzero.
  2:{ apply share_nonzero. subst selected. simpl. lia. }
  simpl. apply buy_each_total. by apply (well_priced_nonzero prices).
Qed.

Lemma two_pools_ok prices preferred avoided ps os pot1 pot2 limit pa oa :
  partition_stocks preferred avoided prices STOCKS = (ps, os) →
  bought prices pot1 (sort_by price ps) pa →
  bought prices pot2 (sort_by price os) oa →
  (pot1 + pot2 <= limit)%Q →
  allocation_ok prices limit (pa ++ oa).
Proof.
  intros Hpart Hpa Hoa Hle.
  apply partition_stocks_spec in Hpart as (_ & _ & Hsub).
  destruct (bought_app _ _ _ _ _ _ _ Hpa Hoa) as (S & P & H & V).
  eapply allocation_ok_intro; [apply STOCKS_NoDup | | done | done | exact V | done].
  etrans; [exact S|]. by rewrite !sort_by_perm.
Qed.

Lemma preference_weighted_ok ctx prices alloc :
  (0 < budget ctx)%Q →
  _preference_weighted ctx prices = Ret alloc →
  allocation_ok prices (budget ctx * 0.96) alloc.
Proof.
  intros Hb. unfold _preference_weighted.
  destruct (partition_stocks _ _ prices STOCKS) as [ps os] eqn:Hpart.
  pose proof (partition_stocks_spec _ _ _ _ _ _ Hpart) as (Hps & Hos & _).
  destruct (buy_preferred 3 _ _) as [pa|] eqn:Hpa; simpl; [|done].
  destruct (buy_others _ _) as [oa|] eqn:Hoa; simpl; [|done].
  intros [= <-].
  apply (buy_preferred_bought prices) in Hpa;
    [|lra | lia | by apply well_priced_sort].
  apply (buy_others_bought prices) in Hoa; [|lra | by apply well_priced_sort].
  eapply two_pools_ok; [done..|]. lra.
Qed.

Lemma preference_weighted_total ctx prices :
  nonzero_prices prices → ∃ alloc, _preference_weighted ctx prices = Ret alloc.
Proof.
  intros Hnz. unfold _preference_weighted.
  destruct (partition_stocks _ _ prices STOCKS) as [ps os] eqn:Hpart.
  pose proof (partition_stocks_spec _ _ _ _ _ _ Hpart) as (Hps & Hos & _).
  apply well_priced_sort in Hps, Hos.
  assert (Hp : ∃ pa, buy_preferred 3 (budget ctx * 0.60) (sort_by price ps) = Ret pa).
  { unfold buy_preferred. destruct (sort_by price ps) as [|s rest] eqn:E; [eauto|].
    rewrite <- E in *. rewrite py_div_nonzero.
    2:{ apply share_nonzero. rewrite E. simpl. lia. }
    simpl. apply buy_each_total. apply (well_priced_nonzero prices); [done|].
    eapply well_priced_submseteq; [apply submseteq_take | done]. }
  assert (Ho : ∃ oa, buy_others (budget ctx * 0.36) (sort_by price os) = Ret oa).
  { unfold buy_others. destruct (sort_by price os) as [|s rest] eqn:E; [eauto|].
    rewrite <- E in *. rewrite py_div_nonzero.
    2:{ apply share_nonzero. rewrite E. simpl. lia. }
    simpl. apply pick_others_total. by apply (well_priced_nonzero prices). }
  destruct Hp as [pa ->], Ho as [oa ->]. simpl. eauto.
Qed.

Lemma high_conviction_ok ctx prices alloc :
  (0 < budget ctx)%Q →
  _high_conviction ctx prices = Ret alloc →
  allocation_ok prices (budget ctx * 0.96) alloc.
Proof.
  intros Hb. unfold _high_conviction.
  destruct (partition_stocks _ _ prices STOCKS) as [ps os] eqn:Hpart.
  pose proof (partition_stocks_spec _ _ _ _ _ _ Hpart) as (Hps & Hos & _).
  destruct (buy_preferred 4 _ _) as [pa|] eqn:Hpa; simpl; [|done].
  destruct (buy_cheapest_other _ _) as [oa|] eqn:Hoa; simpl; [|done].
  intros [= <-].
  apply (buy_preferred_bought prices) in Hpa;
    [|lra | lia | by apply well_priced_sort].
  apply (buy_cheapest_other_bought prices) in Hoa;
    [|by apply well_priced_sort | lra].
  eapply two_pools_ok; [done..|]. lra.
Qed.

Lemma high_conviction_total ctx prices :
  nonzero_prices prices → ∃ alloc, _high_conviction ctx prices = Ret alloc.
Proof.
  intros Hnz. unfold _high_conviction.
  destruct (partition_stocks _ _ prices STOCKS) as [ps os] eqn:Hpart.
  pose proof (partition_stocks_spec _ _ _ _ _ _ Hpart) as (Hps & Hos & _).
  apply well_priced_sort in Hps, Hos.
  assert (Hp : ∃ pa, buy_preferred 4 (budget ctx * 0.80) (sort_by price ps) = Ret pa).
  { unfold buy_preferred. destruct (sort_by price ps) as [|s rest] eqn:E; [eauto|].
    rewrite <- E in *. rewrite py_div_nonzero.
    2:{ apply share_nonzero. rewrite E. simpl. lia. }
    simpl. apply buy_each_total. apply (well_priced_nonzero prices); [done|].
    eapply well_priced_submseteq; [apply submseteq_take | done]. }
  assert (Ho : ∃ oa,
    buy_cheapest_other (budget ctx * 0.16) (sort_by price os) = Ret oa).
  { unfold buy_cheapest_other.
    destruct (sort_by price os) as [|s rest] eqn:E; [eauto|].
    destruct (Qltb 0 (budget ctx * 0.16)); [|eauto].
    inversion Hos as [|? ? Hs _]; subst.
    destruct (shares_for_total (budget ctx * 0.16) s (Hnz _ _ Hs)) as [n ->].
    simpl. eauto. }
  destruct Hp as [pa ->], Ho as [oa ->]. simpl. eauto.
Qed.

Lemma allocation_ok_weaken prices limit limit' alloc :
  (limit <= limit')%Q →
  allocation_ok prices limit alloc → allocation_ok prices limit' alloc.
Proof.
  intros Hle (Hnd & Hpos & c & Hc & Hcl). repeat split; [done..|].
  exists c. split; [done | lra].
Qed.

(** C1: for every strategy tag, context with a positive budget and price
    map, an allocation returned by [build_portfolio] has no duplicate
    ticker, only positive share counts, and a total cost of at most
    [budget * 1.01]; and [build_portfolio] does return an allocation when
    no price of the map is zero. *)
Theorem build_portfolio_invariant (strategy : string) (ctx : context)
    (prices : gmap string Q) :
  (0 < budget ctx)%Q →
  (∀ alloc, build_portfolio strategy ctx prices = Ret alloc →
     NoDup (inv_ticker <$> alloc)
     ∧ Forall (λ inv, (0 < shares inv)%Z) alloc
     ∧ ∃ c, portfolio_cost alloc prices = Ret c ∧ (c <= budget ctx * 1.01)%Q)
  ∧ (nonzero_prices prices →
     ∃ alloc, build_portfolio strategy ctx prices = Ret alloc).
Proof.
  intros Hb. split.
  - intros alloc H.
    apply (allocation_ok_weaken prices (budget ctx * 0.96)); [lra|].
    unfold build_portfolio in H.
    repeat match type of H with
    | (if ?b then _ else _) = _ => destruct b
    end;
      [by apply diversification_ok | by apply preference_weighted_ok
      | by apply high_conviction_ok | by apply diversification_ok].
  - intros Hnz. unfold build_portfolio.
    repeat match goal with
    | |- ∃ _, (if ?b then _ else _) = _ => destruct b
    end;
      [by apply diversification_total | by apply preference_weighted_total
      | by apply high_conviction_total | by apply diversification_total].
Qed.

Lemma scenario_prices_nonzero : nonzero_prices scenario_prices.
Proof.
  intros t p H. unfold scenario_prices in H.
  apply lookup_insert_Some in H as [[_ <-]|[_ H]]; [done|].
  apply lookup_singleton_Some in H as [_ <-]. done.
Qed.

Example scenario_high_conviction :
  build_portfolio (select_strategy scenario_context) scenario_context
    scenario_prices = Ret [Investment "AAPL" 2].
Proof. vm_compute. reflexivity. Qed.

Example scenario_diversification :
  build_portfolio "diversification" scenario_context scenario_prices
  = Ret [Investment "WMT" 2; Investment "AAPL" 1].
Proof. vm_compute. reflexivity. Qed.

Example scenario_validated :
  validate_portfolio [Investment "AAPL" 2] 300
    (<["AAPL" := 100%float]> {["WMT" := 50%float]})
  = Ret (true, Low_budget_usage (200 / 300 * 100)).
Proof. vm_compute. reflexivity. Qed.

(** Topping up touches held tickers only: the 94 left under the target
    of 294 buy no further AAPL share; with WMT held and a budget of 1000,
    the 730 left buy fourteen more WMT shares. *)
Example scenario_optimized :
  optimize_budget_usage [Investment "AAPL" 2] 300 scenario_prices
  = Ret [Investment "AAPL" 2]
  ∧ optimize_budget_usage [Investment "AAPL" 2; Investment "WMT" 1] 1000
      scenario_prices
    = Ret [Investment "AAPL" 2; Investment "WMT" 15].
Proof. vm_compute. split; reflexivity. Qed.

Lemma build_portfolio_invariant_witness :
  ∃ alloc,
    build_portfolio "high_conviction" scenario_context scenario_prices = Ret alloc
    ∧ NoDup (inv_ticker <$> alloc)
    ∧ Forall (λ inv, (0 < shares inv)%Z) alloc
    ∧ ∃ c, portfolio_cost alloc scenario_prices = Ret c
           ∧ (c <= budget scenario_context * 1.01)%Q.
Proof.
  destruct (build_portfolio_invariant "high_conviction" scenario_context
              scenario_prices) as [Hinv Htotal].
  - unfold Qlt. simpl. lia.
  - destruct (Htotal scenario_prices_nonzero) as [alloc Halloc].
    exists alloc. split; [exact Halloc|]. by apply Hinv.
Defined.

(** ** The price cache *)

(** C5: [get_current_price] returns a price exactly when the ticker has an
    entry younger than [CACHE_TTL], and then it is the cached price and
    the hit counter goes up by one; otherwise (no entry, or an entry of
    age [CACHE_TTL] or more) it returns [None] and the miss counter goes
    up by one; the cached entries are left as they were and nothing is
    sent to the remote service. *)
Theorem get_current_price_hit_or_miss (now : Z) (t : string)
    (self : CacheManager) :
  let age cached := total_seconds (now - timestamp cached) in
  let result := get_current_price now t self in
  (∀ p, result.1 = Some p ↔
        ∃ cached, current_price_cache self !! t = Some cached
                  ∧ (age cached < CACHE_TTL)%Q ∧ quote_price cached = p)
  ∧ (result.1 = None ↔
       current_price_cache self !! t = None
       ∨ ∃ cached, current_price_cache self !! t = Some cached
                   ∧ (CACHE_TTL <= age cached)%Q)
  ∧ (is_Some result.1 →
       cache_hits result.2 = S (cache_hits self)
       ∧ cache_misses result.2 = cache_misses self)
  ∧ (result.1 = None →
       cache_misses result.2 = S (cache_misses self)
       ∧ cache_hits result.2 = cache_hits self)
  ∧ current_price_cache result.2 = current_price_cache self
  ∧ historical_price_cache result.2 = historical_price_cache self
  ∧ ∀ w, sent (with_cache result.2 w) = sent w
         ∧ stats (with_cache result.2 w) = stats w
         ∧ disk (with_cache result.2 w) = disk w.
Proof.
  intros age result. subst result. unfold get_current_price.
  destruct (current_price_cache self !! t) as [cached|] eqn:Hc.
  - fold (age cached).
    destruct (Qltb (age cached) CACHE_TTL) eqn:Hage; simpl.
    + apply Qltb_lt in Hage. split_and!; try done.
      * intros p. split.
        -- intros [= <-]. by exists cached.
        -- intros (c & [= <-] & _ & <-). done.
      * split; [done|]. intros [?|(c & [= <-] & Hold)]; [done|]. lra.
    + apply Qltb_ge in Hage. split_and!; try done.
      * intros p. split; [done|]. intros (c & [= <-] & Hyoung & _). lra.
      * split; [|done]. intros _. right. by exists cached.
  - simpl. split_and!; try done.
    + intros p. split; [done|]. by intros (c & ? & _).
    + split; [|done]. intros _. by left.
Qed.

Lemma get_current_price_hit_or_miss_witness :
  let self := mkCache {["AAPL" := Quote 100 0]} ∅ 0 0 in
  cache_hits (get_current_price 299999999 "AAPL" self).2 = 1%nat
  ∧ cache_misses (get_current_price 300000000 "AAPL" self).2 = 1%nat.
Proof.
  intros self. split.
  - apply (get_current_price_hit_or_miss 299999999 "AAPL" self).
    vm_compute. eauto.
  - apply (get_current_price_hit_or_miss 300000000 "AAPL" self).
    vm_compute. reflexivity.
Defined.

(** The failing input: rewriting a key that is already stored, in a
    region of ten entries, writes the cache file although the write is
    not a new one. *)
Lemma set_historical_price_overwrite_persists :
  ¬ (∀ now t date p self disk,
       writes (set_historical_price now t date p self disk).2 ≠ writes disk →
       historical_price_cache self !! (t, date) = None).
Proof.
  intros H.
  specialize (H 0%Z "AAPL" "2024-01-02" 2%Q (mkCache ∅ ten_entries 0 0)
                (Storage None 0)).
  assert (Hsome : ten_entries !! ("AAPL", "2024-01-02") = Some 1%Q)
    by (vm_compute; reflexivity).
  simpl in H. rewrite Hsome in H. discriminate H.
  vm_compute. discriminate.
Qed.

(** C7, what the code does: [set_historical_price] stores the price
    under [(ticker, date)] and writes the cache file exactly when the
    number of stored historical entries after the write is a multiple of
    ten; a write under a new key raises that number by one. The comment of
    the source announces a save on every tenth new price: the test on the
    number of entries also fires when a stored key is written again. *)
Theorem set_historical_price_persistence (now : Z) (t date : string) (p : Q)
    (self : CacheManager) (disk : storage) :
  let result := set_historical_price now t date p self disk in
  let entries := size (historical_price_cache result.1) in
  historical_price_cache result.1 = <[(t, date) := p]> (historical_price_cache self)
  ∧ historical_price_cache result.1 !! (t, date) = Some p
  ∧ (entries mod 10 = 0%nat →
       result.2 = save_to_file now result.1 disk
       ∧ writes result.2 = S (writes disk))
  ∧ (entries mod 10 ≠ 0%nat → result.2 = disk)
  ∧ (historical_price_cache self !! (t, date) = None →
       entries = S (size (historical_price_cache self))).
Proof.
  intros result entries. subst entries result. unfold set_historical_price.
  cbn [historical_price_cache].
  destruct (Nat.eqb_spec
              (size (<[(t, date) := p]> (historical_price_cache self)) mod 10) 0)
    as [Heq|Hne]; cbn [fst snd historical_price_cache].
  - repeat split; try done.
    + apply lookup_insert_eq.
    + intros Hnew. by apply map_size_insert_None.
  - repeat split; try done.
    + apply lookup_insert_eq.
    + intros Hnew. by apply map_size_insert_None.
Qed.

Lemma set_historical_price_persistence_witness :
  let self := mkCache ∅ (delete ("AAPL", "2024-01-02") ten_entries) 0 0 in
  writes (set_historical_price 0 "AAPL" "2024-01-02" 2 self (Storage None 0)).2
  = 1%nat
  ∧ (set_historical_price 0 "MSFT" "2024-01-02" 2 self (Storage None 0)).2
    = Storage None 0.
Proof.
  intros self. split.
  - apply (set_historical_price_persistence 0 "AAPL" "2024-01-02" 2 self
             (Storage None 0)).
    vm_compute. reflexivity.
  - apply (set_historical_price_persistence 0 "MSFT" "2024-01-02" 2 self
             (Storage None 0)).
    vm_compute. discriminate.
Defined.

(** ** Persistence of the historical region *)

Example str_split_examples :
  str_split separator "AAPL|2024-01-02" = ["AAPL"; "2024-01-02"]
  ∧ str_split separator EmptyString = [EmptyString]
  ∧ str_split separator "a|b|c" = ["a"; "b"; "c"]
  ∧ str_split separator "BRK.B" = ["BRK.B"].
Proof. repeat split; reflexivity. Qed.

Lemma str_split_clean sep s : occurs sep s = false → str_split sep s = [s].
Proof.
  induction s as [|c rest IH]; simpl; [done|].
  intros H. apply orb_false_iff in H as [Hc Hrest].
  rewrite Hc, (IH Hrest). done.
Qed.

Lemma str_split_key sep t date :
  occurs sep t = false → occurs sep date = false →
  str_split sep (t ++ String sep date)%string = [t; date].
Proof.
  intros Ht Hd. induction t as [|c rest IH]; simpl.
  - rewrite Ascii.eqb_refl, (str_split_clean _ _ Hd). done.
  - simpl in Ht. apply orb_false_iff in Ht as [Hc Hrest].
    rewrite Hc, (IH Hrest). done.
Qed.

Lemma decode_key_str k : clean_key k → decode_key (key_str k.1 k.2) = k.
Proof.
  intros [Ht Hd]. unfold decode_key, key_str.
  rewrite (str_split_key _ _ _ Ht Hd). by destruct k.
Qed.

Lemma decode_encode_item item :
  clean_key item.1 → decode_item (encode_item item) = item.
Proof.
  intros Hk. unfold decode_item, encode_item. simpl.
  rewrite (decode_key_str _ Hk). by destruct item.
Qed.

(** Inserting the pairs of a list with distinct keys one after the other
    builds the map of the list. *)
Lemma foldl_insert_distinct `{Countable K} {V} (l : list (K * V))
    (acc : gmap K V) :
  NoDup l.*1 →
  foldl (λ m kv, <[kv.1 := kv.2]> m) acc l = list_to_map l ∪ acc.
Proof.
  revert acc. induction l as [|[k v] l IH]; simpl; intros acc Hnd.
  - by rewrite (left_id_L ∅ (∪)).
  - apply NoDup_cons in Hnd as [Hk Hnd]. rewrite (IH _ Hnd).
    rewrite <- insert_union_r by by apply not_elem_of_list_to_map_1.
    by rewrite insert_union_l.
Qed.

Lemma historical_dict_fold (items : list (string * string * Q))
    (acc : gmap string Q) :
  foldl (λ acc '((ticker, date), p), <[key_str ticker date := p]> acc) acc items
  = foldl (λ m kv, <[kv.1 := kv.2]> m) acc (encode_item <$> items).
Proof.
  revert acc. induction items as [|[[t d] p] items IH]; simpl; intros acc; [done|].
  apply IH.
Qed.

Lemma load_items_fold (items : list (string * Q))
    (cache : gmap (string * string) Q) :
  Forall (λ item, ∃ k, clean_key k ∧ item.1 = key_str k.1 k.2) items →
  load_items items cache
  = foldl (λ m kv, <[kv.1 := kv.2]> m) cache (decode_item <$> items).
Proof.
  intros Hall. revert cache.
  induction Hall as [|[k p] items (key & Hclean & Hk) Hrest IH]; simpl;
    intros cache; [done|].
  simpl in Hk. subst k. destruct Hclean as [Ht Hd].
  unfold decode_item, decode_key, key_str. simpl.
  rewrite (str_split_key _ _ _ Ht Hd). apply IH.
Qed.

Lemma encode_items_distinct (cache : gmap (string * string) Q) :
  (∀ k p, cache !! k = Some p → clean_key k) →
  NoDup (encode_item <$> map_to_list cache).*1.
Proof.
  intros Hclean.
  rewrite <- list_fmap_compose.
  apply NoDup_fmap_2_strong; [|apply NoDup_map_to_list].
  intros [k1 p1] [k2 p2] H1 H2 Heq.
  apply elem_of_map_to_list in H1, H2.
  unfold encode_item in Heq. simpl in Heq.
  assert (Hk : k1 = k2).
  { rewrite <- (decode_key_str k1), <- (decode_key_str k2) by eauto.
    by rewrite Heq. }
  subst k2. rewrite H1 in H2. by injection H2 as ->.
Qed.

(** The parsed cache file holds exactly the encoded entries. *)
Lemma historical_dict_list (cache : gmap (string * string) Q) :
  (∀ k p, cache !! k = Some p → clean_key k) →
  historical_dict cache = list_to_map (encode_item <$> map_to_list cache).
Proof.
  intros Hclean. unfold historical_dict.
  rewrite historical_dict_fold, foldl_insert_distinct
    by by apply encode_items_distinct.
  by rewrite (right_id_L ∅ (∪)).
Qed.

Lemma load_saved (cache : gmap (string * string) Q) :
  (∀ k p, cache !! k = Some p → clean_key k) →
  load_items (map_to_list (historical_dict cache)) ∅ = cache.
Proof.
  intros Hclean.
  pose proof (encode_items_distinct cache Hclean) as Hnd.
  assert (Hperm : map_to_list (historical_dict cache)
                  ≡ₚ encode_item <$> map_to_list cache).
  { rewrite historical_dict_list by done. by apply map_to_list_to_map. }
  assert (Hitems : Forall (λ item, clean_key item.1) (map_to_list cache)).
  { apply Forall_forall. intros [k p] Hin.
    apply elem_of_map_to_list in Hin. eauto. }
  assert (Hdec : decode_item <$> map_to_list (historical_dict cache)
                 ≡ₚ map_to_list cache).
  { rewrite Hperm, <- list_fmap_compose.
    rewrite (Forall_fmap_ext_1 (decode_item ∘ encode_item) id);
      [by rewrite list_fmap_id|].
    eapply Forall_impl; [exact Hitems|]. intros item Hk.
    by apply decode_encode_item. }
  rewrite load_items_fold.
  - rewrite foldl_insert_distinct.
    + rewrite (right_id_L ∅ (∪)).
      rewrite (list_to_map_proper _ (map_to_list cache)); [| |exact Hdec].
      * apply list_to_map_to_list.
      * rewrite Hdec. apply NoDup_fst_map_to_list.
    + rewrite Hdec. apply NoDup_fst_map_to_list.
  - rewrite Hperm. apply Forall_fmap. eapply Forall_impl; [exact Hitems|].
    intros item Hk. exists item.1. by split.
Qed.

(** C6: when no stored ticker or date contains ['|'], saving the
    historical region and building a fresh [CacheManager] from the saved
    file gives back the same [(ticker, date)] to price mapping; and with no
    cache file at all the fresh cache starts empty. *)
Theorem historical_cache_round_trip (now : Z) (self : CacheManager)
    (disk : storage) :
  ((∀ t date p, historical_price_cache self !! (t, date) = Some p →
      occurs separator t = false ∧ occurs separator date = false) →
   historical_price_cache (new_cache (save_to_file now self disk))
   = historical_price_cache self)
  ∧ (file disk = None → new_cache disk = mkCache ∅ ∅ 0 0).
Proof.
  split.
  - intros Hclean. unfold new_cache, load_from_file, save_to_file. simpl.
    apply load_saved. intros [t date] p Hp. by eapply Hclean.
  - intros Hnone. unfold new_cache, load_from_file. by rewrite Hnone.
Qed.

Lemma historical_cache_round_trip_witness :
  historical_price_cache
    (new_cache (save_to_file 0 (mkCache ∅ ten_entries 0 0) (Storage None 0)))
  = ten_entries
  ∧ new_cache (Storage None 0) = mkCache ∅ ∅ 0 0.
Proof.
  split.
  - apply (historical_cache_round_trip 0 (mkCache ∅ ten_entries 0 0)
             (Storage None 0)).
    intros t date p Hp. simpl in Hp.
    apply elem_of_list_to_map_2 in Hp.
    repeat (apply elem_of_cons in Hp as [[= -> -> _]|Hp];
            [by vm_compute|]).
    by apply elem_of_nil in Hp.
  - by apply (historical_cache_round_trip 0 (mkCache ∅ ten_entries 0 0)
                (Storage None 0)).
Defined.

(** ** The retry executor *)

(** C2, what the code does: when every attempt fails with a timeout or a
    connection error, [_api_call_with_retry] makes [MAX_RETRIES] = 3
    attempts in all, so only two retries, sleeping 1 and 2 seconds; the
    third failure ends the call with [None], one failure counted. The
    third retry and the wait of 4 seconds that the comments of the source
    announce never happen. *)
Theorem retry_exhausted_after_two_retries {A : Type}
    (func : world → outcome A * world) (w : world) :
  keeps_accounts func →
  (∀ w', transient (func w').1) →
  let result := _api_call_with_retry func w in
  result.1 = None
  ∧ total_calls (stats result.2) = (total_calls (stats w) + 3)%nat
  ∧ retries (stats result.2) = (retries (stats w) + 2)%nat
  ∧ failures (stats result.2) = (failures (stats w) + 1)%nat
  ∧ slept result.2 = slept w ++ [1%Z; 2%Z].
Proof.
  intros Hkeep Hfail result. subst result.
  unfold _api_call_with_retry, MAX_RETRIES. simpl seq.
  assert (Hstep : ∀ (attempt : nat) rest w0,
    retry_loop func (attempt :: rest) w0
    = if (attempt <? 3 - 1)%nat
      then retry_loop func rest
             (sleep (RETRY_BASE_DELAY * 2 ^ Z.of_nat attempt)%Z
                (count_retry (func (count_call w0)).2))
      else (None, count_failure (func (count_call w0)).2)).
  { intros attempt rest w0. simpl.
    destruct (func (count_call w0)) as [r w1] eqn:E.
    pose proof (Hfail (count_call w0)) as Ht. rewrite E in Ht. simpl in Ht.
    destruct Ht as [-> | ->]; reflexivity. }
  rewrite !Hstep. simpl Nat.ltb. cbv iota. cbn [fst snd].
  set (w1 := func (count_call w)).
  set (w2 := func (count_call (sleep _ (count_retry w1.2)))).
  set (w3 := func (count_call (sleep _ (count_retry w2.2)))).
  destruct (Hkeep (count_call w)) as [S1 L1]. fold w1 in S1, L1.
  destruct (Hkeep (count_call (sleep (RETRY_BASE_DELAY * 2 ^ Z.of_nat 0)%Z
                                 (count_retry w1.2)))) as [S2 L2].
  fold w2 in S2, L2.
  destruct (Hkeep (count_call (sleep (RETRY_BASE_DELAY * 2 ^ Z.of_nat 1)%Z
                                 (count_retry w2.2)))) as [S3 L3].
  fold w3 in S3, L3.
  simpl in *. rewrite S3, L3, S2, L2, S1, L1. simpl.
  rewrite <- app_assoc. simpl.
  split_and!; try done; lia.
Qed.

Lemma retry_exhausted_after_two_retries_witness :
  let w := World (mkCache ∅ ∅ 0 0) (Stats 0 0 0) (Storage None 0) 0 [] [] in
  let result := _api_call_with_retry (λ w, (@Timeout nat, w)) w in
  result.1 = None
  ∧ total_calls (stats result.2) = 3%nat
  ∧ retries (stats result.2) = 2%nat
  ∧ failures (stats result.2) = 1%nat
  ∧ slept result.2 = [1%Z; 2%Z].
Proof.
  intros w.
  apply (retry_exhausted_after_two_retries (λ w, (@Timeout nat, w)) w).
  - intros w'. by split.
  - intros w'. by left.
Defined.

(** ** Many-ticker fetch *)




Section Guarded.

Context {A : Type} (req : request) (func : world → outcome A * world).
Hypothesis Hsend : sends req func.

Lemma guarded_effect_once (w w1 : world) (bound : nat) (r : option A) :
  (1 <= bound)%nat →
  sent w1 = sent w ++ [req] → cache w1 = cache w → disk w1 = disk w →
  (∀ a, r = Some a → ∃ w', (func w').1 = Ok a) →
  guarded_effect req func w bound (r, w1).
Proof.
  intros Hb Hs Hc Hd Hr. exists 1%nat. simpl. split_and!; try done; try lia.
  intros Hnever. destruct r as [a|]; [|done].
  destruct (Hr a eq_refl) as [w' Hw']. by apply Hnever in Hw'.
Qed.

Lemma retry_loop_effect (attempts : list nat) (w : world) :
  attempts ≠ [] →
  guarded_effect req func w (length attempts) (retry_loop func attempts w).
Proof.
  revert w. induction attempts as [|attempt rest IH]; intros w Hne; [done|].
  cbn [retry_loop length].
  pose proof (Hsend (count_call w)) as Hw.
  destruct (func (count_call w)) as [r w1] eqn:E. cbn [snd] in Hw.
  assert (Hs : sent w1 = sent w ++ [req]) by (by subst w1).
  assert (Hc : cache w1 = cache w) by (by subst w1).
  assert (Hd : disk w1 = disk w) by (by subst w1).
  clear Hw.
  assert (Hretry : transient r →
    guarded_effect req func w (S (length rest))
      (if (attempt <? MAX_RETRIES - 1)%nat
       then retry_loop func rest
              (sleep (RETRY_BASE_DELAY * 2 ^ Z.of_nat attempt)%Z (count_retry w1))
       else (None, count_failure w1))).
  { intros Hr. destruct (attempt <? MAX_RETRIES - 1)%nat.
    - set (w2 := sleep (RETRY_BASE_DELAY * 2 ^ Z.of_nat attempt)%Z (count_retry w1)).
      assert (Hs2 : sent w2 = sent w1) by reflexivity.
      assert (Hc2 : cache w2 = cache w1) by reflexivity.
      assert (Hd2 : disk w2 = disk w1) by reflexivity.
      clearbody w2.
      destruct rest as [|attempt' rest'].
      + cbn [retry_loop].
        apply guarded_effect_once;
          [simpl; lia | congruence | congruence | congruence | done].
      + destruct (IH w2 ltac:(done))
          as (n & Hs' & Hlen & Hc' & Hd' & _ & Hnone & Hsome).
        exists (S n). split_and!; try done.
        * rewrite Hs', Hs2, Hs, <- app_assoc. done.
        * lia.
        * lia.
        * congruence.
        * congruence.
        * intros Hrel. exfalso. apply (Hrel (count_call w)). by rewrite E.
    - apply guarded_effect_once; simpl; try done; lia. }
  destruct r as [a| | |].
  - apply guarded_effect_once; simpl; try done; [lia|].
    intros a' [= <-]. exists (count_call w). by rewrite E.
  - apply Hretry. by left.
  - apply Hretry. by right.
  - apply guarded_effect_once; simpl; try done; lia.
Qed.

End Guarded.

Lemma set_historical_price_cache now t date p c d :
  historical_price_cache (set_historical_price now t date p c d).1
  = <[(t, date) := p]> (historical_price_cache c).
Proof.
  unfold set_historical_price.
  by destruct (size _ mod 10 =? 0)%nat.
Qed.

Lemma get_current_price_fresh now t c :
  (get_current_price now t c).1 = fresh_price now (current_price_cache c) t
  ∧ current_price_cache (get_current_price now t c).2 = current_price_cache c.
Proof.
  unfold get_current_price, fresh_price.
  destruct (current_price_cache c !! t) as [cached|]; [|done].
  by destruct (Qltb _ CACHE_TTL).
Qed.

Lemma check_current_spec tickers prices need w :
  (check_current tickers prices need w).1.2
  = need ++ List.filter (stale (clock w) (current_price_cache (cache w))) tickers
  ∧ sent (check_current tickers prices need w).2 = sent w
  ∧ (∀ t, t ∈ tickers →
       (check_current tickers prices need w).1.1 !! t
       = match fresh_price (clock w) (current_price_cache (cache w)) t with
         | Some p => Some p
         | None => prices !! t
         end)
  ∧ (∀ t, t ∉ tickers →
       (check_current tickers prices need w).1.1 !! t = prices !! t).
Proof.
  revert prices need w.
  induction tickers as [|x rest IH]; intros prices need w.
  { simpl. rewrite app_nil_r. split_and!; try done. intros t Hin.
    by apply elem_of_nil in Hin. }
  cbn [check_current List.filter]. unfold stale at 1.
  destruct (get_current_price_fresh (clock w) x (cache w)) as [Hfst Hmap].
  destruct (get_current_price (clock w) x (cache w)) as [r c].
  cbn [fst snd] in Hfst, Hmap. rewrite <- Hfst.
  set (w1 := with_cache c w).
  assert (Hclock : clock w1 = clock w) by reflexivity.
  assert (Hcur : current_price_cache (cache w1) = current_price_cache (cache w))
    by exact Hmap.
  assert (Hsent : sent w1 = sent w) by reflexivity.
  clearbody w1.
  destruct r as [px|].
  - rewrite bool_decide_eq_false_2 by done.
    destruct (IH (<[x := px]> prices) need w1) as (H1 & H2 & H3 & H4).
    rewrite Hclock, Hcur in H1, H3. split_and!; try congruence.
    + intros t Hin. destruct (decide (t ∈ rest)) as [Hr|Hr].
      * rewrite (H3 t Hr).
        destruct (fresh_price (clock w) (current_price_cache (cache w)) t)
          eqn:Ht; [done|].
        apply lookup_insert_ne. intros ->. congruence.
      * apply elem_of_cons in Hin as [->|?]; [|done].
        rewrite (H4 x Hr), lookup_insert_eq, <- Hfst. done.
    + intros t Hout. rewrite not_elem_of_cons in Hout. destruct Hout as [Hne Hout].
      rewrite (H4 t Hout). by apply lookup_insert_ne.
  - rewrite bool_decide_eq_true_2 by done.
    destruct (IH prices (need ++ [x]) w1) as (H1 & H2 & H3 & H4).
    rewrite Hclock, Hcur in H1, H3. split_and!; try congruence.
    + rewrite H1, <- app_assoc. done.
    + intros t Hin. destruct (decide (t ∈ rest)) as [Hr|Hr]; [by apply H3|].
      apply elem_of_cons in Hin as [->|?]; [|done].
      rewrite (H4 x Hr), <- Hfst. done.
    + intros t Hout. rewrite not_elem_of_cons in Hout. destruct Hout as [Hne Hout].
      by apply H4.
Qed.



Section ClientFacts.

Context (quotes_api : nat → list string → outcome (list quote_item)).
Context (history_api : nat → string → Z → Z → outcome (list bar)).
Context (day_bounds : string → option (Z * Z)).
Context (schedule : list string → list string).

Lemma fetch_history_sends t start stop :
  sends (History t start stop) (fetch_history history_api t start stop).
Proof. intros w. reflexivity. Qed.

Lemma fetch_quotes_sends need_fetch :
  sends (Quotes need_fetch) (fetch_quotes quotes_api need_fetch).
Proof. intros w. reflexivity. Qed.


Lemma check_historical_spec tickers date prices need w :
  (check_historical tickers date prices need w).1.2
  = need ++ List.filter (missing (cache w) date) tickers
  ∧ sent (check_historical tickers date prices need w).2 = sent w
  ∧ historical_price_cache (cache (check_historical tickers date prices need w).2)
    = historical_price_cache (cache w)
  ∧ (∀ t p, t ∈ tickers →
       historical_price_cache (cache w) !! (t, date) = Some p →
       (check_historical tickers date prices need w).1.1 !! t = Some p)
  ∧ (∀ t, t ∉ tickers ∨ historical_price_cache (cache w) !! (t, date) = None →
       (check_historical tickers date prices need w).1.1 !! t = prices !! t).
Proof.
  revert prices need w.
  induction tickers as [|x rest IH]; intros prices need w.
  { simpl. rewrite app_nil_r. split_and!; try done. intros t p Hin.
    by apply elem_of_nil in Hin. }
  cbn [check_historical List.filter]. unfold get_historical_price, missing.
  destruct (historical_price_cache (cache w) !! (x, date)) as [px|] eqn:Hx.
  - rewrite bool_decide_eq_false_2 by done.
    match goal with
    | |- context [check_historical rest date ?pr ?nd ?w0] =>
        destruct (IH pr nd w0) as (H1 & H2 & H3 & H4 & H5)
    end.
    cbn [cache with_cache historical_price_cache sent] in *.
    split_and!; try done.
    + intros t p Hin Hp. destruct (decide (t ∈ rest)) as [Hr|Hr].
      * by apply H4.
      * apply elem_of_cons in Hin as [->|?]; [|done].
        rewrite H5 by by left. rewrite lookup_insert_eq. congruence.
    + intros t Ht. rewrite H5.
      * apply lookup_insert_ne. intros ->. destruct Ht as [Ht|Ht].
        -- apply Ht. by left.
        -- congruence.
      * destruct Ht as [Ht|Ht]; [left|by right].
        intros Hr. apply Ht. by right.
  - rewrite bool_decide_eq_true_2 by done.
    match goal with
    | |- context [check_historical rest date ?pr ?nd ?w0] =>
        destruct (IH pr nd w0) as (H1 & H2 & H3 & H4 & H5)
    end.
    cbn [cache with_cache historical_price_cache sent] in *.
    split_and!; try done.
    + rewrite H1, <- app_assoc. done.
    + intros t p Hin Hp. apply elem_of_cons in Hin as [->|?]; [congruence|].
      by apply H4.
    + intros t Ht. apply H5. destruct Ht as [Ht|Ht]; [left|by right].
      intros Hr. apply Ht. by right.
Qed.


Lemma missing_spec c date t :
  missing c date t = true ↔ historical_price_cache c !! (t, date) = None.
Proof. unfold missing. apply bool_decide_eq_true. Qed.




End ClientFacts.


Example fifteen_history_requests :
  length (sent (get_historical_prices_concurrent history_at_seven
                  (λ _, Some (0, 86400)%Z) (λ l, l)
                  twenty_tickers "2024-01-02" five_cached).2) = 15%nat
  ∧ size (get_historical_prices_concurrent history_at_seven
            (λ _, Some (0, 86400)%Z) (λ l, l)
            twenty_tickers "2024-01-02" five_cached).1 = 20%nat.
Proof. vm_compute. split; reflexivity. Qed.


(** ** What the strategies buy *)

Lemma buy_each_tickers per pool alloc :
  buy_each per pool = Ret alloc →
  inv_ticker <$> alloc ⊆+ pticker <$> pool.
Proof.
  revert alloc. induction pool as [|s rest IH]; simpl; intros alloc H.
  - by injection H as <-.
  - destruct (shares_for per s) as [n|]; simpl in H; [|done].
    destruct (buy_each per rest) as [tl|]; simpl in H; [|done].
    injection H as <-. specialize (IH tl eq_refl).
    destruct (0 <? n)%Z; simpl; [by apply submseteq_skip | by apply submseteq_cons].
Qed.

Lemma pick_others_tickers target per pool selected counts out :
  pick_others target per pool selected counts = Ret out →
  ∃ extra, out = selected ++ extra
    ∧ inv_ticker <$> extra ⊆+ pticker <$> pool
    ∧ ((length selected <= target)%nat → (length out <= target)%nat).
Proof.
  revert selected counts out.
  induction pool as [|s rest IH]; simpl; intros selected counts out H.
  - injection H as <-. exists []. rewrite app_nil_r. done.
  - destruct (Nat.leb_spec target (length selected)) as [Hfull|Hroom].
    { injection H as <-. exists []. rewrite app_nil_r.
      split_and!; [done | apply submseteq_nil_l | done]. }
    destruct (sector_count counts (sector (base s)) <? 1)%Z.
    + destruct (shares_for per s) as [n|]; simpl in H; [|done].
      destruct (0 <? n)%Z.
      * apply IH in H as (extra & -> & Hsub & Hlen).
        exists (Investment (pticker s) n :: extra).
        rewrite <- app_assoc. split_and!; [done | | ].
        -- simpl. by apply submseteq_skip.
        -- intros _. rewrite app_assoc. apply Hlen.
           rewrite length_app. simpl. lia.
      * apply IH in H as (extra & -> & Hsub & Hlen).
        exists extra. split_and!; [done | by apply submseteq_cons | done].
    + apply IH in H as (extra & -> & Hsub & Hlen).
      exists extra. split_and!; [done | by apply submseteq_cons | done].
Qed.

Lemma select_diverse_length target max_per candidates selected counts :
  (length (select_diverse target max_per candidates selected counts)
   <= Nat.max (length selected) target)%nat.
Proof.
  revert selected counts.
  induction candidates as [|s rest IH]; simpl; intros selected counts; [lia|].
  destruct (Nat.leb_spec target (length selected)); [lia|].
  destruct (sector_count counts (sector (base s)) <? max_per)%Z.
  - etrans; [apply IH|]. rewrite length_app. simpl. lia.
  - etrans; [apply IH|]. lia.
Qed.

Lemma partition_stocks_filter preferred avoided prices stocks :
  partition_stocks preferred avoided prices stocks
  = (filter (λ s, sector (base s) ∈ preferred) (candidates_of avoided prices stocks),
     filter (λ s, sector (base s) ∉ preferred) (candidates_of avoided prices stocks)).
Proof.
  unfold candidates_of.
  induction stocks as [|s rest IH]; simpl; [done|].
  rewrite IH. clear IH.
  destruct (prices !! ticker s) as [p|]; [|done].
  destruct (decide (sector s ∈ avoided)) as [Ha|Ha].
  - rewrite (bool_decide_eq_true_2 _ Ha).
    rewrite bool_decide_eq_false_2 by (intros H; by apply H). done.
  - rewrite (bool_decide_eq_false_2 _ Ha), (bool_decide_eq_true_2 _ Ha). simpl.
    destruct (decide (sector s ∈ preferred)) as [Hp|Hp].
    + rewrite (bool_decide_eq_true_2 _ Hp).
      rewrite filter_cons_True by done.
      rewrite filter_cons_False by (simpl; intros H; by apply H). done.
    + rewrite (bool_decide_eq_false_2 _ Hp).
      rewrite filter_cons_False by done.
      rewrite filter_cons_True by done. done.
Qed.

Lemma candidates_of_allowed avoided prices stocks s :
  s ∈ candidates_of avoided prices stocks →
  (base s ∈ stocks) ∧ (sector (base s) ∉ avoided)
  ∧ prices !! pticker s = Some (price s).
Proof.
  unfold candidates_of. rewrite list_elem_of_omap.
  intros (x & Hx & Hs).
  destruct (prices !! ticker x) as [p|] eqn:Hp; [|done].
  destruct (decide (sector x ∉ avoided)) as [Ha|Ha].
  - rewrite (bool_decide_eq_true_2 _ Ha) in Hs. injection Hs as <-. done.
  - rewrite (bool_decide_eq_false_2 _ Ha) in Hs. done.
Qed.

(** The tickers of the positions a block buys, as a sub-multiset of the
    tickers of its pool, and how many positions it can hold. *)
Lemma buy_preferred_tickers limit pot pool alloc :
  buy_preferred limit pot pool = Ret alloc →
  inv_ticker <$> alloc ⊆+ pticker <$> pool ∧ (length alloc <= limit)%nat.
Proof.
  unfold buy_preferred. intros H.
  destruct pool as [|s rest] eqn:Hpool.
  { injection H as <-. split; [done | simpl; lia]. }
  rewrite <- Hpool in *.
  destruct (py_div _ _) as [per|]; simpl in H; [|done].
  apply buy_each_tickers in H. split.
  - etrans; [exact H|]. apply fmap_submseteq, submseteq_take.
  - apply submseteq_length in H. rewrite !length_fmap, length_take in H. lia.
Qed.

Lemma buy_others_tickers pot pool alloc :
  buy_others pot pool = Ret alloc →
  inv_ticker <$> alloc ⊆+ pticker <$> pool ∧ (length alloc <= 3)%nat.
Proof.
  unfold buy_others. intros H.
  destruct pool as [|s rest] eqn:Hpool.
  { injection H as <-. split; [done | simpl; lia]. }
  rewrite <- Hpool in *.
  destruct (py_div _ _) as [per|]; simpl in H; [|done].
  apply pick_others_tickers in H as (extra & -> & Hsub & Hlen).
  change ([] ++ extra) with extra in *. split; [done|].
  assert (Hmin : (Nat.min 3 (length pool) <= 3)%nat) by apply Nat.le_min_l.
  etrans; [apply Hlen; cbn [length]; lia | exact Hmin].
Qed.

Lemma buy_cheapest_other_tickers pot pool alloc :
  buy_cheapest_other pot pool = Ret alloc →
  inv_ticker <$> alloc ⊆+ pticker <$> pool ∧ (length alloc <= 1)%nat.
Proof.
  unfold buy_cheapest_other. intros H.
  destruct pool as [|s rest]; [injection H as <-; split; [done | simpl; lia]|].
  destruct (Qltb 0 pot);
    [|injection H as <-; split; [apply submseteq_nil_l | simpl; lia]].
  destruct (shares_for pot s) as [n|]; simpl in H; [|done].
  injection H as <-. destruct (0 <? n)%Z; simpl.
  - split; [apply submseteq_skip, submseteq_nil_l | lia].
  - split; [apply submseteq_nil_l | lia].
Qed.

Lemma two_pools_tickers (P : priced → Prop) `{∀ s, Decision (P s)}
    (pool : list priced) pa oa :
  inv_ticker <$> pa ⊆+ pticker <$> sort_by price (filter P pool) →
  inv_ticker <$> oa ⊆+ pticker <$> sort_by price (filter (λ s, ¬ P s) pool) →
  inv_ticker <$> pa ++ oa ⊆+ pticker <$> pool.
Proof.
  intros Hpa Hoa. rewrite fmap_app.
  rewrite <- (filter_app_complement P pool), fmap_app.
  apply submseteq_app.
  - by rewrite sort_by_perm in Hpa.
  - by rewrite sort_by_perm in Hoa.
Qed.

Lemma diversification_selected ctx prices alloc :
  _diversification ctx prices = Ret alloc →
  ∃ selected,
    selected `sublist_of` sort_by price (pool_of ctx prices)
    ∧ selected
      = select_diverse (target_stocks_for (budget ctx))
          (max_per_sector_for (budget ctx))
          (sort_by price (pool_of ctx prices)) [] ∅
    ∧ inv_ticker <$> alloc ⊆+ pticker <$> selected.
Proof.
  unfold _diversification, max_per_sector_for, target_stocks_for.
  set (candidates := sort_by price _).
  set (target := if Qltb (budget ctx) 100 then 3%nat
                 else if Qltb (budget ctx) 500 then 5%nat else 7%nat).
  destruct (select_diverse_spec target (Z.max 2 (Z.of_nat target / 2))
              candidates [] ∅) as (selected & Hsel & Hsub).
  simpl app in Hsel. rewrite Hsel.
  intros H. exists selected. split; [done|]. split; [done|].
  destruct selected as [|s rest] eqn:E; [by injection H as <-|].
  rewrite <- E in *.
  destruct (py_div _ _) as [per|]; simpl in H; [|done].
  by apply buy_each_tickers in H.
Qed.

Lemma partition_stocks_pools (preferred avoided : gset string) prices stocks
    ps os :
  partition_stocks preferred avoided prices stocks = (ps, os) →
  ∀ pa oa,
    inv_ticker <$> pa ⊆+ pticker <$> sort_by price ps →
    inv_ticker <$> oa ⊆+ pticker <$> sort_by price os →
    inv_ticker <$> pa ++ oa ⊆+ pticker <$> candidates_of avoided prices stocks.
Proof.
  intros Hpart pa oa Hpa Hoa.
  rewrite partition_stocks_filter in Hpart. injection Hpart as <- <-.
  exact (two_pools_tickers (λ s, sector (base s) ∈ preferred) _ pa oa Hpa Hoa).
Qed.

(** Reduce a [bind] whose first computation is known, leaving the universe
    folded. *)
Ltac bind_step := unfold mbind, res_bind; cbv beta iota.

Lemma build_portfolio_pool strategy ctx prices alloc :
  build_portfolio strategy ctx prices = Ret alloc →
  inv_ticker <$> alloc ⊆+ pticker <$> pool_of ctx prices.
Proof.
  assert (Hdiv : _diversification ctx prices = Ret alloc →
            inv_ticker <$> alloc ⊆+ pticker <$> pool_of ctx prices).
  { intros H. apply diversification_selected in H as (sel & Hsub & _ & Hal).
    etrans; [exact Hal|]. etrans; [apply fmap_submseteq, sublist_submseteq, Hsub|].
    by rewrite sort_by_perm. }
  unfold build_portfolio.
  destruct (String.eqb strategy "diversification"); [exact Hdiv|].
  destruct (String.eqb strategy "preference_weighted").
  { unfold _preference_weighted.
    destruct (partition_stocks _ _ prices STOCKS) as [ps os] eqn:Hpart.
    destruct (buy_preferred 3 _ _) as [pa|] eqn:Hpa; bind_step;
      [|discriminate].
    destruct (buy_others _ _) as [oa|] eqn:Hoa; bind_step; [|discriminate].
    intros [= <-]. apply buy_preferred_tickers in Hpa as [Hpa _].
    apply buy_others_tickers in Hoa as [Hoa _].
    exact (partition_stocks_pools _ _ _ STOCKS _ _ Hpart pa oa Hpa Hoa). }
  destruct (String.eqb strategy "high_conviction"); [|exact Hdiv].
  unfold _high_conviction.
  destruct (partition_stocks _ _ prices STOCKS) as [ps os] eqn:Hpart.
  destruct (buy_preferred 4 _ _) as [pa|] eqn:Hpa; bind_step; [|discriminate].
  destruct (buy_cheapest_other _ _) as [oa|] eqn:Hoa; bind_step; [|discriminate].
  intros [= <-]. apply buy_preferred_tickers in Hpa as [Hpa _].
  apply buy_cheapest_other_tickers in Hoa as [Hoa _].
  exact (partition_stocks_pools _ _ _ STOCKS _ _ Hpart pa oa Hpa Hoa).
Qed.

(** X1: whatever the strategy, every position of a returned allocation is a
    stock of the universe that has a price in the map and whose sector the
    client does not avoid. *)
Theorem build_portfolio_buys_allowed_stocks (strategy : string) (ctx : context)
    (prices : gmap string Q) (alloc : list investment) :
  build_portfolio strategy ctx prices = Ret alloc →
  ∀ inv, inv ∈ alloc →
    ∃ s, s ∈ STOCKS ∧ ticker s = inv_ticker inv
         ∧ (sector s ∉ avoided_sectors ctx)
         ∧ is_Some (prices !! inv_ticker inv).
Proof.
  intros H inv Hin. apply build_portfolio_pool in H.
  assert (Ht : inv_ticker inv ∈ pticker <$> pool_of ctx prices).
  { eapply elem_of_submseteq; [|exact H]. by apply list_elem_of_fmap_2. }
  apply list_elem_of_fmap in Ht as (s & Hs & Hpool).
  apply candidates_of_allowed in Hpool as (Hu & Hav & Hp).
  exists (base s). split_and!; try done.
  - intros Hin'. apply Hav. by apply elem_of_list_to_set.
  - rewrite Hs, Hp. eauto.
Qed.

Lemma build_portfolio_buys_allowed_stocks_witness :
  ∃ s, s ∈ STOCKS ∧ ticker s = "AAPL"
       ∧ (sector s ∉ avoided_sectors scenario_context)
       ∧ is_Some (scenario_prices !! "AAPL").
Proof.
  apply (build_portfolio_buys_allowed_stocks "high_conviction" scenario_context
           scenario_prices [Investment "AAPL" 2] ltac:(vm_compute; reflexivity)
           (Investment "AAPL" 2)).
  by left.
Defined.

(** X2: an allocation never holds more than seven positions: at most
    [target_stocks] (3, 5 or 7 by budget) under diversification, at most
    six under preference_weighted and at most five under high_conviction. *)
Theorem build_portfolio_position_count (strategy : string) (ctx : context)
    (prices : gmap string Q) (alloc : list investment) :
  build_portfolio strategy ctx prices = Ret alloc →
  (length alloc <= 7)%nat
  ∧ (strategy = "preference_weighted" → (length alloc <= 6)%nat)
  ∧ (strategy = "high_conviction" → (length alloc <= 5)%nat)
  ∧ (strategy ≠ "preference_weighted" → strategy ≠ "high_conviction" →
     (length alloc <= target_stocks_for (budget ctx))%nat).
Proof.
  assert (Hdiv : _diversification ctx prices = Ret alloc →
            (length alloc <= target_stocks_for (budget ctx))%nat).
  { intros H. apply diversification_selected in H as (sel & _ & Hsel & Hal).
    apply submseteq_length in Hal. rewrite !length_fmap in Hal.
    etrans; [exact Hal|]. rewrite Hsel.
    etrans; [apply select_diverse_length|]. simpl. lia. }
  assert (Htarget : (target_stocks_for (budget ctx) <= 7)%nat).
  { unfold target_stocks_for. repeat destruct (Qltb _ _); lia. }
  unfold build_portfolio.
  destruct (String.eqb_spec strategy "diversification") as [->|Hd].
  { intros H. apply Hdiv in H. split_and!; try done. lia. }
  destruct (String.eqb_spec strategy "preference_weighted") as [->|Hp].
  { unfold _preference_weighted.
    destruct (partition_stocks _ _ _ _) as [ps os].
    destruct (buy_preferred 3 _ _) as [pa|] eqn:Hpa; simpl; [|done].
    destruct (buy_others _ _) as [oa|] eqn:Hoa; simpl; [|done].
    intros [= <-]. apply buy_preferred_tickers in Hpa as [_ Hpa].
    apply buy_others_tickers in Hoa as [_ Hoa]. rewrite length_app.
    split_and!; try done; lia. }
  destruct (String.eqb_spec strategy "high_conviction") as [->|Hh].
  { unfold _high_conviction.
    destruct (partition_stocks _ _ _ _) as [ps os].
    destruct (buy_preferred 4 _ _) as [pa|] eqn:Hpa; simpl; [|done].
    destruct (buy_cheapest_other _ _) as [oa|] eqn:Hoa; simpl; [|done].
    intros [= <-]. apply buy_preferred_tickers in Hpa as [_ Hpa].
    apply buy_cheapest_other_tickers in Hoa as [_ Hoa]. rewrite length_app.
    split_and!; try done; lia. }
  intros H. apply Hdiv in H. split_and!; try done. lia.
Qed.

Lemma build_portfolio_position_count_witness :
  (length [Investment "AAPL" 2] <= 5)%nat.
Proof.
  apply (proj1 (proj2 (proj2
           (build_portfolio_position_count "high_conviction" scenario_context
              scenario_prices [Investment "AAPL" 2]
              ltac:(vm_compute; reflexivity)))) eq_refl).
Defined.

(** X3: with a positive budget the cost of what a strategy returns is
    computable and stays below [budget * TARGET_BUDGET_USAGE]: the
    strategies size their positions on [INITIAL_BUDGET_USAGE] = 96% of the
    budget, two points under the optimiser's target, so the optimiser
    always starts with something left to place. *)
Theorem build_portfolio_below_target (strategy : string) (ctx : context)
    (prices : gmap string Q) (alloc : list investment) :
  (0 < budget ctx)%Q →
  build_portfolio strategy ctx prices = Ret alloc →
  ∃ c, portfolio_cost alloc prices = Ret c
       ∧ (c < budget ctx * TARGET_BUDGET_USAGE)%Q.
Proof.
  intros Hb H.
  assert (Hok : allocation_ok prices (budget ctx * 0.96) alloc).
  { unfold build_portfolio in H.
    repeat match type of H with
    | (if ?b then _ else _) = _ => destruct b
    end;
      [by apply diversification_ok | by apply preference_weighted_ok
      | by apply high_conviction_ok | by apply diversification_ok]. }
  destruct Hok as (_ & _ & c & Hc & Hle). exists c.
  unfold TARGET_BUDGET_USAGE. split; [done | lra].
Qed.

Lemma build_portfolio_below_target_witness :
  ∃ c, portfolio_cost [Investment "AAPL" 2] scenario_prices = Ret c
       ∧ (c < budget scenario_context * TARGET_BUDGET_USAGE)%Q.
Proof.
  apply (build_portfolio_below_target "high_conviction"
           scenario_context scenario_prices [Investment "AAPL" 2]).
  - unfold Qlt. simpl. lia.
  - vm_compute. reflexivity.
Defined.

Lemma sector_of_universe s : s ∈ STOCKS → sector_of (ticker s) = Some (sector s).
Proof.
  revert s. apply Forall_forall.
  apply (bool_decide_unpack _). vm_compute. reflexivity.
Qed.

Lemma filter_length_submseteq {A} (P : A → Prop) `{∀ x, Decision (P x)}
    (l1 l2 : list A) :
  l1 ⊆+ l2 → (length (filter P l1) <= length (filter P l2))%nat.
Proof.
  intros Hsub. apply submseteq_Permutation in Hsub as [k Hk].
  rewrite Hk, filter_app, length_app. lia.
Qed.

Lemma filter_length_ext {A} (P1 P2 : A → Prop) `{∀ x, Decision (P1 x)}
    `{∀ x, Decision (P2 x)} (l : list A) :
  Forall (λ x, P1 x ↔ P2 x) l → length (filter P1 l) = length (filter P2 l).
Proof.
  induction 1 as [|x l Hx Hl IH]; [done|].
  rewrite !filter_cons. destruct (decide (P1 x)), (decide (P2 x)); simpl;
    try (by rewrite IH); exfalso; tauto.
Qed.

Lemma filter_fmap_length {A B} (f : A → B) (P : B → Prop)
    `{∀ y, Decision (P y)} (l : list A) :
  length (filter P (f <$> l)) = length (filter (λ x, P (f x)) l).
Proof.
  induction l as [|x l IH]; [done|].
  rewrite fmap_cons, !filter_cons.
  destruct (decide (P (f x))); simpl; by rewrite IH.
Qed.

Lemma selected_in_snoc sec selected s :
  selected_in sec (selected ++ [s])
  = (selected_in sec selected + (if decide (sector (base s) = sec) then 1 else 0))%nat.
Proof.
  unfold selected_in. rewrite filter_app, length_app, filter_cons, filter_nil.
  by destruct (decide (sector (base s) = sec)).
Qed.

(** The selection loop keeps [sector_counts] equal to the number of
    selected stocks per sector, and so respects the cap. *)
Lemma select_diverse_cap target max_per candidates selected counts :
  (∀ sec, sector_count counts sec = Z.of_nat (selected_in sec selected)) →
  (∀ sec, (Z.of_nat (selected_in sec selected) <= max_per)%Z) →
  ∀ sec,
    (Z.of_nat (selected_in sec
                 (select_diverse target max_per candidates selected counts))
     <= max_per)%Z.
Proof.
  revert selected counts.
  induction candidates as [|s rest IH]; simpl; intros selected counts Hinv Hcap;
    [done|].
  destruct (target <=? length selected)%nat; [done|].
  destruct (Z.ltb_spec (sector_count counts (sector (base s))) max_per) as [Hlt|Hge].
  - apply IH.
    + intros sec. rewrite selected_in_snoc. unfold sector_count.
      destruct (decide (sector (base s) = sec)) as [<-|Hne].
      * rewrite lookup_insert_eq. simpl. fold (sector_count counts (sector (base s))).
        rewrite Hinv. lia.
      * rewrite lookup_insert_ne by done. fold (sector_count counts sec).
        rewrite Hinv. lia.
    + intros sec. rewrite selected_in_snoc.
      destruct (decide (sector (base s) = sec)) as [<-|Hne].
      * rewrite Hinv in Hlt. lia.
      * specialize (Hcap sec). lia.
  - by apply IH.
Qed.

(** X4: under diversification no sector holds more than
    [max(2, target_stocks // 2)] positions, that is two for a budget under
    500 and three otherwise. *)
Theorem diversification_sector_cap (ctx : context) (prices : gmap string Q)
    (alloc : list investment) (sec : string) :
  _diversification ctx prices = Ret alloc →
  (Z.of_nat (positions_in sec alloc) <= max_per_sector_for (budget ctx))%Z
  ∧ (max_per_sector_for (budget ctx) <= 3)%Z.
Proof.
  intros H. apply diversification_selected in H as (sel & Hsub & Hsel & Hal).
  assert (Hmax : (2 <= max_per_sector_for (budget ctx) <= 3)%Z).
  { unfold max_per_sector_for, target_stocks_for.
    repeat destruct (Qltb _ _); vm_compute; split; discriminate. }
  split; [|lia].
  assert (Hcap : (Z.of_nat (selected_in sec sel) <= max_per_sector_for (budget ctx))%Z).
  { rewrite Hsel. apply select_diverse_cap.
    - intros sec'. done.
    - intros sec'. unfold selected_in. simpl. lia. }
  etrans; [|exact Hcap]. apply inj_le.
  assert (Hpool : Forall (λ s, base s ∈ STOCKS) sel).
  { apply Forall_forall. intros s Hs.
    assert (Hs' : s ∈ pool_of ctx prices).
    { rewrite <- (sort_by_perm price). eapply elem_of_sublist; [exact Hs|].
      exact Hsub. }
    by apply candidates_of_allowed in Hs' as [? _]. }
  unfold positions_in, selected_in.
  transitivity
    (length (filter (λ t, sector_of t = Some sec) (inv_ticker <$> alloc))).
  { by rewrite filter_fmap_length. }
  etrans; [apply filter_length_submseteq, Hal|].
  rewrite filter_fmap_length.
  apply Nat.eq_le_incl, filter_length_ext.
  eapply Forall_impl; [exact Hpool|]. intros s Hs. simpl.
  unfold pticker. rewrite (sector_of_universe _ Hs). split; congruence.
Qed.

Lemma diversification_sector_cap_witness :
  (Z.of_nat (positions_in "Technology" [Investment "WMT" 2; Investment "AAPL" 1])
   <= max_per_sector_for (budget scenario_context))%Z.
Proof.
  apply (diversification_sector_cap scenario_context scenario_prices
           [Investment "WMT" 2; Investment "AAPL" 1] "Technology").
  vm_compute. reflexivity.
Defined.

(** X5: when every stock of the universe is either unpriced or in an
    avoided sector (an empty price map, for one), every strategy returns
    the empty allocation, without raising. *)
Theorem build_portfolio_nothing_to_buy (strategy : string) (ctx : context)
    (prices : gmap string Q) :
  (∀ s, s ∈ STOCKS → prices !! ticker s = None ∨ sector s ∈ avoided_sectors ctx) →
  build_portfolio strategy ctx prices = Ret [].
Proof.
  intros Hnone.
  assert (Hpool : pool_of ctx prices = []).
  { destruct (pool_of ctx prices) as [|s rest] eqn:E; [done|]. exfalso.
    assert (Hs : s ∈ pool_of ctx prices) by (rewrite E; by left).
    apply candidates_of_allowed in Hs as (Hu & Hav & Hp).
    destruct (Hnone (base s) Hu) as [Hno|Hin].
    - unfold pticker in Hp. congruence.
    - apply Hav. by apply elem_of_list_to_set. }
  assert (Hdiv : _diversification ctx prices = Ret []).
  { unfold _diversification. rewrite Hpool. reflexivity. }
  assert (Hpart : ∀ preferred : gset string,
            partition_stocks preferred (list_to_set (avoided_sectors ctx))
              prices STOCKS = ([], [])).
  { intros preferred. rewrite partition_stocks_filter, Hpool. reflexivity. }
  unfold build_portfolio.
  destruct (String.eqb strategy "diversification"); [exact Hdiv|].
  destruct (String.eqb strategy "preference_weighted").
  { unfold _preference_weighted. rewrite Hpart. reflexivity. }
  destruct (String.eqb strategy "high_conviction"); [|exact Hdiv].
  unfold _high_conviction. rewrite Hpart. reflexivity.
Qed.

Lemma build_portfolio_nothing_to_buy_witness :
  build_portfolio "preference_weighted" scenario_context ∅ = Ret [].
Proof.
  apply (build_portfolio_nothing_to_buy "preference_weighted" scenario_context ∅).
  intros s _. left. apply lookup_empty.
Defined.

(** ** Accounting of the retry executor *)

Lemma retry_loop_accounting {A : Type} (func : world → outcome A * world) :
  keeps_accounts func →
  ∀ (n first : nat) (w : world),
    (first + n = MAX_RETRIES)%nat → (1 <= n)%nat →
    ∃ k, (k < n)%nat
      ∧ retries (stats (retry_loop func (seq first n) w).2)
        = (retries (stats w) + k)%nat
      ∧ total_calls (stats (retry_loop func (seq first n) w).2)
        = (total_calls (stats w) + k + 1)%nat
      ∧ slept (retry_loop func (seq first n) w).2
        = slept w ++ backoff_from first k
      ∧ failures (stats (retry_loop func (seq first n) w).2)
        = (failures (stats w)
           + match (retry_loop func (seq first n) w).1 with
             | Some _ => 0
             | None => 1
             end)%nat.
Proof.
  intros Hkeep. unfold MAX_RETRIES.
  induction n as [|n IH]; intros first w Hsum Hn; [lia|].
  cbn [seq retry_loop].
  destruct (Hkeep (count_call w)) as [Hs Hl].
  destruct (func (count_call w)) as [r w1]. cbn [snd] in Hs, Hl.
  assert (Hstop : ∃ k, (k < S n)%nat
      ∧ retries (stats (count_failure w1)) = (retries (stats w) + k)%nat
      ∧ total_calls (stats (count_failure w1))
        = (total_calls (stats w) + k + 1)%nat
      ∧ slept (count_failure w1) = slept w ++ backoff_from first k
      ∧ failures (stats (count_failure w1)) = (failures (stats w) + 1)%nat).
  { exists 0%nat. simpl. rewrite Hs, Hl. simpl. rewrite app_nil_r.
    split_and!; try done; lia. }
  assert (Hretry :
    ∃ k, (k < S n)%nat
      ∧ retries (stats
          (if (first <? MAX_RETRIES - 1)%nat
           then retry_loop func (seq (S first) n)
                  (sleep (RETRY_BASE_DELAY * 2 ^ Z.of_nat first)%Z (count_retry w1))
           else (None, count_failure w1)).2)
        = (retries (stats w) + k)%nat
      ∧ total_calls (stats
          (if (first <? MAX_RETRIES - 1)%nat
           then retry_loop func (seq (S first) n)
                  (sleep (RETRY_BASE_DELAY * 2 ^ Z.of_nat first)%Z (count_retry w1))
           else (None, count_failure w1)).2)
        = (total_calls (stats w) + k + 1)%nat
      ∧ slept
          (if (first <? MAX_RETRIES - 1)%nat
           then retry_loop func (seq (S first) n)
                  (sleep (RETRY_BASE_DELAY * 2 ^ Z.of_nat first)%Z (count_retry w1))
           else (None, count_failure w1)).2
        = slept w ++ backoff_from first k
      ∧ failures (stats
          (if (first <? MAX_RETRIES - 1)%nat
           then retry_loop func (seq (S first) n)
                  (sleep (RETRY_BASE_DELAY * 2 ^ Z.of_nat first)%Z (count_retry w1))
           else (None, count_failure w1)).2)
        = (failures (stats w)
           + match (if (first <? MAX_RETRIES - 1)%nat
                    then retry_loop func (seq (S first) n)
                           (sleep (RETRY_BASE_DELAY * 2 ^ Z.of_nat first)%Z
                              (count_retry w1))
                    else (@None A, count_failure w1)).1 with
             | Some _ => 0
             | None => 1
             end)%nat).
  { unfold MAX_RETRIES.
    destruct (Nat.ltb_spec first (3 - 1)) as [Hlt|Hge].
    - destruct (IH (S first)
                  (sleep (RETRY_BASE_DELAY * 2 ^ Z.of_nat first)%Z (count_retry w1)))
        as (k & Hk & Hr & Ht & Hsl & Hf); [lia | lia |].
      exists (S k). rewrite Hr, Ht, Hsl, Hf. simpl. rewrite Hs, Hl. simpl.
      unfold backoff_from. cbn [seq fmap list_fmap].
      rewrite <- app_assoc. split_and!; try done; lia.
    - destruct Hstop as (k & ? & ? & ? & ? & ?). exists k. cbn [fst snd].
      split_and!; try done. }
  destruct r as [a| | |].
  - exists 0%nat. simpl. rewrite Hs, Hl. simpl. rewrite app_nil_r.
    split_and!; try done; lia.
  - exact Hretry.
  - exact Hretry.
  - destruct Hstop as (k & ? & ? & ? & ? & ?). exists k. cbn [fst snd].
    split_and!; try done.
Qed.

(** X6: whatever the attempts do, one guarded call makes [k + 1] calls
    for some number [k <= 2] of retries, sleeps the first [k] back-off
    waits (1 s, then 2 s), and counts a failure exactly when it returns
    [None]. *)
Theorem api_call_with_retry_accounting {A : Type}
    (func : world → outcome A * world) (w : world) :
  keeps_accounts func →
  let result := _api_call_with_retry func w in
  ∃ k, (k <= 2)%nat
    ∧ retries (stats result.2) = (retries (stats w) + k)%nat
    ∧ total_calls (stats result.2) = (total_calls (stats w) + k + 1)%nat
    ∧ slept result.2 = slept w ++ take k [1; 2]%Z
    ∧ failures (stats result.2)
      = (failures (stats w) + match result.1 with Some _ => 0 | None => 1 end)%nat.
Proof.
  intros Hkeep result. subst result. unfold _api_call_with_retry.
  destruct (retry_loop_accounting func Hkeep MAX_RETRIES 0 w)
    as (k & Hk & Hr & Ht & Hsl & Hf); [done | unfold MAX_RETRIES; lia |].
  exists k. unfold MAX_RETRIES in Hk. split_and!; try done; [lia|].
  rewrite Hsl. f_equal.
  destruct k as [|[|[|k]]]; try reflexivity; lia.
Qed.

Lemma api_call_with_retry_accounting_witness :
  let w := World (mkCache ∅ ∅ 0 0) (Stats 0 0 0) (Storage None 0) 0 [] [] in
  let result :=
    _api_call_with_retry
      (λ w, (if (length (slept w) =? 0)%nat then Timeout else Ok 5%nat, w)) w in
  ∃ k, (k <= 2)%nat
    ∧ retries (stats result.2) = (0 + k)%nat
    ∧ total_calls (stats result.2) = (0 + k + 1)%nat
    ∧ slept result.2 = [] ++ take k [1; 2]%Z
    ∧ failures (stats result.2)
      = (0 + match result.1 with Some _ => 0 | None => 1 end)%nat.
Proof.
  intros w.
  apply (api_call_with_retry_accounting
           (λ w, (if (length (slept w) =? 0)%nat then Timeout else Ok 5%nat, w)) w).
  intros w'. by split.
Defined.

(** ** The success rate *)

Lemma calculate_success_rate_range (s : api_stats) :
  sound_stats s →
  ∃ rate, _calculate_success_rate s = Ret rate ∧ (0 <= rate <= 100)%Q.
Proof.
  unfold sound_stats, _calculate_success_rate. intros Hle.
  destruct (Nat.eqb_spec (total_calls s) 0) as [|Hne].
  { eexists. split; [done|]. lra. }
  assert (Hpos : (0 < inject_Z (Z.of_nat (total_calls s)))%Q).
  { change 0%Q with (inject_Z 0). rewrite <- Zlt_Qlt. lia. }
  rewrite py_div_nonzero by lra. simpl. eexists. split; [done|].
  set (c := inject_Z (Z.of_nat (total_calls s))) in *.
  assert (Hf : (0 <= inject_Z (Z.of_nat (total_calls s) - Z.of_nat (failures s)))%Q).
  { change 0%Q with (inject_Z 0). rewrite <- Zle_Qle. lia. }
  assert (Hg : (inject_Z (Z.of_nat (total_calls s) - Z.of_nat (failures s)) <= c)%Q).
  { unfold c. rewrite <- Zle_Qle. lia. }
  set (d := inject_Z (Z.of_nat (total_calls s) - Z.of_nat (failures s))) in *.
  assert (H0 : (0 <= d / c)%Q) by (apply Qle_shift_div_l; lra).
  assert (H1 : (d / c <= 1)%Q) by (apply Qle_shift_div_r; lra).
  lra.
Qed.

Lemma retry_sound_stats {A : Type} (func : world → outcome A * world) (w : world) :
  keeps_accounts func → sound_stats (stats w) →
  sound_stats (stats (_api_call_with_retry func w).2).
Proof.
  intros Hkeep Hs. unfold sound_stats in *.
  destruct (retry_loop_accounting func Hkeep MAX_RETRIES 0 w)
    as (k & Hk & Hr & Ht & Hsl & Hf); [done | unfold MAX_RETRIES; lia |].
  unfold _api_call_with_retry. rewrite Ht, Hf.
  destruct (retry_loop func (seq 0 MAX_RETRIES) w).1; lia.
Qed.

Lemma sends_keeps_accounts {A : Type} req (func : world → outcome A * world) :
  sends req func → keeps_accounts func.
Proof. intros H w. by rewrite H. Qed.

Lemma check_current_stats tickers prices need w :
  stats (check_current tickers prices need w).2 = stats w.
Proof.
  revert prices need w. induction tickers as [|t rest IH]; intros; [done|].
  simpl. destruct (get_current_price _ _ _) as [[p|] c]; by rewrite IH.
Qed.

Lemma store_quotes_stats data prices w :
  stats (store_quotes data prices w).2 = stats w.
Proof.
  revert prices w. induction data as [|item rest IH]; intros; [done|].
  simpl. destruct (item_ticker item), (item_last item); try apply IH.
  destruct (_ && _); by rewrite IH.
Qed.

Lemma check_historical_stats tickers date prices need w :
  stats (check_historical tickers date prices need w).2 = stats w.
Proof.
  revert prices need w. induction tickers as [|t rest IH]; intros; [done|].
  simpl. destruct (get_historical_price _ _ _) as [[p|] c]; by rewrite IH.
Qed.

Section ClientStats.

Context (quotes_api : nat → list string → outcome (list quote_item)).
Context (history_api : nat → string → Z → Z → outcome (list bar)).
Context (day_bounds : string → option (Z * Z)).
Context (schedule : list string → list string).

Lemma get_current_prices_sound_stats tickers w :
  sound_stats (stats w) →
  sound_stats (stats (get_current_prices quotes_api tickers w).2).
Proof.
  intros Hs. unfold get_current_prices.
  pose proof (check_current_stats tickers ∅ [] w) as Hc.
  destruct (check_current tickers ∅ [] w) as [[prices need] w1].
  cbn [snd] in Hc. rewrite <- Hc in Hs.
  destruct need as [|t need]; [done|].
  pose proof (retry_sound_stats (fetch_quotes quotes_api (t :: need)) w1
                (sends_keeps_accounts _ _ (fetch_quotes_sends quotes_api _)) Hs)
    as Hr.
  destruct (_api_call_with_retry _ w1) as [[[|item items]|] w2]; cbn [snd] in *;
    try done.
  by rewrite store_quotes_stats.
Qed.

Lemma fetch_historical_price_sound_stats t date w :
  sound_stats (stats w) →
  sound_stats (stats (fetch_historical_price history_api day_bounds t date w).2).
Proof.
  intros Hs. unfold fetch_historical_price.
  destruct (get_historical_price t date (cache w)) as [[p|] c]; [done|].
  destruct (day_bounds date) as [[start stop]|]; [|done].
  pose proof (retry_sound_stats (fetch_history history_api t start stop)
                (with_cache c w)
                (sends_keeps_accounts _ _ (fetch_history_sends history_api _ _ _))
                Hs) as Hr.
  destruct (_api_call_with_retry _ _) as [[[|first rest]|] w2]; cbn [snd] in *;
    try done.
  destruct (bar_open first); [|done].
  by destruct (set_historical_price _ _ _ _ _ _).
Qed.

Lemma run_tasks_sound_stats order date prices w :
  sound_stats (stats w) →
  sound_stats (stats (run_tasks history_api day_bounds order date prices w).2).
Proof.
  revert prices w. induction order as [|t rest IH]; intros prices w Hs; [done|].
  simpl.
  pose proof (fetch_historical_price_sound_stats t date w Hs) as Hf.
  destruct (fetch_historical_price _ _ _ _ _) as [[p|] w1]; by apply IH.
Qed.

Lemma get_historical_prices_concurrent_sound_stats tickers date w :
  sound_stats (stats w) →
  sound_stats
    (stats (get_historical_prices_concurrent history_api day_bounds schedule
              tickers date w).2).
Proof.
  intros Hs. unfold get_historical_prices_concurrent.
  pose proof (check_historical_stats tickers date ∅ [] w) as Hc.
  destruct (check_historical tickers date ∅ [] w) as [[prices need] w1].
  cbn [snd] in Hc. rewrite <- Hc in Hs.
  destruct need as [|t need]; [done|]. by apply run_tasks_sound_stats.
Qed.

(** X7: a client that has counted no more failures than calls (a new
    client has counted neither) still has after [get_current_prices] and
    after [get_historical_prices_concurrent]; its success rate is then
    computed without error and lies between 0 and 100. *)
Theorem success_rate_after_fetch (tickers : list string) (date : string)
    (w w' : world) :
  (failures (stats w) <= total_calls (stats w))%nat →
  w' = (get_current_prices quotes_api tickers w).2
  ∨ w' = (get_historical_prices_concurrent history_api day_bounds schedule
            tickers date w).2 →
  (failures (stats w') <= total_calls (stats w'))%nat
  ∧ ∃ rate, _calculate_success_rate (stats w') = Ret rate
            ∧ (0 <= rate <= 100)%Q.
Proof.
  intros Hs Hw.
  assert (Hs' : sound_stats (stats w')).
  { destruct Hw as [-> | ->].
    - by apply get_current_prices_sound_stats.
    - by apply get_historical_prices_concurrent_sound_stats. }
  split; [exact Hs'|]. by apply calculate_success_rate_range.
Qed.

End ClientStats.

Lemma success_rate_after_fetch_witness :
  ∃ rate,
    _calculate_success_rate
      (stats (get_current_prices (λ _ _, Timeout) ["AAPL"; "WMT"]
                (World (mkCache ∅ ∅ 0 0) (Stats 0 0 0) (Storage None 0) 0 [] [])).2)
    = Ret rate
    ∧ (0 <= rate <= 100)%Q.
Proof.
  apply (success_rate_after_fetch (λ _ _, Timeout) (λ _ _ _ _, Timeout)
           (λ _, None) (λ l, l) ["AAPL"; "WMT"] "2024-01-02"
           (World (mkCache ∅ ∅ 0 0) (Stats 0 0 0) (Storage None 0) 0 [] [])).
  - simpl. lia.
  - by left.
Defined.

(** ** Expiry of current prices *)

Lemma total_seconds_mono (a b : Z) :
  (a <= b)%Z → (total_seconds a <= total_seconds b)%Q.
Proof.
  intros H. unfold total_seconds. apply Qmult_le_compat_r.
  - by rewrite <- Zle_Qle.
  - unfold Qle. simpl. lia.
Qed.

(** X8: a price stored with [set_current_price] is served by
    [get_current_price] for the next [CACHE_TTL] = 300 seconds and no
    longer; lookups of other tickers answer as before. *)
Theorem current_price_set_then_get (now now' : Z) (t t' : string) (p : Q)
    (self : CacheManager) :
  let stored := set_current_price now t p self in
  ((total_seconds (now' - now) < CACHE_TTL)%Q →
     (get_current_price now' t stored).1 = Some p)
  ∧ ((CACHE_TTL <= total_seconds (now' - now))%Q →
     (get_current_price now' t stored).1 = None)
  ∧ (t' ≠ t →
     (get_current_price now' t' stored).1 = (get_current_price now' t' self).1).
Proof.
  intros stored. subst stored. unfold get_current_price, set_current_price.
  cbn [current_price_cache]. split_and!.
  - intros H. rewrite lookup_insert_eq. cbn [timestamp quote_price].
    apply Qltb_lt in H. by rewrite H.
  - intros H. rewrite lookup_insert_eq. cbn [timestamp].
    apply Qltb_ge in H. by rewrite H.
  - intros Hne. rewrite lookup_insert_ne by done.
    destruct (current_price_cache self !! t') as [cached|]; [|done].
    by destruct (Qltb _ _).
Qed.

Lemma current_price_set_then_get_witness :
  (get_current_price 299999999 "AAPL"
     (set_current_price 0 "AAPL" 100 (mkCache ∅ ∅ 0 0))).1 = Some 100%Q
  ∧ (get_current_price 300000000 "AAPL"
       (set_current_price 0 "AAPL" 100 (mkCache ∅ ∅ 0 0))).1 = None.
Proof.
  destruct (current_price_set_then_get 0 299999999 "AAPL" "WMT" 100
              (mkCache ∅ ∅ 0 0)) as (Hhit & _ & _).
  destruct (current_price_set_then_get 0 300000000 "AAPL" "WMT" 100
              (mkCache ∅ ∅ 0 0)) as (_ & Hmiss & _).
  split.
  - apply Hhit. vm_compute. reflexivity.
  - apply Hmiss. vm_compute. discriminate.
Defined.

Lemma elem_of_expired now items t :
  t ∈ expired now items ↔
  ∃ cached, (t, cached) ∈ items
            ∧ Qle_bool CACHE_TTL (total_seconds (now - timestamp cached)) = true.
Proof.
  unfold expired. rewrite list_elem_of_omap. split.
  - intros ([t0 cached] & Hin & H). simpl in H.
    destruct (Qle_bool _ _) eqn:E; [|done]. injection H as ->. eauto.
  - intros (cached & Hin & E). exists (t, cached). simpl. by rewrite E.
Qed.

Lemma delete_each_expired now (items : list (string * quote))
    (m : gmap string quote) :
  NoDup items.*1 →
  (∀ t cached, (t, cached) ∈ items → m !! t = Some cached) →
  ∃ m', delete_each (expired now items) m = Ret m'
        ∧ ∀ t, m' !! t
               = if bool_decide (t ∈ expired now items) then None else m !! t.
Proof.
  revert m. induction items as [|[t cached] rest IH]; intros m Hnd Hin.
  { exists m. split; [done|]. intros t. rewrite bool_decide_eq_false_2; [done|].
    unfold expired. simpl. apply not_elem_of_nil. }
  rewrite fmap_cons in Hnd. apply NoDup_cons in Hnd as [Hfresh Hnd].
  assert (Hrest : ∀ t' c', (t', c') ∈ rest → t' ≠ t).
  { intros t' c' H' ->. apply Hfresh. apply list_elem_of_fmap.
    by exists (t, c'). }
  unfold expired. cbn [omap list_omap fst snd]. fold (expired now rest).
  destruct (Qle_bool CACHE_TTL (total_seconds (now - timestamp cached))) eqn:E.
  - cbn [delete_each]. rewrite (Hin t cached) by left.
    destruct (IH (delete t m) Hnd) as (m' & Hm' & Hlook).
    { intros t' c' H'. rewrite lookup_delete_ne by (symmetry; by eapply Hrest).
      apply Hin. by right. }
    exists m'. split; [done|]. intros x. rewrite Hlook.
    destruct (decide (x = t)) as [->|Hne].
    + rewrite (bool_decide_eq_true_2 (t ∈ t :: expired now rest)) by left.
      rewrite lookup_delete_eq. by destruct (bool_decide _).
    + rewrite lookup_delete_ne by done.
      destruct (decide (x ∈ expired now rest)) as [Hx|Hx].
      * rewrite !bool_decide_eq_true_2; [done | by right | done].
      * rewrite !bool_decide_eq_false_2; [done | | done].
        intros [?|?]%elem_of_cons; done.
  - apply IH; [done|]. intros t' c' H'. apply Hin. by right.
Qed.

(** X9: [clear_current_cache] never raises; it keeps exactly the entries
    younger than [CACHE_TTL], touches neither the historical region nor the
    counters, and changes the answer of no later [get_current_price]. *)
Theorem clear_current_cache_drops_expired (now : Z) (self : CacheManager) :
  ∃ self',
    clear_current_cache now self = Ret self'
    ∧ (∀ t, current_price_cache self' !! t
            = fresh_entry now (current_price_cache self) t)
    ∧ historical_price_cache self' = historical_price_cache self
    ∧ cache_hits self' = cache_hits self
    ∧ cache_misses self' = cache_misses self
    ∧ ∀ now' t, (now <= now')%Z →
        (get_current_price now' t self').1 = (get_current_price now' t self).1.
Proof.
  unfold clear_current_cache.
  destruct (delete_each_expired now (map_to_list (current_price_cache self))
              (current_price_cache self)) as (m' & Hm' & Hlook).
  { apply NoDup_fst_map_to_list. }
  { intros t cached. by rewrite elem_of_map_to_list. }
  rewrite Hm'. cbn [mbind res_bind]. eexists. split; [reflexivity|].
  cbn [current_price_cache historical_price_cache cache_hits cache_misses].
  assert (Hentry : ∀ t, m' !! t = fresh_entry now (current_price_cache self) t).
  { intros t. rewrite Hlook. unfold fresh_entry, Qltb.
    destruct (current_price_cache self !! t) as [cached|] eqn:Ht.
    - destruct (Qle_bool CACHE_TTL (total_seconds (now - timestamp cached))) eqn:E.
      + rewrite bool_decide_eq_true_2; [done|].
        apply elem_of_expired. exists cached. split; [|done].
        by apply elem_of_map_to_list.
      + rewrite bool_decide_eq_false_2; [done|].
        intros (c' & Hc' & E')%elem_of_expired.
        apply elem_of_map_to_list in Hc'. congruence.
    - by destruct (bool_decide _). }
  split_and!; try done.
  intros now' t Hle.
  rewrite !(proj1 (get_current_price_fresh _ _ _)). cbn [current_price_cache].
  unfold fresh_price. rewrite Hentry. unfold fresh_entry.
  destruct (current_price_cache self !! t) as [cached|]; [|done].
  destruct (Qltb (total_seconds (now - timestamp cached)) CACHE_TTL) eqn:E;
    [done|].
  assert (Hold : Qltb (total_seconds (now' - timestamp cached)) CACHE_TTL = false).
  { apply Qltb_ge. apply Qltb_ge in E.
    eapply Qle_trans; [exact E|]. apply total_seconds_mono. lia. }
  by rewrite Hold.
Qed.

Lemma clear_current_cache_drops_expired_witness :
  ∃ self',
    clear_current_cache 300000000
      (mkCache (<["AAPL" := Quote 100 0]> {["WMT" := Quote 50 1]}) ∅ 0 0)
    = Ret self'
    ∧ current_price_cache self' !! "AAPL" = None
    ∧ current_price_cache self' !! "WMT" = Some (Quote 50 1)
    ∧ (get_current_price 300000000 "WMT" self').1 = Some 50%Q.
Proof.
  destruct (clear_current_cache_drops_expired 300000000
              (mkCache (<["AAPL" := Quote 100 0]> {["WMT" := Quote 50 1]}) ∅ 0 0))
    as (self' & Hclear & Hlook & _ & _ & _ & Hget).
  exists self'. split_and!.
  - exact Hclear.
  - rewrite Hlook. vm_compute. reflexivity.
  - rewrite Hlook. vm_compute. reflexivity.
  - rewrite Hget by lia. vm_compute. reflexivity.
Defined.

(** ** Loading the cache file *)

Lemma str_split_nonempty sep s : str_split sep s ≠ [].
Proof.
  destruct s as [|c s]; simpl; [done|].
  destruct (Ascii.eqb c sep); [done|]. by destruct (str_split sep s).
Qed.

Lemma str_split_one sep s b :
  str_split sep s = [b] → s = b ∧ occurs sep b = false.
Proof.
  revert b. induction s as [|c s IH]; simpl; intros b H.
  - by injection H as <-.
  - destruct (Ascii.eqb c sep) eqn:E.
    + injection H as _ H. by apply str_split_nonempty in H.
    + destruct (str_split sep s) as [|hd tl] eqn:Hs.
      { by apply str_split_nonempty in Hs. }
      injection H as <- ->. destruct (IH hd eq_refl) as [-> Hc].
      split; [done|]. simpl. by rewrite E, Hc.
Qed.

Lemma str_split_two sep s a b :
  str_split sep s = [a; b] →
  s = (a ++ String sep b)%string ∧ occurs sep a = false ∧ occurs sep b = false.
Proof.
  revert a. induction s as [|c s IH]; simpl; intros a H; [done|].
  destruct (Ascii.eqb c sep) eqn:E.
  - injection H as <- H. apply str_split_one in H as [-> Hb].
    apply Ascii.eqb_eq in E as ->. done.
  - destruct (str_split sep s) as [|hd tl] eqn:Hs; [done|].
    injection H as <- ->. destruct (IH hd eq_refl) as (-> & Ha & Hb).
    split_and!; [done | | done]. simpl. by rewrite E, Ha.
Qed.

Lemma load_items_sound (all items : list (string * Q))
    (cache : gmap (string * string) Q) :
  items ⊆ all →
  (∀ t date p, cache !! (t, date) = Some p →
     clean_key (t, date) ∧ (key_str t date, p) ∈ all) →
  ∀ t date p, load_items items cache !! (t, date) = Some p →
    clean_key (t, date) ∧ (key_str t date, p) ∈ all.
Proof.
  revert cache. induction items as [|[k q] rest IH]; intros cache Hsub Hinv;
    [exact Hinv|].
  simpl.
  assert (Hrest : rest ⊆ all) by (intros x Hx; apply Hsub; by right).
  destruct (str_split separator k) as [|a [|b [|c l]]] eqn:Hk; try exact Hinv.
  apply str_split_two in Hk as (-> & Ha & Hb).
  apply IH; [done|]. intros t date p.
  destruct (decide ((a, b) = (t, date))) as [[= <- <-]|Hne].
  - rewrite lookup_insert_eq. intros [= <-]. split; [done|].
    apply Hsub. by left.
  - rewrite lookup_insert_ne by done. apply Hinv.
Qed.

(** X10: every entry a new [CacheManager] starts with was read from the
    cache file, under the key ["ticker|date"], and neither its ticker nor
    its date contains ['|']. *)
Theorem new_cache_loads_file_entries (disk : storage) (t date : string) (p : Q) :
  historical_price_cache (new_cache disk) !! (t, date) = Some p →
  occurs separator t = false ∧ occurs separator date = false
  ∧ ∃ data, file disk = Some data ∧ historical data !! key_str t date = Some p.
Proof.
  unfold new_cache, load_from_file.
  destruct (file disk) as [data|];
    [|cbn [historical_price_cache]; by rewrite lookup_empty].
  cbn [historical_price_cache]. intros H.
  apply (load_items_sound (map_to_list (historical data))) in H
    as [[Ht Hd] Hin]; [| done | intros ? ? ?; by rewrite lookup_empty].
  split_and!; try done. exists data. split; [done|].
  by apply elem_of_map_to_list.
Qed.

Lemma new_cache_loads_file_entries_witness :
  occurs separator "AAPL" = false ∧ occurs separator "2024-01-02" = false
  ∧ ∃ data,
      file (Storage (Some (CacheFile {["AAPL|2024-01-02" := 7%Q]} 0)) 1) = Some data
      ∧ historical data !! key_str "AAPL" "2024-01-02" = Some 7%Q.
Proof.
  apply (new_cache_loads_file_entries
           (Storage (Some (CacheFile {["AAPL|2024-01-02" := 7%Q]} 0)) 1)
           "AAPL" "2024-01-02" 7).
  vm_compute. reflexivity.
Defined.

(** ** What a fetch leaves in the cache *)

Lemma retry_keeps_cache {A : Type} req (func : world → outcome A * world) w :
  sends req func →
  cache (_api_call_with_retry func w).2 = cache w
  ∧ disk (_api_call_with_retry func w).2 = disk w
  ∧ ∃ n, sent (_api_call_with_retry func w).2 = sent w ++ replicate n req.
Proof.
  intros Hsend. unfold _api_call_with_retry.
  destruct (retry_loop_effect req func Hsend (seq 0 MAX_RETRIES) w ltac:(done))
    as (n & Hs & _ & Hc & Hd & _).
  split_and!; try done. by exists n.
Qed.

Lemma get_current_price_counts now t c :
  current_price_cache (get_current_price now t c).2 = current_price_cache c
  ∧ historical_price_cache (get_current_price now t c).2 = historical_price_cache c
  ∧ cache_hits (get_current_price now t c).2
    = (cache_hits c + if stale now (current_price_cache c) t then 0 else 1)%nat
  ∧ cache_misses (get_current_price now t c).2
    = (cache_misses c + if stale now (current_price_cache c) t then 1 else 0)%nat.
Proof.
  unfold get_current_price, stale, fresh_price.
  destruct (current_price_cache c !! t) as [cached|].
  - destruct (Qltb _ _).
    + rewrite bool_decide_eq_false_2 by done. simpl. split_and!; try done; lia.
    + rewrite bool_decide_eq_true_2 by done. simpl. split_and!; try done; lia.
  - rewrite bool_decide_eq_true_2 by done. simpl. split_and!; try done; lia.
Qed.

Lemma check_current_counts tickers prices need w :
  current_price_cache (cache (check_current tickers prices need w).2)
  = current_price_cache (cache w)
  ∧ clock (check_current tickers prices need w).2 = clock w
  ∧ cache_misses (cache (check_current tickers prices need w).2)
    = (cache_misses (cache w)
       + length (List.filter (stale (clock w) (current_price_cache (cache w)))
                   tickers))%nat
  ∧ (cache_hits (cache (check_current tickers prices need w).2)
     + cache_misses (cache (check_current tickers prices need w).2)
     = cache_hits (cache w) + cache_misses (cache w) + length tickers)%nat.
Proof.
  revert prices need w.
  induction tickers as [|x rest IH]; intros prices need w.
  { simpl. split_and!; try done; lia. }
  cbn [check_current List.filter length].
  destruct (get_current_price_counts (clock w) x (cache w))
    as (Hcur & _ & Hhit & Hmiss).
  destruct (get_current_price (clock w) x (cache w)) as [r c].
  cbn [snd] in Hcur, Hhit, Hmiss.
  set (w1 := with_cache c w).
  assert (Hclock : clock w1 = clock w) by reflexivity.
  assert (Hc : cache w1 = c) by reflexivity.
  clearbody w1.
  assert (Hboth : ∀ prices' need',
    current_price_cache (cache (check_current rest prices' need' w1).2)
    = current_price_cache (cache w)
    ∧ clock (check_current rest prices' need' w1).2 = clock w
    ∧ cache_misses (cache (check_current rest prices' need' w1).2)
      = (cache_misses (cache w)
         + length (if stale (clock w) (current_price_cache (cache w)) x
                   then x :: List.filter
                               (stale (clock w) (current_price_cache (cache w))) rest
                   else List.filter
                          (stale (clock w) (current_price_cache (cache w))) rest))%nat
    ∧ (cache_hits (cache (check_current rest prices' need' w1).2)
       + cache_misses (cache (check_current rest prices' need' w1).2)
       = cache_hits (cache w) + cache_misses (cache w) + S (length rest))%nat).
  { intros prices' need'.
    destruct (IH prices' need' w1) as (H1 & H2 & H3 & H4).
    rewrite Hclock, Hc, Hcur in H3. rewrite Hc in H1, H4.
    split_and!.
    - by rewrite H1.
    - by rewrite H2.
    - rewrite H3, Hmiss. destruct (stale _ _ x); simpl; lia.
    - rewrite H4, Hhit, Hmiss. destruct (stale _ _ x); simpl; lia. }
  destruct r; apply Hboth.
Qed.

Lemma store_quotes_backed data prices w :
  clock (store_quotes data prices w).2 = clock w
  ∧ historical_price_cache (cache (store_quotes data prices w).2)
    = historical_price_cache (cache w)
  ∧ cache_hits (cache (store_quotes data prices w).2) = cache_hits (cache w)
  ∧ cache_misses (cache (store_quotes data prices w).2) = cache_misses (cache w)
  ∧ ∀ t,
      ((store_quotes data prices w).1 !! t = prices !! t
       ∧ current_price_cache (cache (store_quotes data prices w).2) !! t
         = current_price_cache (cache w) !! t)
      ∨ ∃ p, ¬ (p == 0)%Q
          ∧ (store_quotes data prices w).1 !! t = Some p
          ∧ current_price_cache (cache (store_quotes data prices w).2) !! t
            = Some (Quote p (clock w)).
Proof.
  revert prices w. induction data as [|item rest IH]; intros prices w.
  { simpl. split_and!; try done. intros t. by left. }
  cbn [store_quotes].
  destruct (item_ticker item) as [t0|]; [|apply IH].
  destruct (item_last item) as [p0|]; [|apply IH].
  destruct (negb (String.eqb t0 EmptyString) && negb (Qeq_bool p0 0)) eqn:E;
    [|apply IH].
  apply andb_true_iff in E as [_ Hp0]. apply negb_true_iff in Hp0.
  apply Qeq_bool_neq in Hp0.
  set (w1 := with_cache (set_current_price (clock w) t0 p0 (cache w)) w).
  destruct (IH (<[t0 := p0]> prices) w1) as (H1 & H2 & H3 & H4 & H5).
  split_and!; try done.
  intros t. destruct (H5 t) as [[Hp Hc]|(p & Hnz & Hp & Hc)].
  - destruct (decide (t = t0)) as [->|Hne].
    + right. exists p0. split; [done|]. rewrite Hp, Hc. subst w1.
      cbn [cache with_cache set_current_price current_price_cache].
      by rewrite !lookup_insert_eq.
    + left. rewrite Hp, Hc. subst w1.
      cbn [cache with_cache set_current_price current_price_cache].
      by rewrite !lookup_insert_ne.
  - right. exists p. done.
Qed.

Section ClientCache.

Context (quotes_api : nat → list string → outcome (list quote_item)).
Context (history_api : nat → string → Z → Z → outcome (list bar)).
Context (day_bounds : string → option (Z * Z)).
Context (schedule : list string → list string).

Lemma get_current_prices_effect tickers w :
  ∀ t,
    (((get_current_prices quotes_api tickers w).1 !! t = None
      ∨ (get_current_prices quotes_api tickers w).1 !! t
        = fresh_price (clock w) (current_price_cache (cache w)) t)
     ∧ current_price_cache (cache (get_current_prices quotes_api tickers w).2) !! t
       = current_price_cache (cache w) !! t)
    ∨ ∃ p, ¬ (p == 0)%Q
        ∧ (get_current_prices quotes_api tickers w).1 !! t = Some p
        ∧ current_price_cache (cache (get_current_prices quotes_api tickers w).2) !! t
          = Some (Quote p (clock (get_current_prices quotes_api tickers w).2)).
Proof.
  intros t. unfold get_current_prices.
  destruct (check_current_spec tickers ∅ [] w) as (_ & _ & Hin & Hout).
  destruct (check_current_counts tickers ∅ [] w) as (Hcur & _).
  destruct (check_current tickers ∅ [] w) as [[prices need] w1].
  cbn [fst snd] in *.
  assert (Hprices : prices !! t = None
            ∨ prices !! t = fresh_price (clock w) (current_price_cache (cache w)) t).
  { destruct (decide (t ∈ tickers)) as [Ht|Ht].
    - right. rewrite (Hin t Ht), lookup_empty. by destruct (fresh_price _ _ _).
    - left. by rewrite (Hout t Ht), lookup_empty. }
  destruct need as [|t0 need]; [left; cbn [fst snd]; by rewrite Hcur|].
  destruct (retry_keeps_cache _ _ w1 (fetch_quotes_sends quotes_api (t0 :: need)))
    as (Hc & _).
  destruct (_api_call_with_retry (fetch_quotes quotes_api (t0 :: need)) w1)
    as [data w2].
  cbn [snd] in Hc.
  destruct data as [[|item items]|];
    try (left; cbn [fst snd]; by rewrite Hc, Hcur).
  destruct (store_quotes_backed (item :: items) prices w2)
    as (Hclock & _ & _ & _ & Hback).
  destruct (Hback t) as [[Hp Hq]|(p & Hnz & Hp & Hq)].
  - left. rewrite Hp, Hq, Hc, Hcur. done.
  - right. exists p. rewrite Hclock. done.
Qed.


(** X12: when no cached quote has a zero price (none is cached at
    start-up), no price returned by [get_current_prices] is zero, and the
    cache still holds no zero price afterwards. *)
Theorem get_current_prices_nonzero (tickers : list string) (w : world) :
  nonzero_quotes (current_price_cache (cache w)) →
  nonzero_prices (get_current_prices quotes_api tickers w).1
  ∧ nonzero_quotes
      (current_price_cache (cache (get_current_prices quotes_api tickers w).2)).
Proof.
  intros Hnz. split.
  - intros t p Hp.
    destruct (get_current_prices_effect tickers w t)
      as [[[Hnone|Hfresh] Hc]|(p' & Hnz' & Hp' & Hc)].
    + congruence.
    + rewrite Hp in Hfresh. unfold fresh_price in Hfresh.
      destruct (current_price_cache (cache w) !! t) as [cached|] eqn:Ht; [|done].
      destruct (Qltb _ _); [|done]. injection Hfresh as ->. by eapply Hnz.
    + congruence.
  - intros t cached Hq.
    destruct (get_current_prices_effect tickers w t)
      as [[_ Hc]|(p' & Hnz' & _ & Hc)].
    + rewrite Hc in Hq. by eapply Hnz.
    + rewrite Hc in Hq. by injection Hq as <-.
Qed.

(** X13: [get_current_prices] counts every requested ticker exactly
    once, as a miss when it has no fresh entry and as a hit otherwise; the
    hit rate read afterwards is computed without error and lies between 0
    and 100. *)
Theorem get_current_prices_lookup_count (tickers : list string) (w : world) :
  let result := get_current_prices quotes_api tickers w in
  let need :=
    List.filter (stale (clock w) (current_price_cache (cache w))) tickers in
  cache_misses (cache result.2) = (cache_misses (cache w) + length need)%nat
  ∧ (cache_hits (cache result.2) + length need
     = cache_hits (cache w) + length tickers)%nat
  ∧ ∃ rate, get_cache_hit_rate (cache result.2) = Ret rate
            ∧ (0 <= rate <= 100)%Q.
Proof.
  intros result need.
  assert (Hcount :
    cache_misses (cache result.2) = (cache_misses (cache w) + length need)%nat
    ∧ (cache_hits (cache result.2) + cache_misses (cache result.2)
       = cache_hits (cache w) + cache_misses (cache w) + length tickers)%nat).
  { subst result need. unfold get_current_prices.
    destruct (check_current_counts tickers ∅ [] w) as (_ & _ & Hm & Hh).
    destruct (check_current tickers ∅ [] w) as [[prices need] w1].
    cbn [snd] in *.
    destruct need as [|t0 need]; [cbn [snd]; done|].
    destruct (retry_keeps_cache _ _ w1 (fetch_quotes_sends quotes_api (t0 :: need)))
      as (Hc & _).
    destruct (_api_call_with_retry (fetch_quotes quotes_api (t0 :: need)) w1)
      as [data w2].
    cbn [snd] in Hc.
    destruct data as [[|item items]|]; cbn [snd];
      [by rewrite Hc | | by rewrite Hc].
    destruct (store_quotes_backed (item :: items) prices w2)
      as (_ & _ & Hhits & Hmisses & _).
    rewrite Hhits, Hmisses, Hc. done. }
  destruct Hcount as [Hm Hh]. split_and!; [done | lia |].
  unfold get_cache_hit_rate.
  destruct (Nat.eqb_spec (cache_hits (cache result.2)
                          + cache_misses (cache result.2)) 0) as [|Hne].
  { eexists. split; [done|]. lra. }
  set (h := cache_hits (cache result.2)) in *.
  set (m := cache_misses (cache result.2)) in *.
  assert (Hpos : (0 < inject_Z (Z.of_nat (h + m)))%Q).
  { change 0%Q with (inject_Z 0). rewrite <- Zlt_Qlt. lia. }
  rewrite py_div_nonzero by lra. simpl. eexists. split; [done|].
  assert (H0 : (0 <= inject_Z (Z.of_nat h))%Q).
  { change 0%Q with (inject_Z 0). rewrite <- Zle_Qle. lia. }
  assert (H1 : (inject_Z (Z.of_nat h) <= inject_Z (Z.of_nat (h + m)))%Q).
  { rewrite <- Zle_Qle. lia. }
  set (a := inject_Z (Z.of_nat h)) in *.
  set (b := inject_Z (Z.of_nat (h + m))) in *.
  assert (Ha : (0 <= a / b)%Q) by (apply Qle_shift_div_l; lra).
  assert (Hb : (a / b <= 1)%Q) by (apply Qle_shift_div_r; lra).
  lra.
Qed.

End ClientCache.


Lemma get_current_prices_nonzero_witness :
  let w := World (mkCache ∅ ∅ 0 0) (Stats 0 0 0) (Storage None 0) 0 [] [] in
  nonzero_prices (get_current_prices quotes_at_one ["AAPL"] w).1
  ∧ nonzero_quotes
      (current_price_cache (cache (get_current_prices quotes_at_one ["AAPL"] w).2)).
Proof.
  intros w. apply (get_current_prices_nonzero quotes_at_one ["AAPL"] w).
  intros t cached H. unfold w in H. simpl in H. by rewrite lookup_empty in H.
Defined.

(** ** What a historical fetch leaves in the cache *)

Lemma set_historical_price_counts now t date p c d :
  current_price_cache (set_historical_price now t date p c d).1
  = current_price_cache c
  ∧ cache_hits (set_historical_price now t date p c d).1 = cache_hits c
  ∧ cache_misses (set_historical_price now t date p c d).1 = cache_misses c.
Proof.
  unfold set_historical_price. by destruct (size _ mod 10 =? 0)%nat.
Qed.

Section ClientHistory.

Context (history_api : nat → string → Z → Z → outcome (list bar)).
Context (day_bounds : string → option (Z * Z)).
Context (schedule : list string → list string).

Lemma fetch_historical_price_effect t date w :
  (∀ k, k ≠ (t, date) →
     historical_price_cache
       (cache (fetch_historical_price history_api day_bounds t date w).2) !! k
     = historical_price_cache (cache w) !! k)
  ∧ (∀ p, (fetch_historical_price history_api day_bounds t date w).1 = Some p →
       historical_price_cache
         (cache (fetch_historical_price history_api day_bounds t date w).2)
         !! (t, date) = Some p)
  ∧ ((fetch_historical_price history_api day_bounds t date w).1 = None →
       historical_price_cache
         (cache (fetch_historical_price history_api day_bounds t date w).2)
       = historical_price_cache (cache w))
  ∧ (∀ p, historical_price_cache (cache w) !! (t, date) = Some p →
       fetch_historical_price history_api day_bounds t date w
       = (Some p,
          with_cache
            (mkCache (current_price_cache (cache w))
               (historical_price_cache (cache w))
               (S (cache_hits (cache w))) (cache_misses (cache w))) w))
  ∧ (historical_price_cache (cache w) !! (t, date) = None →
       cache_hits (cache (fetch_historical_price history_api day_bounds t date w).2)
       = cache_hits (cache w)
       ∧ cache_misses
           (cache (fetch_historical_price history_api day_bounds t date w).2)
         = S (cache_misses (cache w))).
Proof.
  unfold fetch_historical_price, get_historical_price.
  destruct (historical_price_cache (cache w) !! (t, date)) as [p0|] eqn:Hlook.
  { cbn [fst snd cache with_cache historical_price_cache].
    split_and!; try done.
    - intros p [= <-]. done.
    - intros p [= <-]. done. }
  set (c := mkCache (current_price_cache (cache w))
              (historical_price_cache (cache w)) (cache_hits (cache w))
              (S (cache_misses (cache w)))).
  destruct (day_bounds date) as [[start stop]|];
    [|cbn [fst snd cache with_cache]; split_and!; done].
  destruct (retry_keeps_cache _ _ (with_cache c w)
              (fetch_history_sends history_api t start stop)) as (Hc & _).
  destruct (_api_call_with_retry (fetch_history history_api t start stop)
              (with_cache c w)) as [data w1].
  cbn [snd cache with_cache] in Hc.
  destruct data as [[|first rest]|]; cbn [fst snd];
    try (rewrite Hc; split_and!; done).
  destruct (bar_open first) as [p|]; cbn [fst snd];
    [|rewrite Hc; split_and!; done].
  pose proof (set_historical_price_cache (clock w1) t date p (cache w1) (disk w1))
    as Hset.
  destruct (set_historical_price_counts (clock w1) t date p (cache w1) (disk w1))
    as (_ & Hh & Hm).
  destruct (set_historical_price (clock w1) t date p (cache w1) (disk w1))
    as [c' d']. cbn [fst snd cache] in *. rewrite Hc in Hset, Hh, Hm.
  split_and!; try done.
  - intros k Hk. rewrite Hset. by apply lookup_insert_ne.
  - intros p' [= <-]. rewrite Hset. apply lookup_insert_eq.
Qed.

(** X14: a price returned by [get_historical_price] is in the
    historical cache afterwards, so asking again for the same ticker and
    date returns the same price from the cache: nothing is sent, no
    counter of the client moves, and the cache file is not rewritten. *)
Theorem get_historical_price_memoised (t date : string) (w : world) (p : Q) :
  let first := fetch_historical_price history_api day_bounds t date w in
  let again := fetch_historical_price history_api day_bounds t date first.2 in
  first.1 = Some p →
  historical_price_cache (cache first.2) !! (t, date) = Some p
  ∧ again.1 = Some p
  ∧ sent again.2 = sent first.2
  ∧ stats again.2 = stats first.2
  ∧ disk again.2 = disk first.2
  ∧ slept again.2 = slept first.2
  ∧ historical_price_cache (cache again.2) = historical_price_cache (cache first.2).
Proof.
  intros first again H. subst again.
  destruct (fetch_historical_price_effect t date w) as (_ & Hsome & _).
  specialize (Hsome p H). fold first in Hsome.
  destruct (fetch_historical_price_effect t date first.2) as (_ & _ & _ & Hhit & _).
  rewrite (Hhit p Hsome). done.
Qed.

Lemma run_tasks_backed order date prices w :
  (∀ t p, prices !! t = Some p →
     historical_price_cache (cache w) !! (t, date) = Some p) →
  ∀ t p,
    (run_tasks history_api day_bounds order date prices w).1 !! t = Some p →
    historical_price_cache
      (cache (run_tasks history_api day_bounds order date prices w).2) !! (t, date)
    = Some p
    ∧ (t ∈ order ∨ prices !! t = Some p).
Proof.
  revert prices w. induction order as [|t0 rest IH]; intros prices w Hinv t p.
  { simpl. intros H. split; [by apply Hinv | by right]. }
  cbn [run_tasks].
  destruct (fetch_historical_price_effect t0 date w) as (Hother & Hsome & Hnone & _).
  destruct (fetch_historical_price history_api day_bounds t0 date w) as [[p0|] w1];
    cbn [fst snd] in *.
  - intros H. apply IH in H as [Hc Hin].
    + split; [done|]. destruct Hin as [Hin|Hin]; [left; by right|].
      destruct (decide (t = t0)) as [->|Hne]; [left; by left|].
      right. by rewrite lookup_insert_ne in Hin.
    + intros t' p'. destruct (decide (t' = t0)) as [->|Hne].
      * rewrite lookup_insert_eq. intros [= <-]. by apply Hsome.
      * rewrite lookup_insert_ne by done. intros Hp.
        rewrite Hother by congruence. by apply Hinv.
  - intros H. apply IH in H as [Hc Hin].
    + split; [done|]. destruct Hin as [Hin|Hin]; [left; by right | by right].
    + intros t' p' Hp. rewrite Hnone by done. by apply Hinv.
Qed.

(** X15: every price [get_historical_prices_concurrent] returns is the
    one the historical cache holds for that ticker and date when the call
    ends, and only requested tickers are priced. *)
Theorem concurrent_prices_backed_by_cache (tickers : list string)
    (date : string) (w : world) (t : string) (p : Q) :
  let result :=
    get_historical_prices_concurrent history_api day_bounds schedule
      tickers date w in
  (∀ l, schedule l ≡ₚ l) →
  result.1 !! t = Some p →
  historical_price_cache (cache result.2) !! (t, date) = Some p ∧ t ∈ tickers.
Proof.
  intros result Hperm. subst result. unfold get_historical_prices_concurrent.
  destruct (check_historical_spec tickers date ∅ [] w)
    as (Hneed & _ & Hhist & Hin & Hout).
  destruct (check_historical tickers date ∅ [] w) as [[prices need] w1].
  cbn [fst snd] in *.
  assert (Hprices : ∀ t' p', prices !! t' = Some p' →
            historical_price_cache (cache w1) !! (t', date) = Some p'
            ∧ t' ∈ tickers).
  { intros t' p' Hp. rewrite Hhist.
    destruct (decide (t' ∈ tickers)) as [Ht|Ht].
    - destruct (historical_price_cache (cache w) !! (t', date)) as [q|] eqn:Hq.
      + rewrite (Hin t' q Ht Hq) in Hp. by injection Hp as <-.
      + rewrite Hout, lookup_empty in Hp by (by right). done.
    - rewrite Hout, lookup_empty in Hp by (by left). done. }
  destruct need as [|t0 need]; cbn [fst snd].
  { apply Hprices. }
  intros H. apply run_tasks_backed in H as [Hc Hin'].
  - split; [done|]. destruct Hin' as [Hin'|Hin']; [|exact (proj2 (Hprices _ _ Hin'))].
    rewrite Hperm, Hneed in Hin'. simpl in Hin'.
    rewrite list_elem_of_In, List.filter_In, <- list_elem_of_In in Hin'.
    by destruct Hin'.
  - intros t' p' Hp. exact (proj1 (Hprices _ _ Hp)).
Qed.

Lemma run_tasks_counts order date prices w :
  NoDup order →
  (∀ t, t ∈ order → historical_price_cache (cache w) !! (t, date) = None) →
  cache_hits (cache (run_tasks history_api day_bounds order date prices w).2)
  = cache_hits (cache w)
  ∧ cache_misses (cache (run_tasks history_api day_bounds order date prices w).2)
    = (cache_misses (cache w) + length order)%nat.
Proof.
  revert prices w. induction order as [|t0 rest IH]; intros prices w Hnd Hmiss.
  { simpl. split; [done|lia]. }
  apply NoDup_cons in Hnd as [Hfresh Hnd].
  cbn [run_tasks length].
  destruct (fetch_historical_price_effect t0 date w)
    as (Hother & _ & _ & _ & Hcount).
  destruct (Hcount (Hmiss t0 ltac:(left))) as [Hh Hm].
  destruct (fetch_historical_price history_api day_bounds t0 date w) as [r w1].
  cbn [fst snd] in *.
  assert (Hrest : ∀ t, t ∈ rest →
            historical_price_cache (cache w1) !! (t, date) = None).
  { intros t Ht. rewrite Hother; [apply Hmiss; by right|].
    intros [= ->]. done. }
  destruct r as [p|].
  - destruct (IH (<[t0 := p]> prices) w1 Hnd Hrest) as [H3 H4].
    rewrite H3, H4, Hh, Hm. split; [done|lia].
  - destruct (IH prices w1 Hnd Hrest) as [H3 H4].
    rewrite H3, H4, Hh, Hm. split; [done|lia].
Qed.

Lemma check_historical_counts tickers date prices need w :
  cache_misses (cache (check_historical tickers date prices need w).2)
  = (cache_misses (cache w)
     + length (List.filter (missing (cache w) date) tickers))%nat
  ∧ (cache_hits (cache (check_historical tickers date prices need w).2)
     + length (List.filter (missing (cache w) date) tickers)
     = cache_hits (cache w) + length tickers)%nat.
Proof.
  revert prices need w.
  induction tickers as [|x rest IH]; intros prices need w.
  { simpl. split; lia. }
  cbn [check_historical List.filter length].
  unfold get_historical_price.
  destruct (historical_price_cache (cache w) !! (x, date)) as [p|] eqn:Hx.
  - assert (Hmx : missing (cache w) date x = false).
    { unfold missing. apply bool_decide_eq_false_2. congruence. }
    rewrite !Hmx.
    set (w' := with_cache
                 (mkCache (current_price_cache (cache w))
                    (historical_price_cache (cache w))
                    (S (cache_hits (cache w))) (cache_misses (cache w))) w).
    destruct (IH (<[x := p]> prices) need w') as [H1 H2].
    change (missing (cache w') date) with (missing (cache w) date) in H1, H2.
    change (cache_misses (cache w')) with (cache_misses (cache w)) in H1.
    change (cache_hits (cache w')) with (S (cache_hits (cache w))) in H2.
    split; [exact H1 | lia].
  - assert (Hmx : missing (cache w) date x = true).
    { unfold missing. by apply bool_decide_eq_true_2. }
    rewrite !Hmx.
    set (w' := with_cache
                 (mkCache (current_price_cache (cache w))
                    (historical_price_cache (cache w))
                    (cache_hits (cache w)) (S (cache_misses (cache w)))) w).
    destruct (IH prices (need ++ [x]) w') as [H1 H2].
    change (missing (cache w') date) with (missing (cache w) date) in H1, H2.
    change (cache_misses (cache w')) with (S (cache_misses (cache w))) in H1.
    change (cache_hits (cache w')) with (cache_hits (cache w)) in H2.
    cbn [length]. split; lia.
Qed.

(** X16: on distinct tickers [get_historical_prices_concurrent] counts a
    hit for every ticker it finds in the cache and two misses for every
    other ticker: one in its own cache check, one more in the task that
    fetches the ticker. *)
Theorem concurrent_miss_counted_twice (tickers : list string) (date : string)
    (w : world) :
  let result :=
    get_historical_prices_concurrent history_api day_bounds schedule
      tickers date w in
  let need := List.filter (missing (cache w) date) tickers in
  NoDup tickers →
  (∀ l, schedule l ≡ₚ l) →
  cache_misses (cache result.2)
  = (cache_misses (cache w) + 2 * length need)%nat
  ∧ (cache_hits (cache result.2) + length need
     = cache_hits (cache w) + length tickers)%nat.
Proof.
  intros result need Hnd Hperm. subst result need.
  unfold get_historical_prices_concurrent.
  destruct (check_historical_spec tickers date ∅ [] w)
    as (Hneed & _ & Hhist & _).
  destruct (check_historical_counts tickers date ∅ [] w) as [Hm Hh].
  destruct (check_historical tickers date ∅ [] w) as [[prices need] w1].
  cbn [fst snd] in *. simpl in Hneed. rewrite <- Hneed in *.
  destruct need as [|t0 need]; cbn [snd].
  { simpl in *. split; lia. }
  destruct (run_tasks_counts (schedule (t0 :: need)) date prices w1) as [H1 H2].
  - rewrite Hperm, Hneed. apply NoDup_ListNoDup, List.NoDup_filter.
    by apply NoDup_ListNoDup.
  - intros t Ht. rewrite Hperm, Hneed in Ht.
    rewrite list_elem_of_In, List.filter_In in Ht. destruct Ht as [_ Ht].
    rewrite Hhist. by apply missing_spec.
  - rewrite H1, H2, Hm, (Permutation_length (Hperm (t0 :: need))). split; lia.
Qed.

End ClientHistory.

Lemma get_historical_price_memoised_witness :
  let w := World (mkCache ∅ ∅ 0 0) (Stats 0 0 0) (Storage None 0) 0 [] [] in
  let first :=
    fetch_historical_price history_at_seven (λ _, Some (0, 86400)%Z)
      "AAPL" "2024-01-02" w in
  let again :=
    fetch_historical_price history_at_seven (λ _, Some (0, 86400)%Z)
      "AAPL" "2024-01-02" first.2 in
  again.1 = Some 7%Q ∧ sent again.2 = sent first.2.
Proof.
  intros w first again.
  destruct (get_historical_price_memoised history_at_seven
              (λ _, Some (0, 86400)%Z) "AAPL" "2024-01-02" w 7)
    as (_ & H1 & H2 & _).
  - vm_compute. reflexivity.
  - split; [exact H1 | exact H2].
Defined.

Lemma concurrent_prices_backed_by_cache_witness :
  let result :=
    get_historical_prices_concurrent history_at_seven (λ _, Some (0, 86400)%Z)
      (λ l, l) ["AAPL"; "WMT"] "2024-01-02"
      (World (mkCache ∅ ∅ 0 0) (Stats 0 0 0) (Storage None 0) 0 [] []) in
  historical_price_cache (cache result.2) !! ("WMT", "2024-01-02") = Some 7%Q
  ∧ "WMT" ∈ ["AAPL"; "WMT"].
Proof.
  intros result.
  apply (concurrent_prices_backed_by_cache history_at_seven
           (λ _, Some (0, 86400)%Z) (λ l, l) ["AAPL"; "WMT"] "2024-01-02"
           (World (mkCache ∅ ∅ 0 0) (Stats 0 0 0) (Storage None 0) 0 [] [])
           "WMT" 7).
  - intros l. reflexivity.
  - vm_compute. reflexivity.
Defined.

Lemma concurrent_miss_counted_twice_witness :
  let result :=
    get_historical_prices_concurrent history_at_seven (λ _, Some (0, 86400)%Z)
      (λ l, l) twenty_tickers "2024-01-02" five_cached in
  let need := List.filter (missing (cache five_cached) "2024-01-02") twenty_tickers in
  cache_misses (cache result.2)
  = (cache_misses (cache five_cached) + 2 * length need)%nat
  ∧ (cache_hits (cache result.2) + length need
     = cache_hits (cache five_cached) + length twenty_tickers)%nat.
Proof.
  intros result need.
  apply (concurrent_miss_counted_twice history_at_seven
           (λ _, Some (0, 86400)%Z) (λ l, l) twenty_tickers "2024-01-02"
           five_cached).
  - apply (bool_decide_unpack _). vm_compute. reflexivity.
  - intros l. reflexivity.
Defined.

(** ** Positions are bought at positive prices *)

Lemma shares_for_positive per s n :
  (0 <= per)%Q → shares_for per s = Ret n → (0 < n)%Z → (0 < price s)%Q.
Proof.
  intros Hper H Hn. unfold shares_for in H.
  destruct (py_div per (price s)) as [q|] eqn:Hq; simpl in H; [|done].
  injection H as <-. apply py_div_ret in Hq as [Hnz ->].
  by destruct (purchase_within per (price s) Hper Hnz Hn).
Qed.

Lemma buy_each_positive prices per pool alloc :
  (0 <= per)%Q → well_priced prices pool →
  buy_each per pool = Ret alloc →
  Forall (positive_price prices) alloc.
Proof.
  intros Hper. revert alloc.
  induction pool as [|s rest IH]; simpl; intros alloc Hwp H.
  - injection H as <-. constructor.
  - inversion Hwp as [|? ? Hs Hrest]; subst.
    destruct (shares_for per s) as [n|] eqn:Hn; simpl in H; [|done].
    destruct (buy_each per rest) as [tl|]; simpl in H; [|done].
    specialize (IH tl Hrest eq_refl). injection H as <-.
    destruct (Z.ltb_spec 0 n); [|done].
    constructor; [|done]. exists (price s). split; [done|].
    by eapply shares_for_positive.
Qed.

Lemma pick_others_positive prices target per pool selected counts out :
  (0 <= per)%Q → well_priced prices pool →
  Forall (positive_price prices) selected →
  pick_others target per pool selected counts = Ret out →
  Forall (positive_price prices) out.
Proof.
  intros Hper. revert selected counts out.
  induction pool as [|s rest IH]; simpl; intros selected counts out Hwp Hsel H.
  - by injection H as <-.
  - inversion Hwp as [|? ? Hs Hrest]; subst.
    destruct (target <=? length selected)%nat; [by injection H as <-|].
    destruct (sector_count counts (sector (base s)) <? 1)%Z; [|by eapply IH].
    destruct (shares_for per s) as [n|] eqn:Hn; simpl in H; [|done].
    destruct (Z.ltb_spec 0 n); [|by eapply IH].
    eapply IH; [done | | exact H]. apply Forall_app. split; [done|].
    constructor; [|constructor]. exists (price s). split; [done|].
    by eapply shares_for_positive.
Qed.

Lemma buy_preferred_positive prices limit (pot : Q) pool alloc :
  (0 <= pot)%Q → (0 < limit)%nat → well_priced prices pool →
  buy_preferred limit pot pool = Ret alloc →
  Forall (positive_price prices) alloc.
Proof.
  intros Hpot Hlimit Hwp H. unfold buy_preferred in H.
  destruct pool as [|s rest] eqn:Hpool; [injection H as <-; constructor|].
  rewrite <- Hpool in *.
  set (n := Nat.min limit (length pool)) in *.
  assert (Hn : (0 < n)%nat) by (subst n pool; simpl; lia).
  rewrite py_div_nonzero in H by by apply share_nonzero. simpl in H.
  eapply buy_each_positive; [by apply share_nonneg | | exact H].
  eapply well_priced_submseteq; [apply submseteq_take | done].
Qed.

Lemma buy_others_positive prices (pot : Q) pool alloc :
  (0 <= pot)%Q → well_priced prices pool →
  buy_others pot pool = Ret alloc →
  Forall (positive_price prices) alloc.
Proof.
  intros Hpot Hwp H. unfold buy_others in H.
  destruct pool as [|s rest] eqn:Hpool; [injection H as <-; constructor|].
  rewrite <- Hpool in *.
  set (n := Nat.min 3 (length pool)) in *.
  assert (Hn : (0 < n)%nat) by (subst n pool; simpl; lia).
  rewrite py_div_nonzero in H by by apply share_nonzero. simpl in H.
  eapply pick_others_positive; [by apply share_nonneg | done | | exact H].
  constructor.
Qed.

Lemma buy_cheapest_other_positive prices (pot : Q) pool alloc :
  (0 <= pot)%Q → well_priced prices pool →
  buy_cheapest_other pot pool = Ret alloc →
  Forall (positive_price prices) alloc.
Proof.
  intros Hpot Hwp H. unfold buy_cheapest_other in H.
  destruct pool as [|s rest]; [injection H as <-; constructor|].
  destruct (Qltb 0 pot); [|injection H as <-; constructor].
  destruct (shares_for pot s) as [n|] eqn:Hn; simpl in H; [|done].
  injection H as <-. inversion Hwp as [|? ? Hs Hrest]; subst.
  destruct (Z.ltb_spec 0 n) as [Hpos|]; [|constructor].
  constructor; [|constructor]. exists (price s). split; [done|].
  by eapply shares_for_positive.
Qed.

Lemma diversification_positive ctx prices alloc :
  (0 < budget ctx)%Q →
  _diversification ctx prices = Ret alloc →
  Forall (positive_price prices) alloc.
Proof.
  intros Hb. unfold _diversification.
  set (avoided := list_to_set (avoided_sectors ctx) : gset string).
  destruct (candidates_of_spec avoided prices STOCKS) as [Hwp _].
  set (candidates := sort_by price (candidates_of avoided prices STOCKS)).
  set (target := if Qltb (budget ctx) 100 then 3%nat
                 else if Qltb (budget ctx) 500 then 5%nat else 7%nat).
  destruct (select_diverse_spec target (Z.max 2 (Z.of_nat target / 2))
              candidates [] ∅) as (selected & -> & Hsel).
  simpl app.
  assert (Hpot : (0 <= budget ctx * INITIAL_BUDGET_USAGE)%Q).
  { unfold INITIAL_BUDGET_USAGE. lra. }
  assert (Hwps : well_priced prices selected).
  { eapply well_priced_submseteq; [by apply sublist_submseteq|].
    by apply well_priced_sort. }
  destruct selected as [|s rest] eqn:Hselected.
  { intros [= <-]. constructor. }
  rewrite <- Hselected in *.
  assert (Hn : (0 < length selected)%nat) by (subst; simpl; lia).
  rewrite py_div_nonzero by by apply share_nonzero.
  simpl. intros H.
  eapply buy_each_positive; [by apply share_nonneg | exact Hwps | exact H].
Qed.

Lemma preference_weighted_positive ctx prices alloc :
  (0 < budget ctx)%Q →
  _preference_weighted ctx prices = Ret alloc →
  Forall (positive_price prices) alloc.
Proof.
  intros Hb. unfold _preference_weighted.
  destruct (partition_stocks _ _ prices STOCKS) as [ps os] eqn:Hpart.
  pose proof (partition_stocks_spec _ _ _ _ _ _ Hpart) as (Hps & Hos & _).
  destruct (buy_preferred 3 _ _) as [pa|] eqn:Hpa; simpl; [|done].
  destruct (buy_others _ _) as [oa|] eqn:Hoa; simpl; [|done].
  intros [= <-]. apply Forall_app. split.
  - apply (buy_preferred_positive prices 3 (budget ctx * 0.60) (sort_by price ps));
      [lra | lia | by apply well_priced_sort | exact Hpa].
  - apply (buy_others_positive prices (budget ctx * 0.36) (sort_by price os));
      [lra | by apply well_priced_sort | exact Hoa].
Qed.

Lemma high_conviction_positive ctx prices alloc :
  (0 < budget ctx)%Q →
  _high_conviction ctx prices = Ret alloc →
  Forall (positive_price prices) alloc.
Proof.
  intros Hb. unfold _high_conviction.
  destruct (partition_stocks _ _ prices STOCKS) as [ps os] eqn:Hpart.
  pose proof (partition_stocks_spec _ _ _ _ _ _ Hpart) as (Hps & Hos & _).
  destruct (buy_preferred 4 _ _) as [pa|] eqn:Hpa; simpl; [|done].
  destruct (buy_cheapest_other _ _) as [oa|] eqn:Hoa; simpl; [|done].
  intros [= <-]. apply Forall_app. split.
  - apply (buy_preferred_positive prices 4 (budget ctx * 0.80) (sort_by price ps));
      [lra | lia | by apply well_priced_sort | exact Hpa].
  - apply (buy_cheapest_other_positive prices (budget ctx * 0.16)
             (sort_by price os));
      [lra | by apply well_priced_sort | exact Hoa].
Qed.

Lemma build_portfolio_positive strategy ctx prices alloc :
  (0 < budget ctx)%Q →
  build_portfolio strategy ctx prices = Ret alloc →
  Forall (positive_price prices) alloc.
Proof.
  intros Hb H. unfold build_portfolio in H.
  repeat match type of H with
  | (if ?b then _ else _) = _ => destruct b
  end;
    [by apply (diversification_positive ctx)
    | by apply (preference_weighted_positive ctx)
    | by apply (high_conviction_positive ctx)
    | by apply (diversification_positive ctx)].
Qed.

(** X17: with a positive budget, every position of a returned allocation
    is in a stock whose price is strictly positive: a stock priced at zero
    or below is never bought. *)
Theorem build_portfolio_positive_prices (strategy : string) (ctx : context)
    (prices : gmap string Q) (alloc : list investment) :
  (0 < budget ctx)%Q →
  build_portfolio strategy ctx prices = Ret alloc →
  ∀ inv, inv ∈ alloc →
    ∃ p, prices !! inv_ticker inv = Some p ∧ (0 < p)%Q.
Proof.
  intros Hb H inv Hin.
  pose proof (build_portfolio_positive strategy ctx prices alloc Hb H) as Hall.
  rewrite Forall_forall in Hall. exact (Hall inv Hin).
Qed.

Lemma build_portfolio_positive_prices_witness :
  ∃ p, scenario_prices !! "AAPL" = Some p ∧ (0 < p)%Q.
Proof.
  apply (build_portfolio_positive_prices "high_conviction" scenario_context
           scenario_prices [Investment "AAPL" 2]
           ltac:(unfold Qlt; simpl; lia) ltac:(vm_compute; reflexivity)
           (Investment "AAPL" 2)).
  by left.
Defined.

(** ** The split between preferred and other sectors *)

Lemma pool_sector (P : string → Prop) `{∀ x, Decision (P x)}
    (avoided : gset string) prices stocks alloc :
  inv_ticker <$> alloc
    ⊆+ pticker <$> sort_by price
         (filter (λ s, P (sector (base s))) (candidates_of avoided prices stocks)) →
  Forall (λ inv, ∃ s, s ∈ stocks ∧ ticker s = inv_ticker inv ∧ P (sector s)) alloc.
Proof.
  intros Hsub. apply Forall_forall. intros inv Hin.
  assert (Ht : inv_ticker inv
               ∈ pticker <$> sort_by price
                   (filter (λ s, P (sector (base s)))
                      (candidates_of avoided prices stocks))).
  { eapply elem_of_submseteq; [|exact Hsub]. by apply list_elem_of_fmap_2. }
  apply list_elem_of_fmap in Ht as (s & Hs & Hpool).
  rewrite sort_by_perm in Hpool.
  apply list_elem_of_filter in Hpool as [HP Hpool].
  apply candidates_of_allowed in Hpool as (Hu & _ & _).
  exists (base s). by split_and!.
Qed.

Lemma two_pools_split (preferred : list string) (avoided : gset string)
    prices stocks ps os pot1 pot2 pa oa :
  partition_stocks (list_to_set preferred) avoided prices stocks = (ps, os) →
  bought prices pot1 (sort_by price ps) pa →
  bought prices pot2 (sort_by price os) oa →
  Forall (sector_is stocks (λ sec, sec ∈ preferred)) pa
  ∧ Forall (sector_is stocks (λ sec, sec ∉ preferred)) oa
  ∧ (value prices pa <= pot1)%Q
  ∧ (value prices oa <= pot2)%Q.
Proof.
  intros Hpart (Hpa & _ & _ & Vpa) (Hoa & _ & _ & Voa).
  rewrite partition_stocks_filter in Hpart. injection Hpart as <- <-.
  split_and!; [| | done | done].
  - eapply Forall_impl;
      [exact (pool_sector (λ sec, sec ∈ (list_to_set preferred : gset string))
                _ prices stocks pa Hpa)|].
    intros inv (s & Hs & Ht & Hsec). exists s. split_and!; try done.
    by apply elem_of_list_to_set in Hsec.
  - eapply Forall_impl;
      [exact (pool_sector (λ sec, sec ∉ (list_to_set preferred : gset string))
                _ prices stocks oa Hoa)|].
    intros inv (s & Hs & Ht & Hsec). exists s. split_and!; try done.
    intros Hin. apply Hsec. by apply elem_of_list_to_set.
Qed.

(** X18: under preference_weighted the allocation is a block of at most
    three positions in preferred sectors followed by a block of at most
    three positions in other sectors; under high_conviction the blocks
    hold at most four positions and at most one. *)
Theorem preferred_sectors_first (strategy : string) (ctx : context)
    (prices : gmap string Q) (alloc : list investment)
    (limit_preferred limit_other : nat) :
  (0 < budget ctx)%Q →
  (strategy = "preference_weighted"
   ∧ limit_preferred = 3%nat ∧ limit_other = 3%nat)
  ∨ (strategy = "high_conviction"
     ∧ limit_preferred = 4%nat ∧ limit_other = 1%nat) →
  build_portfolio strategy ctx prices = Ret alloc →
  ∃ preferred_selected other_selected,
    alloc = preferred_selected ++ other_selected
    ∧ Forall (sector_is STOCKS (λ sec, sec ∈ preferred_sectors ctx))
        preferred_selected
    ∧ Forall (sector_is STOCKS (λ sec, sec ∉ preferred_sectors ctx))
        other_selected
    ∧ (length preferred_selected <= limit_preferred)%nat
    ∧ (length other_selected <= limit_other)%nat.
Proof.
  intros Hb [(-> & -> & ->)|(-> & -> & ->)].
  - change (build_portfolio "preference_weighted" ctx prices)
      with (_preference_weighted ctx prices).
    unfold _preference_weighted.
    destruct (partition_stocks _ _ prices STOCKS) as [ps os] eqn:Hpart.
    pose proof (partition_stocks_spec _ _ _ _ _ _ Hpart) as (Hps & Hos & _).
    destruct (buy_preferred 3 _ _) as [pa|] eqn:Hpa; simpl; [|done].
    destruct (buy_others _ _) as [oa|] eqn:Hoa; simpl; [|done].
    intros [= <-]. exists pa, oa.
    pose proof (buy_preferred_tickers _ _ _ _ Hpa) as [_ Hlen1].
    pose proof (buy_others_tickers _ _ _ Hoa) as [_ Hlen2].
    apply (buy_preferred_bought prices) in Hpa;
      [|lra | lia | by apply well_priced_sort].
    apply (buy_others_bought prices) in Hoa; [|lra | by apply well_priced_sort].
    destruct (two_pools_split _ _ prices STOCKS ps os _ _ pa oa Hpart Hpa Hoa)
      as (H1 & H2 & _ & _).
    split_and!; done.
  - change (build_portfolio "high_conviction" ctx prices)
      with (_high_conviction ctx prices).
    unfold _high_conviction.
    destruct (partition_stocks _ _ prices STOCKS) as [ps os] eqn:Hpart.
    pose proof (partition_stocks_spec _ _ _ _ _ _ Hpart) as (Hps & Hos & _).
    destruct (buy_preferred 4 _ _) as [pa|] eqn:Hpa; simpl; [|done].
    destruct (buy_cheapest_other _ _) as [oa|] eqn:Hoa; simpl; [|done].
    intros [= <-]. exists pa, oa.
    pose proof (buy_preferred_tickers _ _ _ _ Hpa) as [_ Hlen1].
    pose proof (buy_cheapest_other_tickers _ _ _ Hoa) as [_ Hlen2].
    apply (buy_preferred_bought prices) in Hpa;
      [|lra | lia | by apply well_priced_sort].
    apply (buy_cheapest_other_bought prices) in Hoa;
      [|by apply well_priced_sort | lra].
    destruct (two_pools_split _ _ prices STOCKS ps os _ _ pa oa Hpart Hpa Hoa)
      as (H1 & H2 & _ & _).
    split_and!; done.
Qed.

Lemma preferred_sectors_first_witness :
  ∃ preferred_selected other_selected,
    [Investment "AAPL" 2] = preferred_selected ++ other_selected
    ∧ Forall (sector_is STOCKS (λ sec, sec ∈ preferred_sectors scenario_context))
        preferred_selected
    ∧ (length other_selected <= 1)%nat.
Proof.
  destruct (preferred_sectors_first "high_conviction" scenario_context
              scenario_prices [Investment "AAPL" 2] 4 1)
    as (pa & oa & Hsplit & Hpref & _ & _ & Hlen).
  - unfold Qlt. simpl. lia.
  - right. by split_and!.
  - vm_compute. reflexivity.
  - exists pa, oa. by split_and!.
Defined.

(** ** From detected sectors to a strategy *)

(** X19: for a context built by [parse_client_context], the strategy
    depends on the numbers of detected sectors only: diversification with
    no preferred sector; high_conviction with one, or with two and some
    avoided sector; preference_weighted with two and none avoided, or with
    three or more. The strength lies between 0 and 100, so the fallback of
    [select_strategy] is never taken. *)
Theorem strategy_by_detected_sectors (budget : Q) (start_date : string)
    (preferred avoided : list string) :
  let ctx := client_context budget start_date preferred avoided in
  (0 <= preference_strength ctx <= 100)%Z
  ∧ (preferred = [] → select_strategy ctx = "diversification")
  ∧ (length preferred = 1%nat → select_strategy ctx = "high_conviction")
  ∧ (length preferred = 2%nat → avoided = [] →
       select_strategy ctx = "preference_weighted")
  ∧ (length preferred = 2%nat → avoided ≠ [] →
       select_strategy ctx = "high_conviction")
  ∧ ((3 <= length preferred)%nat → select_strategy ctx = "preference_weighted").
Proof.
  intros ctx. subst ctx. unfold client_context, select_strategy.
  cbn [preference_strength].
  assert (Hav : (0 <? Z.of_nat (length avoided))%Z
                = negb (bool_decide (avoided = []))).
  { destruct avoided; [done|]. simpl length.
    rewrite bool_decide_eq_false_2 by done. simpl. apply Z.ltb_lt. lia. }
  unfold _calculate_preference_strength. rewrite Hav.
  destruct preferred as [|a [|b [|c rest]]].
  - destruct avoided; split_and!; try done; intros; simpl in *; lia.
  - destruct avoided; split_and!; try done; intros; simpl in *; lia.
  - destruct avoided; split_and!; try done; intros; simpl in *; lia.
  - assert (H1 : (Z.of_nat (length (a :: b :: c :: rest)) =? 1)%Z = false).
    { apply Z.eqb_neq. simpl length. lia. }
    assert (H2 : (Z.of_nat (length (a :: b :: c :: rest)) =? 2)%Z = false).
    { apply Z.eqb_neq. simpl length. lia. }
    assert (H3 : (3 <=? Z.of_nat (length (a :: b :: c :: rest)))%Z = true).
    { apply Z.leb_le. simpl length. lia. }
    rewrite H1, H2, H3.
    destruct avoided; split_and!; try done; intros; simpl in *; lia.
Qed.

Lemma strategy_by_detected_sectors_witness :
  select_strategy
    (client_context 300 "2024-01-02" ["Technology"; "Energy"] ["Utilities"])
  = "high_conviction".
Proof.
  apply (proj1 (proj2 (proj2 (proj2 (proj2
           (strategy_by_detected_sectors 300 "2024-01-02"
              ["Technology"; "Energy"] ["Utilities"])))))).
  - reflexivity.
  - discriminate.
Defined.

(** ** Pre-warming *)

Section Prewarm.

Context (quotes_api : nat → list string → outcome (list quote_item)).


End Prewarm.


(** ** The tracker's counters *)

Lemma counter_total_insert (d : gmap string nat) k n :
  d !! k = None → counter_total (<[k := n]> d) = (n + counter_total d)%nat.
Proof.
  intros Hk. unfold counter_total.
  apply (map_fold_insert_L (λ _ n acc, (n + acc)%nat)); [|done].
  intros. lia.
Qed.

Lemma counter_total_update (d : gmap string nat) k n m :
  d !! k = Some n →
  (counter_total (<[k := m]> d) + n = counter_total d + m)%nat.
Proof.
  intros Hk.
  rewrite <- (insert_delete_eq d k m).
  rewrite <- (insert_delete_id d k n Hk) at 2.
  rewrite !counter_total_insert by apply lookup_delete_eq. lia.
Qed.

Lemma increment_total (d d' : gmap string nat) k :
  increment d k = Ret d' →
  counter_total d' = S (counter_total d)
  ∧ (∀ n, d !! k = Some n → d' !! k = Some (S n))
  ∧ (∀ k', k' ≠ k → d' !! k' = d !! k').
Proof.
  unfold increment. destruct (d !! k) as [n|] eqn:Hk; [|done].
  intros [= <-]. split_and!.
  - pose proof (counter_total_update d k n (S n) Hk). lia.
  - intros n' [= <-]. apply lookup_insert_eq.
  - intros k' Hne. by apply lookup_insert_ne.
Qed.

Lemma record_skip_spec reason self :
  ∃ self',
    record_skip reason self = Ret self'
    ∧ clients_skipped self' = S (clients_skipped self)
    ∧ counter_total (skip_reasons self') = S (counter_total (skip_reasons self))
    ∧ skip_reasons self' !! reason
      = Some (S (default 0%nat (skip_reasons self !! reason)))
    ∧ (∀ r, r ≠ reason → skip_reasons self' !! r = skip_reasons self !! r)
    ∧ clients_processed self' = clients_processed self
    ∧ strategy_usage self' = strategy_usage self
    ∧ solutions_accepted self' = solutions_accepted self
    ∧ solutions_rejected self' = solutions_rejected self.
Proof.
  unfold record_skip.
  destruct (skip_reasons self !! reason) as [n|] eqn:Hr.
  - rewrite bool_decide_eq_false_2 by done.
    unfold increment. rewrite Hr. simpl. eexists. split; [reflexivity|].
    cbn [clients_skipped skip_reasons clients_processed strategy_usage
         solutions_accepted solutions_rejected].
    split_and!; try done.
    + pose proof (counter_total_update _ reason n (S n) Hr). lia.
    + apply lookup_insert_eq.
    + intros r Hne. by apply lookup_insert_ne.
  - rewrite bool_decide_eq_true_2 by done.
    unfold increment. rewrite lookup_insert_eq. simpl.
    eexists. split; [reflexivity|].
    cbn [clients_skipped skip_reasons clients_processed strategy_usage
         solutions_accepted solutions_rejected].
    split_and!; try done.
    + rewrite insert_insert_eq. by rewrite counter_total_insert.
    + apply lookup_insert_eq.
    + intros r Hne. by rewrite !lookup_insert_ne.
Qed.

Lemma record_processed_spec strategy self :
  ∃ self',
    record_processed strategy self = Ret self'
    ∧ clients_processed self' = S (clients_processed self)
    ∧ counter_total (strategy_usage self')
      = (counter_total (strategy_usage self)
         + if bool_decide (is_Some (strategy_usage self !! strategy))
           then 1 else 0)%nat
    ∧ dom (strategy_usage self') = dom (strategy_usage self)
    ∧ clients_skipped self' = clients_skipped self
    ∧ skip_reasons self' = skip_reasons self
    ∧ solutions_accepted self' = solutions_accepted self
    ∧ solutions_rejected self' = solutions_rejected self.
Proof.
  unfold record_processed.
  destruct (strategy_usage self !! strategy) as [n|] eqn:Hs.
  - rewrite !bool_decide_eq_true_2 by eauto.
    unfold increment. rewrite Hs. simpl. eexists. split; [reflexivity|].
    cbn [clients_skipped skip_reasons clients_processed strategy_usage
         solutions_accepted solutions_rejected].
    split_and!; try done.
    + pose proof (counter_total_update _ strategy n (S n) Hs). lia.
    + apply dom_insert_lookup_L. eauto.
  - rewrite !bool_decide_eq_false_2 by (by intros [? ?]).
    simpl. eexists. split; [reflexivity|].
    cbn [clients_skipped skip_reasons clients_processed strategy_usage
         solutions_accepted solutions_rejected].
    split_and!; try done; lia.
Qed.

(** The counters after any sequence of recording calls. *)
Lemma tracker_run_spec cs self :
  ∃ self',
    tracker_run cs self = Ret self'
    ∧ clients_skipped self'
      = (clients_skipped self
         + length (List.filter is_skip_call cs))%nat
    ∧ (counter_total (skip_reasons self') + clients_skipped self
       = counter_total (skip_reasons self) + clients_skipped self')%nat
    ∧ (∀ r, default 0%nat (skip_reasons self' !! r)
            = (default 0%nat (skip_reasons self !! r) + skips_for r cs)%nat)
    ∧ (counter_total (strategy_usage self') + clients_processed self
       <= counter_total (strategy_usage self) + clients_processed self')%nat
    ∧ dom (strategy_usage self') = dom (strategy_usage self)
    ∧ (Forall (λ c, ∀ s, c = RecordProcessed s → s ∈ dom (strategy_usage self)) cs →
       (counter_total (strategy_usage self') + clients_processed self
        = counter_total (strategy_usage self) + clients_processed self')%nat).
Proof.
  revert self. induction cs as [|c rest IH]; intros self.
  { exists self. simpl.
    split_and!; try done; try lia; intros r; unfold skips_for; simpl; lia. }
  cbn [tracker_run].
  assert (Hstep : ∃ self1,
    tracker_step c self = Ret self1
    ∧ clients_skipped self1
      = (clients_skipped self + if is_skip_call c then 1 else 0)%nat
    ∧ (counter_total (skip_reasons self1) + clients_skipped self
       = counter_total (skip_reasons self) + clients_skipped self1)%nat
    ∧ (∀ r, default 0%nat (skip_reasons self1 !! r)
            = (default 0%nat (skip_reasons self !! r)
               + if is_skip r c then 1 else 0)%nat)
    ∧ (counter_total (strategy_usage self1) + clients_processed self
       <= counter_total (strategy_usage self) + clients_processed self1)%nat
    ∧ dom (strategy_usage self1) = dom (strategy_usage self)
    ∧ ((∀ s, c = RecordProcessed s → s ∈ dom (strategy_usage self)) →
       (counter_total (strategy_usage self1) + clients_processed self
        = counter_total (strategy_usage self) + clients_processed self1)%nat)).
  { destruct c as [reason|strategy|accepted|seconds]; cbn [tracker_step].
    - destruct (record_skip_spec reason self)
        as (self1 & -> & H1 & H2 & H3 & H4 & H5 & H6 & _).
      exists self1. split; [done|]. rewrite H1, H2, H5, H6. split_and!.
      + simpl. lia.
      + lia.
      + intros r. simpl. destruct (String.eqb_spec reason r) as [->|Hne].
        * rewrite H3. simpl. lia.
        * rewrite H4 by done. lia.
      + lia.
      + done.
      + intros _. lia.
    - destruct (record_processed_spec strategy self)
        as (self1 & -> & H1 & H2 & H3 & H4 & H5 & _).
      exists self1. split; [done|]. rewrite H1, H4, H5. split_and!.
      + simpl. lia.
      + lia.
      + intros r. simpl. lia.
      + rewrite H2. destruct (bool_decide _); lia.
      + done.
      + intros Hin. rewrite H2, bool_decide_eq_true_2; [lia|].
        apply elem_of_dom. by apply Hin.
    - exists (record_solution accepted self). split; [done|].
      destruct accepted; simpl; split_and!; try done; try lia;
        intros; lia.
    - exists (record_processing_time seconds self). split; [done|].
      simpl; split_and!; try done; try lia; intros; lia. }
  destruct Hstep as (self1 & -> & S1 & S2 & S3 & S4 & S5 & S6).
  cbn [mbind res_bind].
  destruct (IH self1) as (self' & -> & R1 & R2 & R3 & R4 & R5 & R6).
  exists self'. split; [done|]. split_and!.
  - rewrite R1, S1. cbn [List.filter].
    destruct (is_skip_call c); simpl; lia.
  - lia.
  - intros r. rewrite R3, S3. unfold skips_for. cbn [List.filter].
    destruct (is_skip r c); simpl; lia.
  - lia.
  - by rewrite R5.
  - intros Hall. inversion Hall as [|? ? Hc Hrest]; subst.
    specialize (S6 Hc). rewrite <- S5 in Hrest. specialize (R6 Hrest). lia.
Qed.

Lemma new_tracker_usage now :
  counter_total (strategy_usage (new_tracker now)) = 0%nat
  ∧ dom (strategy_usage (new_tracker now))
    = ({["diversification"; "preference_weighted"; "high_conviction"]}
       : gset string).
Proof.
  cbn [new_tracker strategy_usage]. split.
  - rewrite !counter_total_insert; [| done | done].
    unfold counter_total. rewrite map_fold_singleton. done.
  - rewrite !dom_insert_L, dom_singleton_L.
    by rewrite (assoc_L (∪)).
Qed.

(** X21: on a new tracker no sequence of recording calls raises.
    Afterwards [clients_skipped] is the number of [record_skip] calls and
    the sum of the [skip_reasons] counts, each reason being counted as
    often as it was recorded; [strategy_usage] keeps its three keys and its
    counts add up to at most [clients_processed], and to exactly that when
    only the three strategies were recorded. *)
Theorem tracker_counts_add_up (now : Z) (cs : list tracker_call) :
  ∃ self,
    tracker_run cs (new_tracker now) = Ret self
    ∧ clients_skipped self = length (List.filter is_skip_call cs)
    ∧ counter_total (skip_reasons self) = clients_skipped self
    ∧ (∀ r, default 0%nat (skip_reasons self !! r) = skips_for r cs)
    ∧ dom (strategy_usage self)
      = ({["diversification"; "preference_weighted"; "high_conviction"]}
         : gset string)
    ∧ (counter_total (strategy_usage self) <= clients_processed self)%nat
    ∧ (Forall known_strategy cs →
       counter_total (strategy_usage self) = clients_processed self).
Proof.
  destruct (new_tracker_usage now) as [Husage Hdom].
  destruct (tracker_run_spec cs (new_tracker now))
    as (self & Hrun & H1 & H2 & H3 & H4 & H5 & H6).
  rewrite Husage in H4, H6. rewrite Hdom in H5, H6.
  change (clients_skipped (new_tracker now)) with 0%nat in *.
  change (clients_processed (new_tracker now)) with 0%nat in *.
  change (skip_reasons (new_tracker now)) with (∅ : gmap string nat) in *.
  assert (H0 : counter_total (∅ : gmap string nat) = 0%nat)
    by apply map_fold_empty.
  exists self. split_and!.
  - exact Hrun.
  - lia.
  - lia.
  - intros r. rewrite H3, lookup_empty. simpl. lia.
  - exact H5.
  - lia.
  - intros Hknown.
    assert (Hin : Forall (λ c, ∀ s, c = RecordProcessed s →
                    s ∈ ({["diversification"; "preference_weighted";
                           "high_conviction"]} : gset string)) cs).
    { eapply Forall_impl; [exact Hknown|]. intros c Hc s ->.
      cbn [known_strategy] in Hc.
      rewrite !elem_of_union, !elem_of_singleton. tauto. }
    specialize (H6 Hin). lia.
Qed.

Lemma tracker_counts_add_up_witness :
  ∃ self,
    tracker_run [RecordProcessed "high_conviction"; RecordSkip "No historical prices";
                 RecordProcessed "diversification"; RecordSolution true]
      (new_tracker 0) = Ret self
    ∧ counter_total (skip_reasons self) = clients_skipped self
    ∧ counter_total (strategy_usage self) = clients_processed self.
Proof.
  destruct (tracker_counts_add_up 0
              [RecordProcessed "high_conviction"; RecordSkip "No historical prices";
               RecordProcessed "diversification"; RecordSolution true])
    as (self & Hrun & _ & Hskip & _ & _ & _ & Husage).
  exists self. split_and!; [exact Hrun | exact Hskip |].
  apply Husage.
  repeat (apply Forall_cons; split); try apply Forall_nil;
    cbn [known_strategy]; auto.
Defined.

(** ** Grouping clients by date *)

Lemma group_of_spec date groups :
  (date ∈ get_dates groups → (group_of date groups).2 = groups)
  ∧ (date ∉ get_dates groups →
     (group_of date groups).1 = []
     ∧ (group_of date groups).2 = groups ++ [(date, [])]).
Proof.
  unfold get_dates. induction groups as [|[d clients] rest [IH1 IH2]]; simpl.
  { split; [by intros ?%elem_of_nil | done]. }
  destruct (String.eqb_spec d date) as [->|Hne].
  - split; [done|]. intros Hout. exfalso. apply Hout. by left.
  - destruct (group_of date rest) as [found rest'] eqn:E. simpl in *. split.
    + intros [?|Hin]%elem_of_cons; [congruence|]. by rewrite IH1.
    + intros Hout. rewrite not_elem_of_cons in Hout. destruct Hout as [_ Hout].
      destruct (IH2 Hout) as [-> ->]. done.
Qed.

Lemma add_client_spec client_id date groups :
  NoDup (get_dates groups) →
  NoDup (get_dates (add_client client_id date groups))
  ∧ (∀ d, d ∈ get_dates (add_client client_id date groups)
          ↔ d = date ∨ d ∈ get_dates groups)
  ∧ (∀ d, (group_of d (add_client client_id date groups)).1
          = if String.eqb date d
            then (group_of d groups).1 ++ [client_id]
            else (group_of d groups).1)
  ∧ foldr Nat.add 0%nat (length <$> (add_client client_id date groups).*2)
    = S (foldr Nat.add 0%nat (length <$> groups.*2)).
Proof.
  unfold add_client, get_dates.
  induction groups as [|[d0 clients] rest IH]; intros Hnd.
  { simpl. rewrite String.eqb_refl. simpl. split_and!.
    - apply NoDup_singleton.
    - intros d. rewrite list_elem_of_singleton. split; [by left|].
      intros [?|?%elem_of_nil]; done.
    - intros d. by destruct (String.eqb date d).
    - done. }
  rewrite fmap_cons in Hnd. apply NoDup_cons in Hnd as [Hfresh Hnd].
  specialize (IH Hnd). cbn [group_of].
  destruct (String.eqb_spec d0 date) as [->|Hne].
  - cbn [append_to]. rewrite String.eqb_refl. cbn [fmap list_fmap fst snd].
    split_and!.
    + apply NoDup_cons. done.
    + intros d. rewrite elem_of_cons. tauto.
    + intros d. cbn [group_of]. destruct (String.eqb date d); [done|].
      by destruct (group_of d rest).
    + simpl. rewrite length_app. simpl. lia.
  - destruct (group_of date rest) as [found rest'] eqn:E.
    cbn [append_to]. apply String.eqb_neq in Hne as Hneb. rewrite Hneb.
    destruct IH as (I1 & I2 & I3 & I4).
    cbn [fmap list_fmap fst snd]. split_and!.
    + apply NoDup_cons. split; [|done]. intros Hin. apply I2 in Hin as [->|Hin];
        [by rewrite String.eqb_refl in Hneb | done].
    + intros d. rewrite !elem_of_cons, I2. tauto.
    + intros d. cbn [group_of].
      destruct (String.eqb_spec d0 d) as [->|Hd].
      * rewrite (String.eqb_sym date d), Hneb. done.
      * specialize (I3 d). destruct (group_of d (append_to date client_id rest')).
        destruct (group_of d rest). simpl in *. done.
    + simpl. rewrite I4. lia.
Qed.

Lemma after_adds_snoc adds a :
  after_adds (adds ++ [a]) = add_client a.1 a.2 (after_adds adds).
Proof. unfold after_adds. by rewrite foldl_app. Qed.

(** X22: after any sequence of [add_client] calls on a new processor,
    the registered dates are distinct and are exactly the dates added;
    the clients stored under a date are the clients added with it, in the
    order of the calls; and [get_stats] returns, counting every call in
    [total_clients] and every registered date in [unique_dates]. *)
Theorem add_client_groups_by_date (adds : list (string * string)) :
  let groups := after_adds adds in
  NoDup (get_dates groups)
  ∧ (∀ date, date ∈ get_dates groups ↔ date ∈ adds.*2)
  ∧ (∀ date, (get_clients_for_date date groups).1
             = (List.filter (λ a, String.eqb a.2 date) adds).*1)
  ∧ ∃ stats, get_stats groups = Ret stats
             ∧ total_clients stats = length adds
             ∧ unique_dates stats = length (get_dates groups).
Proof.
  intros groups. subst groups.
  assert (Hinv :
    NoDup (get_dates (after_adds adds))
    ∧ (∀ date, date ∈ get_dates (after_adds adds) ↔ date ∈ adds.*2)
    ∧ (∀ date, (group_of date (after_adds adds)).1
               = (List.filter (λ a, String.eqb a.2 date) adds).*1)
    ∧ foldr Nat.add 0%nat (length <$> (after_adds adds).*2) = length adds).
  { induction adds as [|[client date] adds IH] using rev_ind.
    { split_and!; try done. apply NoDup_nil_2. }
    destruct IH as (I1 & I2 & I3 & I4). rewrite after_adds_snoc. cbn [fst snd].
    destruct (add_client_spec client date (after_adds adds) I1)
      as (A1 & A2 & A3 & A4).
    split_and!.
    - done.
    - intros d. rewrite A2, I2, fmap_app, elem_of_app. simpl.
      rewrite list_elem_of_singleton. split; intros [?|?]; auto.
    - intros d. rewrite A3, I3, List.filter_app, fmap_app. simpl.
      destruct (String.eqb date d); [done|]. by rewrite app_nil_r.
    - rewrite A4, I4, length_app. simpl. lia. }
  destruct Hinv as (H1 & H2 & H3 & H4). split_and!; try done.
  unfold get_stats. rewrite H4.
  match goal with
  | |- ∃ _, mbind _ ?m = _ ∧ _ => assert (Havg : ∃ avg, m = Ret avg)
  end.
  { destruct (after_adds adds) as [|g rest]; [eauto|].
    rewrite py_div_nonzero; [eauto|]. apply share_nonzero. simpl. lia. }
  destruct Havg as [avg ->]. eexists. split; [reflexivity|].
  cbn [total_clients unique_dates]. unfold get_dates. by rewrite length_fmap.
Qed.

(** X23: [get_clients_for_date] on a date that was never added returns
    the empty list and registers the date, after the others; so the
    number of unique dates that [get_stats] reports goes up by one while
    its total of clients stays the same. A registered date is read
    without any change. *)
Theorem get_clients_for_date_registers (date : string) (groups : date_groups) :
  let result := get_clients_for_date date groups in
  (date ∈ get_dates groups → result.2 = groups)
  ∧ (date ∉ get_dates groups →
     result.1 = []
     ∧ get_dates result.2 = get_dates groups ++ [date]
     ∧ ∀ stats, get_stats groups = Ret stats →
         ∃ stats', get_stats result.2 = Ret stats'
           ∧ unique_dates stats' = S (unique_dates stats)
           ∧ total_clients stats' = total_clients stats).
Proof.
  intros result. subst result. unfold get_clients_for_date.
  destruct (group_of_spec date groups) as [Hin Hout].
  split; [exact Hin|]. intros Hnew. destruct (Hout Hnew) as [H1 H2].
  rewrite H1, H2. split_and!; [done | |].
  { unfold get_dates. by rewrite fmap_app. }
  intros stats Hstats. unfold get_stats in *.
  assert (Hsum : foldr Nat.add 0%nat (length <$> (groups ++ [(date, [])]).*2)
                 = foldr Nat.add 0%nat (length <$> groups.*2)).
  { rewrite !fmap_app, foldr_app. simpl. done. }
  rewrite Hsum.
  assert (Hlen : length (groups ++ [(date, @nil string)]) = S (length groups)).
  { rewrite length_app. simpl. lia. }
  match goal with
  | |- ∃ _, mbind _ ?m = _ ∧ _ => assert (Havg : ∃ avg, m = Ret avg)
  end.
  { destruct (groups ++ [(date, [])]) as [|g rest]; [eauto|].
    rewrite py_div_nonzero; [eauto|]. apply share_nonzero. simpl. lia. }
  destruct Havg as [avg ->]. eexists. split; [reflexivity|].
  cbn [unique_dates total_clients]. rewrite Hlen.
  match type of Hstats with
  | mbind _ ?m = _ => destruct m as [avg0|e]
  end; cbn [mbind res_bind] in Hstats; [|done].
  injection Hstats as <-. done.
Qed.

Lemma get_clients_for_date_registers_witness :
  (get_clients_for_date "2024-01-03" (after_adds [("c1", "2024-01-02")])).1 = []
  ∧ get_dates
      (get_clients_for_date "2024-01-03" (after_adds [("c1", "2024-01-02")])).2
    = ["2024-01-02"; "2024-01-03"].
Proof.
  destruct (proj2 (get_clients_for_date_registers "2024-01-03"
                     (after_adds [("c1", "2024-01-02")])))
    as (H1 & H2 & _).
  - vm_compute. intros [[=]|[]%elem_of_nil]%elem_of_cons.
  - split; [exact H1 | exact H2].
Defined.
